(** * deep_srl-br: a shallow embedding of the agent, the DBLSTM graph
    builder and the output-directory helpers

    Sources embedded here:
    - [src/models/agents.py]        (module [Agents])
    - [src/models/dblstm.py]        (module [Dblstm])
    - [src/datasets/data_outputs.py] (module [DataOutputs])

    Python exceptions are values of [exn]; a call that may raise returns
    a [result].  Statements with [try]/[except]/[finally] are functions
    from the local variables to a [completion] and the new locals. *)

From Stdlib Require Import ZArith QArith Qcanon Ascii Lia ZifyNat.
From stdpp Require Import base option list sorting gmap strings pretty.

#[local] Set Warnings "-register-all".
Local Open Scope Z_scope.

(** ** Python exceptions and results *)

Module Py.

Inductive exn_class :=
| AttributeError | IndexError | KeyError | TypeError | ValueError
| ZeroDivisionError | OverflowError | UnboundLocalError | StopIteration
| RuntimeError | OutOfRangeError | FileExistsError
| OtherError (name : string).

Inductive exn := Exn (cls : exn_class) (msg : string).

Definition exn_cls (e : exn) : exn_class := let 'Exn c _ := e in c.

Definition is_class (c : exn_class) (e : exn) : bool :=
  match c, exn_cls e with
  | AttributeError, AttributeError | IndexError, IndexError
  | KeyError, KeyError | TypeError, TypeError | ValueError, ValueError
  | ZeroDivisionError, ZeroDivisionError | OverflowError, OverflowError
  | UnboundLocalError, UnboundLocalError
  | StopIteration, StopIteration | RuntimeError, RuntimeError
  | OutOfRangeError, OutOfRangeError
  | FileExistsError, FileExistsError => true
  | OtherError a, OtherError b => bool_decide (a = b)
  | _, _ => false
  end.

Inductive result (A : Type) :=
| Ok (a : A)
| Raise (e : exn).
Arguments Ok {A} a.
Arguments Raise {A} e.

Global Instance result_bind : MBind result := λ A B k r,
  match r with Ok a => k a | Raise e => Raise e end.
Global Instance result_ret : MRet result := λ A a, Ok a.

Definition raises {A} (c : exn_class) (r : result A) : Prop :=
  ∃ msg, r = Raise (Exn c msg).

(** A list comprehension [[f x for x in l]]: elements are evaluated left
    to right and the first exception aborts the comprehension. *)
Fixpoint comprehension {A B} (f : A → result B) (l : list A) : result (list B) :=
  match l with
  | [] => Ok []
  | x :: l' =>
      y ← f x; ys ← comprehension f l'; Ok (y :: ys)
  end.

(** [max(l)] on a list of ints. *)
Definition py_max (l : list Z) : result Z :=
  match l with
  | [] => Raise (Exn ValueError "max() arg is an empty sequence")
  | x :: l' => Ok (foldl Z.max x l')
  end.

(** *** Floats and the division of ints

    A finite float is [f_mant * 2 ^ f_exp], with a mantissa of at most 53
    bits and an exponent of at least [-1074]. *)
Record float := Float { f_mant : Z; f_exp : Z }.

(** The number a float stands for. *)
Definition float_value (x : float) : Qc :=
  if 0 <=? f_exp x then Qc_of_Z (f_mant x * 2 ^ f_exp x)
  else (Qc_of_Z (f_mant x) / Qc_of_Z (2 ^ (- f_exp x)))%Qc.

(** [int(x)]: truncation towards zero. *)
Definition float_int (x : float) : Z :=
  if 0 <=? f_exp x then f_mant x * 2 ^ f_exp x
  else f_mant x `quot` 2 ^ (- f_exp x).

(** [n / d] rounded to the nearest integer, ties to the even one. *)
Definition round_half_even (n d : Z) : Z :=
  let q := n `div` d in
  let r := n `mod` d in
  if 2 * r <? d then q
  else if d <? 2 * r then q + 1
  else if Z.even q then q else q + 1.

(** [a / (b * 2 ^ e)] as a fraction of integers. *)
Definition scaled (a b e : Z) : Z * Z :=
  (a * 2 ^ Z.max 0 (- e), b * 2 ^ Z.max 0 e).

(** The exponent at which the quotient of [a] by [b] has 53 bits. *)
Definition normal_exponent (a b : Z) : Z :=
  let e0 := Z.log2 a - Z.log2 b - 53 in
  let '(n, d) := scaled a b e0 in
  if n `div` d <? 2 ^ 53 then e0 else e0 + 1.

(** The float nearest to [a / b] for positive [a] and [b]; below
    [2 ^ -1022] the exponent stays at [-1074] and the mantissa is
    shorter. *)
Definition true_div_pos (a b : Z) : float :=
  let e := Z.max (normal_exponent a b) (- 1074) in
  let '(n, d) := scaled a b e in
  Float (round_half_even n d) e.

(** [a / b] on ints: the quotient is rounded once, to the nearest
    float. *)
Definition true_div (a b : Z) : result float :=
  if b =? 0 then Raise (Exn ZeroDivisionError "division by zero")
  else if a =? 0 then Ok (Float 0 0)
  else
    let x := true_div_pos (Z.abs a) (Z.abs b) in
    if 1024 <=? Z.log2 (f_mant x) + f_exp x then
      Raise (Exn OverflowError "integer division result too large for a float")
    else Ok (Float (Z.sgn a * Z.sgn b * f_mant x) (f_exp x)).

(** How a block of statements ends: it falls through, executes [return],
    or raises. *)
Inductive completion (R : Type) :=
| Normal
| Returned (v : R)
| Raised (e : exn).
Arguments Normal {R}.
Arguments Returned {R} v.
Arguments Raised {R} e.

Definition block (S R : Type) : Type := S → completion R * S.

Definition seq {S R} (b1 b2 : block S R) : block S R :=
  λ s, match b1 s with
       | (Normal, s1) => b2 s1
       | r => r
       end.

Notation "b1 ;;; b2" := (seq b1 b2) (at level 62, right associativity).

(** [try: body  except C: handler] *)
Definition try_except {S R} (body : block S R) (c : exn_class)
    (handler : exn → block S R) : block S R :=
  λ s, match body s with
       | (Raised e, s1) => if is_class c e then handler e s1 else (Raised e, s1)
       | r => r
       end.

(** [try: body  finally: fin].  The [finally] block always runs; when it
    ends with [return] or raises, that replaces whatever the body did. *)
Definition try_finally {S R} (body fin : block S R) : block S R :=
  λ s, let '(c, s1) := body s in
       match fin s1 with
       | (Normal, s2) => (c, s2)
       | r => r
       end.

(** A statement that evaluates [r] and continues with its value. *)
Definition eval {S R A} (r : result A) (k : A → block S R) : block S R :=
  λ s, match r with
       | Ok a => k a s
       | Raise e => (Raised e, s)
       end.

(** What a call returns to its caller: falling off the end returns
    [none] (Python's [None]). *)
Definition call {R} (none : R) (c : completion R) : result R :=
  match c with
  | Normal => Ok none
  | Returned v => Ok v
  | Raised e => Raise e
  end.

(** [l[-1:]] *)
Definition last_slice {A} (l : list A) : list A :=
  match last l with
  | Some x => [x]
  | None => []
  end.

(** A block [respects] a relation on states when every run of it, however
    it ends, takes a state to a related one. *)
Definition respects {S R} (rel : S → S → Prop) (b : block S R) : Prop :=
  ∀ s c s', b s = (c, s') → rel s s'.

End Py.
Import Py.

(** ** src/models/agents.py *)

Module Agents.

(** *** AgentMeta *)

Section AgentMeta.
(** The values of a class body (functions, properties, ...) play no role. *)
Variable member : Type.

Record class := Class {
  cls_name : string;
  cls_bases : list string;
  cls_body : gmap string member
}.

Definition agent_methods : list string := ["evaluate"; "fit"; "load"; "predict"].

(** The [for am in agent_methods] loop of [AgentMeta.__new__]. *)
Fixpoint check_methods (ams : list string) (body : gmap string member) : result unit :=
  match ams with
  | [] => Ok tt
  | am :: ams' =>
      match body !! am with
      | None => Raise (Exn TypeError ("Agent must implement " +:+ am))
      | Some _ => check_methods ams' body
      end
  end.

(** [type.__new__(meta, name, base, body)], the interpreter's own: it
    builds the class, or raises when it refuses the bases or the body
    ([TypeError] for a base that cannot be subclassed or for bases that
    cannot be combined, [ValueError] for conflicting [__slots__], ...). *)
Variable type_new : string → list string → gmap string member → result class.

(** [AgentMeta.__new__(meta, name, base, body)]; [super().__new__] is
    [type.__new__]. *)
Definition AgentMeta__new__ (name : string) (base : list string)
    (body : gmap string member) : result class :=
  _ ← check_methods agent_methods body ;
  type_new name base body.
End AgentMeta.
Arguments Class {member}.
Arguments cls_name {member}.
Arguments cls_bases {member}.
Arguments cls_body {member}.
Arguments check_methods {member}.
Arguments AgentMeta__new__ {member}.

(** *** get_xshape, get_tshape *)

(** A shape entry: [None] is Python's [None] (size not fixed). *)
Definition shape := list (option Z).

(** [cnf_dict[lbl]['size']] *)
Definition cnf_size (cnf_dict : gmap string (gmap string Z)) (lbl : string) : result Z :=
  match cnf_dict !! lbl with
  | None => Raise (Exn KeyError lbl)
  | Some d =>
      match d !! "size" with
      | None => Raise (Exn KeyError "size")
      | Some sz => Ok sz
      end
  end.

Definition get_xshape (input_labels : list string)
    (cnf_dict : gmap string (gmap string Z)) : result shape :=
  sizes ← comprehension (cnf_size cnf_dict) input_labels ;
  Ok ([None; None] ++ [Some (foldl Z.add 0 sizes)]).

Definition get_tshape (output_labels : list string)
    (cnf_dict : gmap string (gmap string Z)) : result shape :=
  let base_shape : shape := [None; None] in
  let k := Z.of_nat (length output_labels) in
  if k =? 1 then
    match output_labels !! 0%nat with
    | None => Raise (Exn IndexError "list index out of range")
    | Some lbl =>
        m ← cnf_size cnf_dict lbl ;
        Ok (base_shape ++ [Some m])
    end
  else if k =? 2 then
    sizes ← comprehension (cnf_size cnf_dict) output_labels ;
    m ← py_max sizes ;
    Ok (base_shape ++ [Some m; Some k])
  else
    Raise (Exn ValueError ("len(target_labels) <= 2 got " +:+ pretty k)).

(** *** SRLAgent *)

(** Scores (F1, loss, error) are finite floats; they are embedded as
    rationals, which keeps their order and their zero test. *)
Definition score := Qc.

Definition truthy (f : score) : bool := bool_decide (f ≠ 0%Qc).

(** Arrays handed to the agent: nested sequences of ints. *)
Inductive ndarray :=
| Scalar (z : Z)
| Seq (items : list ndarray).

(** [Y[-1]] *)
Definition last_item (Y : ndarray) : result ndarray :=
  match Y with
  | Scalar _ => Raise (Exn IndexError "invalid index to scalar variable.")
  | Seq items =>
      match last items with
      | Some y => Ok y
      | None => Raise (Exn IndexError "index -1 is out of bounds for axis 0 with size 0")
      end
  end.

(** [models.conll_evaluator.ConllEvaluator] is not part of the sources;
    the agent only calls it.  [evaluate_npyarray filename I Y L
    target_labels script_version] stands for
    [evaluate_npyarray(filename, I, Y, L, target_labels, {},
    script_version=...)]: it runs the external CoNLL script and gives its
    F1, or raises. *)
Record ConllEvaluator := {
  evaluate_npyarray :
    string → ndarray → ndarray → ndarray → list string → string → result score
}.

Inductive labeler :=
| Labeler (targets_size : list Z)
| DualLabeler (targets_size : list Z) (recon_depth : Z).

(** The attributes of an agent that the modelled methods read.
    [evaluator] and [rnn] are [None] while the attribute is not set. *)
Record SRLAgent := {
  target_dir : string;
  _restore_session : bool;
  input_labels : list string;
  target_labels : list string;
  evaluator : option ConllEvaluator;
  rnn : option labeler
}.

Definition single_task (self : SRLAgent) : bool :=
  Z.of_nat (length (target_labels self)) =? 1.

Definition dual_task (self : SRLAgent) : bool :=
  Z.of_nat (length (target_labels self)) =? 2.

(** [SRLAgent.__init__] from [cnf_dict = config.get_config(...)] on
    (lines 204-255): the shapes, then the labeler.  What precedes only
    stores arguments and builds objects of modules outside the sources;
    [evaluator0] is the [ConllEvaluator] built there. *)
Definition SRLAgent__init__ (target_dir0 : string) (restore : bool)
    (input_labels0 target_labels0 : list string)
    (evaluator0 : ConllEvaluator) (recon_depth : Z)
    (cnf_dict : gmap string (gmap string Z)) : result SRLAgent :=
  let self := {| target_dir := target_dir0; _restore_session := restore;
                 input_labels := input_labels0; target_labels := target_labels0;
                 evaluator := Some evaluator0; rnn := None |} in
  X_shape ← get_xshape input_labels0 cnf_dict ;
  T_shape ← get_tshape target_labels0 cnf_dict ;
  targets_size ← comprehension (cnf_size cnf_dict) target_labels0 ;
  let rnn1 := if single_task self then Some (Labeler targets_size) else rnn self in
  let rnn2 := if dual_task self then Some (DualLabeler targets_size recon_depth) else rnn1 in
  Ok {| target_dir := target_dir0; _restore_session := restore;
        input_labels := input_labels0; target_labels := target_labels0;
        evaluator := Some evaluator0; rnn := rnn2 |}.

(** *** SRLAgent.evaluate *)

Record evaluate_locals := {
  ev_f1 : option score;   (* [f1]; [None] is Python's [None] *)
  ev_Y : ndarray          (* [Y], rebound in the dual task *)
}.

Definition newline : string := String "010"%char "".

Definition evaluate_try (self : SRLAgent) (I L : ndarray) (filename : string)
    : block evaluate_locals (option score) :=
  (λ s, eval (if dual_task self then last_item (ev_Y s) else Ok (ev_Y s))
     (λ Y' _, (Normal, {| ev_f1 := ev_f1 s; ev_Y := Y' |})) s) ;;;
  (λ s, match evaluator self with
        | None =>
            (Raised (Exn AttributeError
                       "'SRLAgent' object has no attribute 'evaluator'"), s)
        | Some ev =>
            eval (evaluate_npyarray ev filename I (ev_Y s) L
                    (last_slice (target_labels self)) "04")
              (λ v _, (Normal, {| ev_f1 := Some v; ev_Y := ev_Y s |})) s
        end).

Definition evaluate_except (self : SRLAgent) (e : exn)
    : block evaluate_locals (option score) :=
  λ s, let err := "evaluator not defined -- either re start a new instance"
                  +:+ newline +:+ "                     or load from "
                  +:+ target_dir self in
       (Raised (Exn AttributeError err), s).

Definition evaluate_finally : block evaluate_locals (option score) :=
  λ s, (Returned (ev_f1 s), s).

Definition evaluate (self : SRLAgent) (I Y L : ndarray) (filename : string)
    : result (option score) :=
  call None
    (try_finally
       (try_except (evaluate_try self I L filename) AttributeError
          (evaluate_except self))
       evaluate_finally
       {| ev_f1 := None; ev_Y := Y |}).1.

(** *** SRLAgent.fit *)

(** What [fit] does to the session, the saver and the coordinator, in
    order.  [Validated f] records that
    [next(self._evaluate_dataset(self.session))] produced [f]. *)
Inductive effect :=
| RunInit
| StartQueueRunners
| Restore (path : string)
| Validated (f1_valid : score)
| Save (path : string)
| RequestStop
| Join.

(** The answers of the session and of the evaluator during one turn of
    the training loop; a turn uses only those it asks for. *)
Record iteration := {
  should_stop : bool;           (* [coord.should_stop()] at the loop head *)
  stream : result Z;            (* [session.run(self.trainer.stream)]: [X_batch.shape[0]] *)
  run_ops : result (score * score);
                                (* [session.run([cost, label, predict, error])]: loss, error *)
  decoder_fn : result unit;     (* [self.evaluator.decoder_fn(...)] *)
  f1_train_eval : result score; (* [self.evaluate_propositions(train_dict, 'train')] *)
  f1_valid_eval : result score  (* [next(self._evaluate_dataset(self.session))] *)
}.

Record fit_env := {
  restored_f1 : result score;   (* [saver.restore], [evaluate_fromconllfile], [evaluator.f1] *)
  train_bounds : Z * Z;         (* [get_db_bounds('train', lang)] = (lb, ub) *)
  iterations : list iteration   (* after the last one the input queue is exhausted *)
}.

(** The training control variables and the effects so far. *)
Record fit_state := {
  step : Z;
  total_loss : score;
  total_error : score;
  chunk_size : Z;
  eps : score;
  epochs : Z;
  best_validation_rate : score;
  f1_train : option score;      (* [None] while the name is unbound *)
  trace : list effect
}.

Definition set_step (v : Z) (s : fit_state) : fit_state :=
  {| step := v; total_loss := total_loss s; total_error := total_error s;
     chunk_size := chunk_size s; eps := eps s; epochs := epochs s;
     best_validation_rate := best_validation_rate s; f1_train := f1_train s;
     trace := trace s |}.
Definition set_totals (l e : score) (s : fit_state) : fit_state :=
  {| step := step s; total_loss := l; total_error := e;
     chunk_size := chunk_size s; eps := eps s; epochs := epochs s;
     best_validation_rate := best_validation_rate s; f1_train := f1_train s;
     trace := trace s |}.
Definition set_chunk_size (v : Z) (s : fit_state) : fit_state :=
  {| step := step s; total_loss := total_loss s; total_error := total_error s;
     chunk_size := v; eps := eps s; epochs := epochs s;
     best_validation_rate := best_validation_rate s; f1_train := f1_train s;
     trace := trace s |}.
Definition set_eps (v : score) (s : fit_state) : fit_state :=
  {| step := step s; total_loss := total_loss s; total_error := total_error s;
     chunk_size := chunk_size s; eps := v; epochs := epochs s;
     best_validation_rate := best_validation_rate s; f1_train := f1_train s;
     trace := trace s |}.
Definition set_epochs (v : Z) (s : fit_state) : fit_state :=
  {| step := step s; total_loss := total_loss s; total_error := total_error s;
     chunk_size := chunk_size s; eps := eps s; epochs := v;
     best_validation_rate := best_validation_rate s; f1_train := f1_train s;
     trace := trace s |}.
Definition set_best_validation_rate (v : score) (s : fit_state) : fit_state :=
  {| step := step s; total_loss := total_loss s; total_error := total_error s;
     chunk_size := chunk_size s; eps := eps s; epochs := epochs s;
     best_validation_rate := v; f1_train := f1_train s;
     trace := trace s |}.
Definition set_f1_train (v : option score) (s : fit_state) : fit_state :=
  {| step := step s; total_loss := total_loss s; total_error := total_error s;
     chunk_size := chunk_size s; eps := eps s; epochs := epochs s;
     best_validation_rate := best_validation_rate s; f1_train := v;
     trace := trace s |}.
Definition log (e : effect) (s : fit_state) : fit_state :=
  {| step := step s; total_loss := total_loss s; total_error := total_error s;
     chunk_size := chunk_size s; eps := eps s; epochs := epochs s;
     best_validation_rate := best_validation_rate s; f1_train := f1_train s;
     trace := trace s ++ [e] |}.

(** An assignment or an effect: a statement that cannot raise. *)
Definition exec (f : fit_state → fit_state) : block fit_state unit :=
  λ s, (Normal, f s).

(** ['{:}model.ckpt'.format(self.target_dir)] *)
Definition session_path (self : SRLAgent) : string :=
  target_dir self +:+ "model.ckpt".

(** [int(a / b)]: the division gives a float, which [int] truncates
    towards zero. *)
Definition int_div (a b : Z) : result Z :=
  x ← true_div a b ;
  Ok (float_int x).

(** Lines 547-550:
    [if f1_valid and best_validation_rate < f1_valid: ...] *)
Definition checkpoint (self : SRLAgent) (f1_valid : score) : block fit_state unit :=
  λ s, if truthy f1_valid && bool_decide (best_validation_rate s < f1_valid)%Qc
       then (exec (set_best_validation_rate f1_valid) ;;;
             exec (log (Save (session_path self)))) s
       else (Normal, s).

(** Lines 552-556: the arguments of [print] are evaluated in order;
    [(end_epoch - start) / epochs] divides by [epochs] and [f1_train] is
    bound only after a tenth step. *)
Definition print_epoch : block fit_state unit :=
  λ s, if epochs s =? 0 then
         (Raised (Exn ZeroDivisionError "float division by zero"), s)
       else match f1_train s with
            | None =>
                (Raised (Exn UnboundLocalError
                   "local variable 'f1_train' referenced before assignment"), s)
            | Some _ => (Normal, s)
            end.

(** Lines 542-556. *)
Definition fit_epoch (self : SRLAgent) (bounds : Z * Z) (it : iteration)
    : block fit_state unit :=
  let '(lb, ub) := bounds in
  λ s, eval (int_div (chunk_size s) (ub - lb)) (λ q,
         if epochs s <? q then
           exec (set_epochs q) ;;;
           eval (f1_valid_eval it) (λ f1_valid,
             exec (log (Validated f1_valid)) ;;;
             checkpoint self f1_valid ;;;
             print_epoch)
         else exec id) s.

(** Lines 525-540. *)
Definition fit_display (it : iteration) : block fit_state unit :=
  λ s, if step s `mod` 10 =? 0 then
         eval (f1_train_eval it) (λ f,
           exec (set_f1_train (Some f)) ;;;
           exec (λ s, set_eps (total_error s / Qc_of_Z 25)%Qc s) ;;;
           exec (set_totals 0%Qc 0%Qc)) s
       else (Normal, s).

(** The body of the [while] loop, lines 505-558. *)
Definition fit_iteration (self : SRLAgent) (bounds : Z * Z) (it : iteration)
    : block fit_state unit :=
  eval (stream it) (λ rows, exec (λ s, set_chunk_size (chunk_size s + rows) s)) ;;;
  eval (run_ops it) (λ '(loss, error),
    eval (decoder_fn it) (λ _,
      exec (λ s, set_totals (total_loss s + loss)%Qc (total_error s + error)%Qc s))) ;;;
  fit_display it ;;;
  fit_epoch self bounds it ;;;
  exec (λ s, set_step (step s + 1) s).

Definition converged (s : fit_state) : bool :=
  bool_decide (eps s < Q2Qc (1 # 1000))%Qc.

(** [while not (coord.should_stop() or eps < 1e-3): ...].  One
    [iteration] is consumed per turn; when none is left the queue is
    exhausted and fetching the next batch raises [OutOfRangeError]. *)
Fixpoint fit_loop (self : SRLAgent) (bounds : Z * Z) (its : list iteration)
    : block fit_state unit :=
  λ s, match its with
       | [] =>
           if converged s then (Normal, s)
           else (Raised (Exn OutOfRangeError "FIFOQueue is closed and has insufficient elements"), s)
       | it :: its' =>
           if should_stop it || converged s then (Normal, s)
           else (fit_iteration self bounds it ;;; fit_loop self bounds its') s
       end.

(** The [try] statement of lines 501-566. *)
Definition fit_try (self : SRLAgent) (bounds : Z * Z) (its : list iteration)
    : block fit_state unit :=
  try_finally
    (try_except (fit_loop self bounds its) OutOfRangeError (λ _, exec id))
    (exec (log RequestStop) ;;; exec (log Join)).

(** The control variables at line 500. *)
Definition fit_init (best : score) (tr : list effect) : fit_state :=
  {| step := 1; total_loss := 0%Qc; total_error := 0%Qc; chunk_size := 0;
     eps := Qc_of_Z 100; epochs := 0; best_validation_rate := best;
     f1_train := None; trace := tr |}.

(** Lines 477-500: the session is initialised, the queue runners are
    started and, for a restored session, the saved model and its F1 are
    read back.  When that fails nothing has been assigned yet and the
    control variables returned are the initial ones. *)
Definition fit_enter (self : SRLAgent) (restored : result score)
    : completion unit * fit_state :=
  let tr := [RunInit; StartQueueRunners] in
  if _restore_session self then
    let tr := tr ++ [Restore (session_path self)] in
    match restored with
    | Ok f1 => (Normal, fit_init f1 tr)
    | Raise e => (Raised e, fit_init (- 1)%Qc tr)
    end
  else (Normal, fit_init (- 1)%Qc tr).

(** [SRLAgent.fit], lines 472-566.  The result pairs how the call ends
    with the last state of the control variables. *)
Definition fit (self : SRLAgent) (env : fit_env) : completion unit * fit_state :=
  match fit_enter self (restored_f1 env) with
  | (Normal, s) => fit_try self (train_bounds env) (iterations env) s
  | r => r
  end.

(** *** The checkpoint rule, as an observer of the trace

    The observer keeps the best validation rate seen so far and whether
    a save is due.  A validation whose F1 is truthy and above the best
    makes that F1 the best and a save due; a save must follow at once, at
    [path], and no save may occur otherwise. *)
Definition improves (best f1_valid : score) : bool :=
  truthy f1_valid && bool_decide (best < f1_valid)%Qc.

Definition observe (path : string) (st : option (score * bool)) (e : effect)
    : option (score * bool) :=
  match st with
  | None => None
  | Some (best, due) =>
      match e with
      | Save p =>
          if due && bool_decide (p = path) then Some (best, false) else None
      | Validated f1_valid =>
          if due then None
          else if improves best f1_valid then Some (f1_valid, true)
          else Some (best, false)
      | _ => if due then None else Some (best, false)
      end
  end.

Definition audit (path : string) (best : score) (tr : list effect)
    : option (score * bool) :=
  foldl (observe path) (Some (best, false)) tr.

(** A state is [tracked] when the observer accepts its trace and agrees
    with [best_validation_rate]; a block [keeps_track] when it takes
    tracked states to tracked states and never lowers the rate. *)
Definition tracked (path : string) (best0 : score) (s : fit_state) : Prop :=
  audit path best0 (trace s) = Some (best_validation_rate s, false).

Definition advances (path : string) (best0 : score) (s s' : fit_state) : Prop :=
  (tracked path best0 s → tracked path best0 s')
  ∧ (best_validation_rate s ≤ best_validation_rate s')%Qc.

Definition keeps_track (path : string) (best0 : score)
    (b : block fit_state unit) : Prop :=
  ∀ s c s', b s = (c, s') → advances path best0 s s'.

(** The best validation rate before the first turn of the loop. *)
Definition initial_best (self : SRLAgent) (restored : result score) : score :=
  if _restore_session self then
    match restored with
    | Ok f => f
    | Raise _ => (- 1)%Qc
    end
  else (- 1)%Qc.

(** *** SRLAgent._ctx_p *)

Definition _ctx_p (input_labels : list string) : Z :=
  let ctx_p := 1 in
  if bool_decide ("FORM_CTX_P-2" ∈ input_labels)
     && bool_decide ("FORM_CTX_P+2" ∈ input_labels) then
    let ctx_p := ctx_p + 1 in
    if bool_decide ("FORM_CTX_P-3" ∈ input_labels)
       && bool_decide ("FORM_CTX_P+3" ∈ input_labels) then
      ctx_p + 1
    else ctx_p
  else ctx_p.

(** *** SRLAgent._evaluate_dataset

    A generator: calling it runs nothing of its body.  The first [next]
    runs lines 402-422 and enters the [try] statement; at the [yield]
    the generator is suspended inside the [try], where a later [next]
    resumes it. *)

(** The answers of TensorFlow, of the agent and of [utils.info] outside
    the loop. *)
Record generator_env := {
  ge_coordinator : result unit;    (* [tf.train.Coordinator()] *)
  ge_queue_runners : result unit;  (* [tf.train.start_queue_runners(coord=coord)] *)
  ge_validator : result unit;      (* [self.validator] *)
  ge_db_bounds : result (Z * Z);   (* [lb, ub = get_db_bounds(ds_type, lang=self.lang)] *)
  ge_request_stop : result unit;   (* [coord.request_stop()] *)
  ge_join : result unit            (* [coord.join(threads)] *)
}.

(** The answers of the coordinator, of the session and of the evaluator
    during one turn of the validation loop. *)
Record validation := {
  v_should_stop : result bool;  (* [coord.should_stop()] at the loop head *)
  v_stream : result Z;          (* [session.run(streamer.stream)]: [X.shape[0]] *)
  v_predict : result unit;      (* [session.run(self.rnn.predict, ...)] *)
  v_decoder_fn : result unit;   (* [self.evaluator.decoder_fn(...)] *)
  v_f1 : result score           (* [self.evaluate_propositions(db_dict, ds_type)] *)
}.

(** The local variables of the generator and the effects so far. *)
Record generator_state := {
  g_props : Z;
  g_epochs : score;             (* the int [0] at first, then the float [props / (ub - lb)] *)
  g_best_rate : score;
  g_trace : list effect
}.

Definition g_log (e : effect) (s : generator_state) : generator_state :=
  {| g_props := g_props s; g_epochs := g_epochs s;
     g_best_rate := g_best_rate s; g_trace := g_trace s ++ [e] |}.

(** How a turn of the loop, or a run of the generator, ends: at a
    [yield], or like any block. *)
Inductive suspension :=
| Yielded (f1 : score)
| Finished (c : completion score).

(** Lines 426-441, one turn of the [while] loop. *)
Definition validation_turn (bounds : Z * Z) (v : validation)
    : generator_state → suspension * generator_state :=
  let '(lb, ub) := bounds in
  λ s,
    match v_stream v with
    | Raise e => (Finished (Raised e), s)
    | Ok rows =>
        match v_predict v with
        | Raise e => (Finished (Raised e), s)
        | Ok _ =>
            match v_decoder_fn v with
            | Raise e => (Finished (Raised e), s)
            | Ok _ =>
                let s1 := {| g_props := g_props s + rows; g_epochs := g_epochs s;
                             g_best_rate := g_best_rate s; g_trace := g_trace s |} in
                match int_div (g_props s1) (ub - lb) with
                | Raise e => (Finished (Raised e), s1)
                | Ok q =>
                    if bool_decide (g_epochs s1 < Qc_of_Z q)%Qc then
                      match true_div (g_props s1) (ub - lb) with
                      | Raise e => (Finished (Raised e), s1)
                      | Ok x =>
                          let s2 := {| g_props := g_props s1;
                                       g_epochs := float_value x;
                                       g_best_rate := g_best_rate s1;
                                       g_trace := g_trace s1 |} in
                          match v_f1 v with
                          | Raise e => (Finished (Raised e), s2)
                          | Ok f1 =>
                              let best :=
                                if bool_decide (g_best_rate s2 < f1)%Qc then f1
                                else g_best_rate s2 in
                              (Yielded f1,
                               {| g_props := g_props s2; g_epochs := g_epochs s2;
                                  g_best_rate := best;
                                  g_trace := g_trace s2 ++ [Validated f1] |})
                          end
                      end
                    else (Finished Normal, s1)
                end
            end
        end
    end.

(** [while not coord.should_stop(): ...] up to the next [yield]; the
    turns left over are returned with a [yield].  When no turn is left
    the queue is exhausted. *)
Fixpoint validation_loop (bounds : Z * Z) (vs : list validation) (s : generator_state)
    : suspension * generator_state * list validation :=
  match vs with
  | [] => (Finished (Raised (Exn OutOfRangeError
                               "FIFOQueue is closed and has insufficient elements")),
           s, [])
  | v :: vs' =>
      match v_should_stop v with
      | Raise e => (Finished (Raised e), s, vs')
      | Ok true => (Finished Normal, s, vs')
      | Ok false =>
          match validation_turn bounds v s with
          | (Yielded f1, s1) => (Yielded f1, s1, vs')
          | (Finished Normal, s1) => validation_loop bounds vs' s1
          | (Finished c, s1) => (Finished c, s1, vs')
          end
      end
  end.

(** The [finally] clause, lines 446-451. *)
Definition validation_finally (env : generator_env) : block generator_state score :=
  eval (ge_request_stop env) (λ _ s, (Normal, g_log RequestStop s)) ;;;
  eval (ge_join env) (λ _ s, (Normal, g_log Join s)) ;;;
  (λ s, (Returned (g_best_rate s), s)).

(** The generator inside its [try] statement, in state [s]: the loop
    runs on; when it ends otherwise than at a [yield], the [except] and
    [finally] clauses of lines 443-451 apply. *)
Definition resume (env : generator_env) (bounds : Z * Z) (vs : list validation)
    (s : generator_state) : suspension * generator_state * list validation :=
  match validation_loop bounds vs s with
  | (Yielded f1, s1, rest) => (Yielded f1, s1, rest)
  | (Finished c, s1, rest) =>
      let '(c', s2) :=
        try_finally
          (try_except (λ s, (c, s)) OutOfRangeError (λ _ s, (Normal, s)))
          (validation_finally env) s1 in
      (Finished c', s2, rest)
  end.

(** Lines 402-417, which the first [next] runs before the [try]
    statement: they give the bounds [(lb, ub)], or raise. *)
Definition generator_prologue (env : generator_env) : result (Z * Z) :=
  _ ← ge_coordinator env ;
  _ ← ge_queue_runners env ;
  _ ← ge_validator env ;
  ge_db_bounds env.

(** The locals at line 422, where the [try] statement is entered. *)
Definition generator_start : generator_state :=
  {| g_props := 0; g_epochs := 0%Qc; g_best_rate := 0%Qc;
     g_trace := [StartQueueRunners] |}.

(** A generator object: not started yet, suspended at the [yield] of
    line 441 with its locals, or finished. *)
Inductive generator :=
| Created
| Suspended (bounds : Z * Z) (s : generator_state)
| Exhausted.

(** What [next(g)] does: it returns the value yielded; it raises
    [StopIteration], which carries the value the generator returned
    (none for a generator that had finished before); or it raises the
    exception that left the body of the generator. *)
Inductive next_result :=
| Value (f1 : score)
| Stop (value : option score)
| Throws (e : exn).

(** An exception that leaves the body of a generator.  From Python 3.7
    on, and before with [from __future__ import generator_stop]
    ([pep479]), a [StopIteration] raised inside the body reaches the
    caller as a [RuntimeError]. *)
Definition leaves (pep479 : bool) (e : exn) : exn :=
  if pep479 && is_class StopIteration e
  then Exn RuntimeError "generator raised StopIteration"
  else e.

Definition finish (pep479 : bool) (c : completion score) : next_result :=
  match c with
  | Normal => Stop None
  | Returned v => Stop (Some v)
  | Raised e => Throws (leaves pep479 e)
  end.

(** [next(g)], with the generator as it is afterwards and the turns left
    over. *)
Definition next (pep479 : bool) (env : generator_env) (g : generator)
    (vs : list validation) : next_result * generator * list validation :=
  let run bounds s :=
    match resume env bounds vs s with
    | (Yielded f1, s1, rest) => (Value f1, Suspended bounds s1, rest)
    | (Finished c, _, rest) => (finish pep479 c, Exhausted, rest)
    end in
  match g with
  | Created =>
      match generator_prologue env with
      | Ok bounds => run bounds generator_start
      | Raise e => (Throws (leaves pep479 e), Exhausted, vs)
      end
  | Suspended bounds s => run bounds s
  | Exhausted => (Stop None, Exhausted, vs)
  end.

(** [next(self._evaluate_dataset(self.session))], on a generator just
    created. *)
Definition _evaluate_dataset_next (pep479 : bool) (env : generator_env)
    (vs : list validation) : next_result :=
  (next pep479 env Created vs).1.1.

(** *** Counting in a trace *)

Definition is_save (e : effect) : bool :=
  match e with Save _ => true | _ => false end.

Definition is_validated (e : effect) : bool :=
  match e with Validated _ => true | _ => false end.

Definition count (p : effect → bool) (tr : list effect) : Z :=
  Z.of_nat (length (filter (λ e, p e) tr)).

End Agents.

(** ** src/models/dblstm.py *)

Module Dblstm.

(** *** The computation graph

    The methods of [DBLSTM] do not compute numbers: they build nodes of a
    TensorFlow graph.  A [tensor] is such a node, with the nodes it reads.
    TensorFlow is taken to accept the arguments it is given: what it
    would refuse when the graph is built (a number of units that is not
    positive, inputs whose last dimension is unknown, ...) is not
    modelled, so a method that completes here completes in Python when
    TensorFlow accepts its calls. *)

Inductive dtype := float32 | int32.

(** [tf.nn.rnn_cell.BasicLSTMCell(num_units, forget_bias, state_is_tuple)] *)
Record cell := BasicLSTMCell {
  num_units : Z;
  forget_bias : Qc;
  state_is_tuple : bool
}.

Inductive tensor :=
| Placeholder (name : string)
| RandomNormal (shape : list Z) (name : string)
| Variable_ (scope : string) (initial_value : tensor)
| ArgMax (input : tensor) (axis : Z)
| Cast (x : tensor) (dt : dtype)
  (* outputs of [tf.nn.dynamic_rnn] under [tf.variable_scope(scope)],
     [dtype=tf.float32, time_major=False] *)
| DynamicRnn (scope : string) (c : cell) (inputs sequence_length : tensor)
  (* [tf.reverse_sequence(input, seq_lengths, batch_axis=0, seq_axis=1)] *)
| ReverseSequence (input seq_lengths : tensor)
| Concat (a b : tensor) (axis : Z)
| MatMul (a b : tensor)
| Item (t : tensor) (i : Z)
  (* [tf.scan(lambda a, x: fn, elems, initializer)]; inside [fn],
     [ScanAcc] is [a] and [ScanElem] is [x] *)
| ScanAcc
| ScanElem
| Scan (fn elems initializer : tensor)
| Add (a b : tensor)
| Neg (x : tensor)
| Mul (a b : tensor)
| Div (a b : tensor)
| Abs (x : tensor)
| Sign (x : tensor)
| NotEqual (a b : tensor)
| ReduceMean (x : tensor)
| ReduceMax (x : tensor) (axis : Z)
| ReduceSum (x : tensor) (axis : Z)
  (* the two results of [tf.contrib.crf.crf_log_likelihood] *)
| CrfLogLikelihood (inputs tag_indices sequence_lengths : tensor)
| CrfTransitionParams (inputs tag_indices sequence_lengths : tensor)
  (* [tf.train.AdamOptimizer(learning_rate).minimize(loss)] under a scope *)
| AdamMinimize (scope : string) (learning_rate : Qc) (loss : tensor).

Definition get_unit (sz : Z) : cell :=
  BasicLSTMCell sz 1%Qc true.

(** *** Objects and [lazy_property] *)

Inductive attr :=
| Tensor (t : tensor)
| Cell (c : cell).

(** The attributes of a [DBLSTM] instance, by name. *)
Abbreviation object := (gmap string attr).

(** A method: it may set attributes of [self] and may raise. *)
Definition method (A : Type) : Type := object → result A * object.

Global Instance method_ret : MRet method := λ A a self, (Ok a, self).
Global Instance method_bind : MBind method := λ A B k m self,
  match m self with
  | (Ok a, self') => k a self'
  | (Raise e, self') => (Raise e, self')
  end.

Definition setattr (name : string) (v : attr) : method unit :=
  λ self, (Ok tt, <[name := v]> self).

Definition getattr (name : string) : method attr :=
  λ self, match self !! name with
          | Some v => (Ok v, self)
          | None => (Raise (Exn AttributeError
                       ("'DBLSTM' object has no attribute '" +:+ name +:+ "'")), self)
          end.

Definition hasattr (name : string) : method bool :=
  λ self, (Ok (bool_decide (is_Some (self !! name))), self).

Definition lift {A} (r : result A) : method A := λ self, (r, self).

(** An attribute used as a tensor. *)
Definition tensor_of (v : attr) : method tensor :=
  match v with
  | Tensor t => mret t
  | Cell _ => lift (Raise (Exn TypeError "expected a tensor"))
  end.

Definition gettensor (name : string) : method tensor :=
  v ← getattr name; tensor_of v.

(** [lazy_property(function)]; [name] is [function.__name__]. *)
Definition lazy_property (name : string) (function : method attr) : method attr :=
  let attribute := "_cache_" +:+ name in
  b ← hasattr attribute;
  (if negb b : bool then v ← function; setattr attribute v else mret tt);;
  getattr attribute.

(** [l[0]] and [l[-1]] *)
Definition first_item (l : list Z) : result Z :=
  match l with
  | x :: _ => Ok x
  | [] => Raise (Exn IndexError "list index out of range")
  end.
Definition last_item (l : list Z) : result Z :=
  match last l with
  | Some x => Ok x
  | None => Raise (Exn IndexError "list index out of range")
  end.

(** [enumerate(l)], counting from [i]. *)
Fixpoint enumerate_from {A} (i : Z) (l : list A) : list (Z * A) :=
  match l with
  | [] => []
  | x :: l' => (i, x) :: enumerate_from (i + 1) l'
  end.

(** [self'] differs from [self] at most in the attributes [cell_fw] and
    [cell_bw]. *)
Definition same_but_cells (self self' : object) : Prop :=
  ∀ name, name ≠ "cell_fw" → name ≠ "cell_bw" → self' !! name = self !! name.

Section DBLSTM.
(** The module globals and [id(self)]. *)
Variable HIDDEN_SIZE : list Z.
Variable TARGET_SIZE : Z.
Variable id_self : Z.

(** ['fw{:}'.format(n)] *)
Definition scope_fw (n : Z) : string := "fw" +:+ pretty n.
Definition scope_bw (n : Z) : string := "bw" +:+ pretty n.

(** The body of [for i, sz in enumerate(HIDDEN_SIZE[1:])], lines 89-116,
    on the loop variables [h] and [h_1]. *)
Definition layer (seqlens : tensor) (i_sz : Z * Z) (hs : tensor * tensor)
    : method (tensor * tensor) :=
  let '(i, sz) := i_sz in
  let '(h, h_1) := hs in
  let n := id_self + i + 1 in
  let inputs_fw := Concat h h_1 2 in
  setattr "cell_fw" (Cell (get_unit sz));;
  let outputs_fw := DynamicRnn (scope_fw n) (get_unit sz) inputs_fw seqlens in
  let inputs_bw := Concat outputs_fw h 2 in
  let inputs_bw := ReverseSequence inputs_bw seqlens in
  setattr "cell_bw" (Cell (get_unit sz));;
  let outputs_bw := DynamicRnn (scope_bw n) (get_unit sz) inputs_bw seqlens in
  let outputs_bw := ReverseSequence outputs_bw seqlens in
  mret (outputs_bw, outputs_fw).

Fixpoint layers (seqlens : tensor) (l : list (Z * Z)) (hs : tensor * tensor)
    : method (tensor * tensor) :=
  match l with
  | [] => mret hs
  | i_sz :: l' => hs' ← layer seqlens i_sz hs; layers seqlens l' hs'
  end.

(** The function decorated as [prediction], lines 58-131. *)
Definition prediction_function : method attr :=
  sz0 ← lift (first_item HIDDEN_SIZE);
  setattr "cell_fw" (Cell (get_unit sz0));;
  X ← gettensor "X";
  seqlens ← gettensor "seqlens";
  let outputs_fw := DynamicRnn (scope_fw id_self) (get_unit sz0) X seqlens in
  sz0 ← lift (first_item HIDDEN_SIZE);
  setattr "cell_bw" (Cell (get_unit sz0));;
  let inputs_bw := ReverseSequence outputs_fw seqlens in
  let outputs_bw := DynamicRnn (scope_bw id_self) (get_unit sz0) inputs_bw seqlens in
  let outputs_bw := ReverseSequence outputs_bw seqlens in
  let h := outputs_bw in
  let h_1 := outputs_fw in
  '(h, h_1) ← layers seqlens (enumerate_from 0 (drop 1 HIDDEN_SIZE)) (h, h_1);
  szn ← lift (last_item HIDDEN_SIZE);
  let Wo_shape := [2 * szn; TARGET_SIZE] in
  let bo_shape := [TARGET_SIZE] in
  let Wo := Variable_ "score" (RandomNormal Wo_shape "Wo") in
  let bo := Variable_ "score" (RandomNormal bo_shape "bo") in
  let outputs := Concat h h_1 2 in
  let score := Add (Scan (MatMul ScanElem Wo) outputs (MatMul (Item outputs 0) Wo)) bo in
  mret (Tensor score).

Definition prediction : method attr :=
  lazy_property "prediction" prediction_function.

(** The function decorated as [cost], lines 142-149. *)
Definition cost_function : method attr :=
  p ← prediction ≫= tensor_of;
  Tflat ← gettensor "Tflat";
  seqlens ← gettensor "seqlens";
  let log_likelihood := CrfLogLikelihood p Tflat seqlens in
  mret (Tensor (ReduceMean (Neg log_likelihood))).

Definition cost : method attr := lazy_property "cost" cost_function.

(** The function decorated as [optimize], lines 135-139. *)
Definition optimize_function : method attr :=
  c ← cost ≫= tensor_of;
  mret (Tensor (AdamMinimize "optimize" (Q2Qc (5 # 1000)) c)).

Definition optimize : method attr := lazy_property "optimize" optimize_function.

(** The function decorated as [error], lines 152-162. *)
Definition error_function : method attr :=
  p ← prediction ≫= tensor_of;
  T ← gettensor "T";
  let mistakes := NotEqual (ArgMax p 2) (ArgMax T 2) in
  let mistakes := Cast mistakes float32 in
  T ← gettensor "T";
  let mask := Sign (ReduceMax (Abs T) 2) in
  let mask := Cast mask float32 in
  let mistakes := Mul mistakes mask in
  let mistakes := ReduceSum mistakes 1 in
  seqlens ← gettensor "seqlens";
  let mistakes := Div mistakes (Cast seqlens float32) in
  mret (Tensor (ReduceMean mistakes)).

Definition error : method attr := lazy_property "error" error_function.

(** [DBLSTM.__init__(self, X, T, seqlens)] *)
Definition DBLSTM__init__ (X T seqlens : tensor) : method unit :=
  setattr "X" (Tensor X);;
  setattr "T" (Tensor T);;
  setattr "Tflat" (Tensor (Cast (ArgMax T 2) int32));;
  setattr "seqlens" (Tensor seqlens);;
  prediction;;
  optimize;;
  error;;
  mret tt.

(** *** The architecture in the words of its description

    Layer [0] runs a forward LSTM over [X] and a backward LSTM over the
    reversed forward outputs; layer [i+1] reads the outputs of layer
    [i].  Each layer is the pair (backward outputs, forward outputs). *)
Definition backward_lstm (n sz : Z) (inputs seqlens : tensor) : tensor :=
  ReverseSequence
    (DynamicRnn (scope_bw n) (get_unit sz) (ReverseSequence inputs seqlens) seqlens)
    seqlens.

Definition forward_lstm (n sz : Z) (inputs seqlens : tensor) : tensor :=
  DynamicRnn (scope_fw n) (get_unit sz) inputs seqlens.

Fixpoint bilstm_layer (X seqlens : tensor) (i : nat) : tensor * tensor :=
  let sz := HIDDEN_SIZE !!! i in
  let n := id_self + Z.of_nat i in
  match i with
  | O =>
      let fw := forward_lstm n sz X seqlens in
      (backward_lstm n sz fw seqlens, fw)
  | S j =>
      let '(bw', fw') := bilstm_layer X seqlens j in
      let fw := forward_lstm n sz (Concat bw' fw' 2) seqlens in
      (backward_lstm n sz (Concat fw bw' 2) seqlens, fw)
  end.

(** [x ↦ x · Wo + bo] applied to every element of the batch. *)
Definition affine (Wo bo outputs : tensor) : tensor :=
  Add (Scan (MatMul ScanElem Wo) outputs (MatMul (Item outputs 0) Wo)) bo.

Definition Wo : tensor :=
  Variable_ "score"
    (RandomNormal [2 * HIDDEN_SIZE !!! (length HIDDEN_SIZE - 1)%nat; TARGET_SIZE] "Wo").
Definition bo : tensor :=
  Variable_ "score" (RandomNormal [TARGET_SIZE] "bo").

Definition architecture (X seqlens : tensor) : tensor :=
  let '(bw, fw) := bilstm_layer X seqlens (length HIDDEN_SIZE - 1) in
  affine Wo bo (Concat bw fw 2).
End DBLSTM.

(** *** main: the session of lines 194-229 *)

(** What [main] does to the session and the coordinator and what it
    prints, in order. *)
Inductive event :=
| SessionInit           (* [session.run(init_op)] *)
| QueueRunners          (* [tf.train.start_queue_runners(coord=coord)] *)
| Printed (iter : Z) (avg_cost avg_error : Qc)
| DoneTraining          (* [print('Done training -- epoch limit reached')] *)
| StopRequested         (* [coord.request_stop()] *)
| Joined.               (* [coord.join(threads)] *)

(** The answers of the coordinator and of the session during one turn
    of the loop. *)
Record batch := {
  b_should_stop : bool;         (* [coord.should_stop()] at the loop head *)
  b_fetch : result unit;        (* [session.run([inputs, targets, ...])] *)
  b_train : result (Qc * Qc)    (* [session.run([optimize, cost, prediction, error])]:
                                   loss, error *)
}.

(** The training control variables and the events so far. *)
Record main_state := {
  m_step : Z;
  m_total_loss : Qc;
  m_total_error : Qc;
  m_trace : list event
}.

(** Lines 213-214. *)
Definition main_accumulate (loss error : Qc) : block main_state unit :=
  λ s, (Normal,
        {| m_step := m_step s; m_total_loss := (m_total_loss s + loss)%Qc;
           m_total_error := (m_total_error s + error)%Qc; m_trace := m_trace s |}).

(** Lines 215-220. *)
Definition main_display : block main_state unit :=
  λ s, if (m_step s + 1) `mod` 5 =? 0 then
         (Normal,
          {| m_step := m_step s; m_total_loss := 0%Qc; m_total_error := 0%Qc;
             m_trace := m_trace s
                        ++ [Printed (m_step s + 1)
                              (m_total_loss s / Qc_of_Z 5)%Qc
                              (m_total_error s / Qc_of_Z 5)%Qc] |})
       else (Normal, s).

(** Line 221. *)
Definition main_next_step : block main_state unit :=
  λ s, (Normal,
        {| m_step := m_step s + 1; m_total_loss := m_total_loss s;
           m_total_error := m_total_error s; m_trace := m_trace s |}).

(** The body of the [while] loop, lines 205-221. *)
Definition main_iteration (b : batch) : block main_state unit :=
  eval (b_fetch b) (λ _,
    eval (b_train b) (λ '(loss, error),
      main_accumulate loss error ;;; main_display ;;; main_next_step)).

(** [while not coord.should_stop(): ...].  One [batch] is consumed per
    turn; when none is left the queue is exhausted and fetching raises
    [OutOfRangeError]. *)
Fixpoint main_loop (bs : list batch) : block main_state unit :=
  λ s, match bs with
       | [] => (Raised (Exn OutOfRangeError
                          "FIFOQueue is closed and has insufficient elements"), s)
       | b :: bs' =>
           if b_should_stop b then (Normal, s)
           else (main_iteration b ;;; main_loop bs') s
       end.

Definition main_log (e : event) : block main_state unit :=
  λ s, (Normal,
        {| m_step := m_step s; m_total_loss := m_total_loss s;
           m_total_error := m_total_error s; m_trace := m_trace s ++ [e] |}).

(** Lines 195-201: the state in which the [try] statement is entered. *)
Definition main_start : main_state :=
  {| m_step := 0; m_total_loss := 0%Qc; m_total_error := 0%Qc;
     m_trace := [SessionInit; QueueRunners] |}.

(** The body of [with tf.Session() as session], lines 195-229. *)
Definition main_session (bs : list batch) : completion unit * main_state :=
  try_finally
    (try_except (main_loop bs) OutOfRangeError (λ _, main_log DoneTraining))
    (main_log StopRequested ;;; main_log Joined)
    main_start.

End Dblstm.

(** ** src/datasets/data_outputs.py *)

Module DataOutputs.

Definition chars (s : string) : list ascii := String.list_ascii_of_string s.
Definition text (l : list ascii) : string := String.string_of_list_ascii l.

Definition newline : string := String "010"%char "".

(** *** outputs_settings_persist *)

Definition SETTINGS : list string :=
  [ "INPUT_PATH"; "MODEL_NAME"; "LAYER_1_NAME"; "LAYER_2_NAME"; "LAYER_3_NAME";
    "DATASET_TRAIN_SIZE"; "DATASET_VALID_SIZE"; "DATASET_TEST_SIZE";
    "lr"; "reg"; "HIDDEN_SIZE"; "EMBEDDING_SIZE"; "FEATURE_SIZE"; "klass_size";
    "input_sequence_features"; "BATCH_SIZE"; "N_EPOCHS"; "DISPLAY_STEP" ].

(** A Python [dict] keeps its items in insertion order; its keys are
    distinct. *)
Abbreviation dict value := (list (string * value)).

Section Settings.
(** The values of the variables, and ['{}'.format(value)]. *)
Variable value : Type.
Variable format_value : value → string.

(** The operating system's verdict on [open(path, 'w+')]: [None] when
    the file can be opened. *)
Variable open_error : string → option exn.

(** [d[k] = v] *)
Fixpoint dict_set (k : string) (v : value) (d : dict value) : dict value :=
  match d with
  | [] => [(k, v)]
  | (k', v') :: d' =>
      if bool_decide (k' = k) then (k, v) :: d' else (k', v') :: dict_set k v d'
  end.

(** [{var_name: var_value for var_name, var_value in vars_dict.items()
      if var_name in to_persist}] *)
Definition settings_comprehension (vars_dict : dict value)
    (to_persist : list string) : dict value :=
  foldl (λ d '(var_name, var_value),
           if bool_decide (var_name ∈ to_persist)
           then dict_set var_name var_value d else d)
        [] vars_dict.

(** ['{}: {}\n'.format(var_name, var_value)] *)
Definition settings_line (item : string * value) : string :=
  item.1 +:+ ": " +:+ format_value item.2 +:+ newline.

(** The file contents by path. *)
Abbreviation files := (gmap string string).

(** [f.write(line)] on the file opened at [path]. *)
Definition write (path line : string) (fs : files) : files :=
  <[path := default "" (fs !! path) +:+ line]> fs.

(** The text of a file written line by line. *)
Definition file_text (lines : list string) : string :=
  foldr String.append "" lines.

Definition outputs_settings_persist (output_dir : string) (vars_dict : dict value)
    (to_persist : list string) (fs : files) : result (dict value) * files :=
  let settings_dict := settings_comprehension vars_dict to_persist in
  let path := output_dir +:+ "settings.txt" in
  match open_error path with
  | Some e => (Raise e, fs)
  | None =>
      (* mode 'w+' creates the file or truncates it *)
      let fs := <[path := ""]> fs in
      (Ok settings_dict, foldl (λ fs item, write path (settings_line item) fs) fs settings_dict)
  end.
End Settings.

(** *** The regular expressions of [re.sub]

    [_make_dir] passes a directory name to [re.sub] as a pattern.  The
    patterns covered here are sequences of literal characters and [.],
    each optionally followed by one [+]; [parse] gives [None] on any
    other pattern. *)

Inductive atom :=
| Lit (c : ascii)
| Dot.

Record item := Item { it_atom : atom; it_plus : bool }.

Definition is_in (cs : string) (c : ascii) : bool :=
  bool_decide (c ∈ chars cs).

(** Characters with a meaning of their own in a pattern, [.] and [+]
    apart. *)
Definition regex_other_special : ascii → bool := is_in "\^$|?*()[]{}".

Definition glob_magic : ascii → bool := is_in "*?[".

Definition atom_of (c : ascii) : option atom :=
  if bool_decide (c = "."%char) then Some Dot
  else if bool_decide (c = "+"%char) || regex_other_special c then None
  else Some (Lit c).

Fixpoint parse (p : list ascii) : option (list item) :=
  match p with
  | [] => Some []
  | c :: p' =>
      a ← atom_of c;
      match p' with
      | c' :: p'' =>
          if bool_decide (c' = "+"%char)
          then its ← parse p''; Some (Item a true :: its)
          else its ← parse p'; Some (Item a false :: its)
      | [] => Some [Item a false]
      end
  end.

Definition atom_matches (a : atom) (c : ascii) : bool :=
  match a with
  | Lit c' => bool_decide (c' = c)
  | Dot => negb (bool_decide (c = "010"%char))
  end.

(** The backtracking matcher: [match_here its s] is what follows the
    match of [its] at the start of [s]; [+] is greedy. *)
Fixpoint match_here (its : list item) : list ascii → option (list ascii) :=
  match its with
  | [] => λ s, Some s
  | it :: its' =>
      let k := match_here its' in
      if it_plus it then
        fix more (s : list ascii) : option (list ascii) :=
          match s with
          | c :: s' =>
              if atom_matches (it_atom it) c then
                match more s' with
                | Some r => Some r
                | None => k s'
                end
              else None
          | [] => None
          end
      else
        λ s, match s with
             | c :: s' => if atom_matches (it_atom it) c then k s' else None
             | [] => None
             end
  end.

(** [re.sub(pattern, '', s)]: every leftmost non-overlapping match is
    removed.  [fuel] bounds the number of positions tried. *)
Fixpoint sub_empty (fuel : nat) (its : list item) (s : list ascii) : list ascii :=
  match fuel, s with
  | S fuel', c :: s' =>
      match match_here its s with
      | Some r =>
          if bool_decide (length r < length s)%nat then sub_empty fuel' its r
          else c :: sub_empty fuel' its s'
      | None => c :: sub_empty fuel' its s'
      end
  | _, _ => s
  end.

Definition re_sub_empty (pattern s : string) : option string :=
  its ← parse (chars pattern);
  Some (text (sub_empty (length (chars s)) its (chars s))).

(** *** int() and '{:02d}' *)

Definition is_digit : ascii → bool := is_in "0123456789".

Definition digit_value (c : ascii) : Z :=
  Z.of_N (N_of_ascii c) - 48.

Definition is_space : ascii → bool :=
  λ c, bool_decide (c ∈ [" "; "009"; "010"; "011"; "012"; "013"]%char).

(** Characters on which [int] consults the Unicode tables (bytes above
    127 and the separators 28-31): outside this model. *)
Definition beyond_ascii (c : ascii) : bool :=
  let n := N_of_ascii c in
  bool_decide (128 ≤ n)%N || bool_decide (28 ≤ n ≤ 31)%N.

(** Digits with single underscores between them. *)
Fixpoint int_digits (acc : Z) (after_digit : bool) (s : list ascii) : option Z :=
  match s with
  | [] => if after_digit then Some acc else None
  | c :: s' =>
      if is_digit c then int_digits (10 * acc + digit_value c) true s'
      else if bool_decide (c = "_"%char) && after_digit then
        match s' with
        | d :: _ => if is_digit d then int_digits acc false s' else None
        | [] => None
        end
      else None
  end.

Definition int_signed (s : list ascii) : option Z :=
  match s with
  | c :: s' =>
      if bool_decide (c = "-"%char) then Z.opp <$> int_digits 0 false s'
      else if bool_decide (c = "+"%char) then int_digits 0 false s'
      else int_digits 0 false s
  | [] => None
  end.

Fixpoint lstrip (s : list ascii) : list ascii :=
  match s with
  | c :: s' => if is_space c then lstrip s' else s
  | [] => []
  end.

Definition strip (s : list ascii) : list ascii :=
  reverse (lstrip (reverse (lstrip s))).

(** [int(s)]; the outer [None] is for strings outside the model. *)
Definition py_int (s : string) : option (result Z) :=
  if existsb beyond_ascii (chars s) then None
  else Some match int_signed (strip (chars s)) with
            | Some n => Ok n
            | None => Raise (Exn ValueError
                               ("invalid literal for int() with base 10: '" +:+ s +:+ "'"))
            end.

(** ['{:02d}'.format(n)] *)
Definition format_02d (n : Z) : string :=
  if bool_decide (0 ≤ n < 10) then "0" +:+ pretty n else pretty n.

(** Names that [re.sub] and [glob] read as they are written ([.] stands
    for any character, itself included), and names that are decimal
    numbers. *)
Definition literal_path (p : string) : Prop :=
  Forall (λ c, is_Some (atom_of c)) (chars p).

Definition numeral (name : string) : Prop :=
  chars name ≠ [] ∧ Forall (λ c, is_digit c) (chars name).

(** *** _make_hparam_string *)

(** [str(l)] for a list of ints *)
Fixpoint str_items (l : list Z) : string :=
  match l with
  | [] => ""
  | [x] => pretty x
  | x :: l' => pretty x +:+ ", " +:+ str_items l'
  end.
Definition str_list (l : list Z) : string := "[" +:+ str_items l +:+ "]".

(** [re.sub(r'\[|\]', '', s)] *)
Definition sub_brackets (s : string) : string :=
  text (filter (λ c, ¬ (c = "["%char ∨ c = "]"%char)) (chars s)).

(** [re.sub(r', ', 'x', s)] *)
Fixpoint sub_comma_space (s : list ascii) : list ascii :=
  match s with
  | ","%char :: s' =>
      match s' with
      | " "%char :: s'' => "x"%char :: sub_comma_space s''
      | _ => ","%char :: sub_comma_space s'
      end
  | c :: s' => c :: sub_comma_space s'
  | [] => []
  end.

(** [lr_2e] is ['{:.2e}'.format(float(lr))], the learning rate with two
    decimals and a signed two-digit exponent, such as [5.00e-03]. *)
Definition _make_hparam_string (lr_2e : string) (hidden_sizes : list Z)
    (ctx_p : Z) (embeddings_id : string) : string :=
  let hs := text (sub_comma_space (chars (sub_brackets (str_list hidden_sizes)))) in
  let hparam_string := "lr" +:+ lr_2e +:+ "_hs" +:+ hs +:+ "_ctx-p" +:+ pretty ctx_p in
  if bool_decide (embeddings_id ≠ "") then hparam_string +:+ "_" +:+ embeddings_id
  else hparam_string.

(** *** _make_dir *)

(** The entries of the directory [prefix/hparam_string] (none when it
    does not exist): name, and whether the entry is a directory. *)
Abbreviation listing := (list (string * bool)).

(** [glob.glob(experiment_dir + '[0-9]*')]: the entries whose name starts
    with a digit, as paths.  [None] when [experiment_dir] itself has glob
    wildcards or ends in two slashes, which [glob] would not keep. *)
Definition starts_with_digit (name : string) : bool :=
  match chars name with
  | c :: _ => is_digit c
  | [] => false
  end.

Definition glob_digits (experiment_dir : string) (entries : listing) : option (list string) :=
  if existsb glob_magic (chars experiment_dir)
     || bool_decide (chars "//" `suffix_of` chars experiment_dir) then None
  else Some ((λ e, experiment_dir +:+ e.1) <$>
             filter (λ e, starts_with_digit e.1) entries).

(** [sorted(l)] on strings *)
Definition sorted (l : list string) : list string := merge_sort String.le l.

(** [if not os.path.exists(d): os.makedirs(d)] for [d] the entry [name]
    followed by a slash. *)
Definition ensure_dir (name : string) (entries : listing) : result unit * listing :=
  if bool_decide ((name, true) ∈ entries) then (Ok tt, entries)
  else if bool_decide ((name, false) ∈ entries) then
    (Raise (Exn FileExistsError name), entries)
  else (Ok tt, entries ++ [(name, true)]).

Definition _make_dir (prefix hparam_string : string) (entries : listing)
    : option (result string * listing) :=
  let experiment_dir := prefix +:+ "/" +:+ hparam_string +:+ "/" in
  globbed ← glob_digits experiment_dir entries;
  let experiment_ids := sorted globbed in
  number ←
    match last experiment_ids with
    | None => Some (Ok "00")
    | Some last_id =>
        stripped ← re_sub_empty experiment_dir last_id;
        n ← py_int stripped;
        Some (n ← n; Ok (format_02d (n + 1)))
    end;
  Some match number with
       | Raise e => (Raise e, entries)
       | Ok number =>
           match ensure_dir number entries with
           | (Ok _, entries') => (Ok (experiment_dir +:+ number +:+ "/"), entries')
           | (Raise e, entries') => (Raise e, entries')
           end
       end.

Definition dir_getoutputs (lr_2e : string) (hidden_sizes : list Z) (ctx_p : Z)
    (embeddings_id model_name : string) (entries : listing)
    : option (result string * listing) :=
  let prefix := "outputs/" +:+ model_name in
  let hparam_string := _make_hparam_string lr_2e hidden_sizes ctx_p embeddings_id in
  _make_dir prefix hparam_string entries.

End DataOutputs.

(** * Concrete inputs *)

Module Inputs.
Import Agents.

(** The names defined in the body of [class SRLAgent]. *)
Definition srl_agent_body : gmap string unit :=
  list_to_map ((λ n, (n, tt)) <$>
    ["__init__"; "load"; "single_task"; "dual_task"; "evaluate";
     "_evaluate_dataset"; "fit"; "predict"; "_predict_and_eval";
     "evaluate_propositions"; "_ctx_p"]).

(** A configuration with the sizes of two target labels. *)
Definition cnf_dict : gmap string (gmap string Z) :=
  {[ "IOB" := {[ "size" := 60 ]}; "T" := {[ "size" := 37 ]};
     "ID" := {[ "size" := 1 ]}; "FORM" := {[ "size" := 50 ]} ]}.

(** An evaluator whose script reports the F1 [f] whatever it is given,
    and agents with one and with two target labels. *)
Definition fixed_evaluator (f : score) : ConllEvaluator :=
  {| evaluate_npyarray := λ _ _ _ _ _ _, Ok f |}.

Definition agent_of (labels : list string) (ev : option ConllEvaluator) : SRLAgent :=
  {| target_dir := "outputs/00/"; _restore_session := false;
     input_labels := ["ID"; "FORM"]; target_labels := labels;
     evaluator := ev; rnn := None |}.

Definition Y_dual : ndarray :=
  Seq [Seq [Seq [Scalar 1; Scalar 2]]; Seq [Seq [Scalar 3; Scalar 4]]].

(** Turns of the training loop on batches of [rows] examples, with
    validation F1 [f]. *)
Definition turn (rows : Z) (f : score) : iteration :=
  {| should_stop := false; stream := Ok rows;
     run_ops := Ok (Q2Qc (3 # 2), Q2Qc (1 # 4));
     decoder_fn := Ok tt;
     f1_train_eval := Ok (Q2Qc (9 # 10));
     f1_valid_eval := Ok f |}.

Definition failing_turn : iteration :=
  {| should_stop := false; stream := Ok 250;
     run_ops := Raise (Exn (OtherError "InvalidArgumentError") "shape mismatch");
     decoder_fn := Ok tt;
     f1_train_eval := Ok (Q2Qc (9 # 10));
     f1_valid_eval := Ok (Q2Qc (1 # 2)) |}.

(** A turn whose batch has no error at all. *)
Definition exact_turn : iteration :=
  {| should_stop := false; stream := Ok 250;
     run_ops := Ok (Q2Qc (1 # 100), 0%Qc);
     decoder_fn := Ok tt;
     f1_train_eval := Ok 1%Qc;
     f1_valid_eval := Ok 1%Qc |}.

(** A run over a training set of 5000 propositions. *)
Definition run_env (its : list iteration) : fit_env :=
  {| restored_f1 := Ok (Q2Qc (1 # 2)); train_bounds := (0, 5000); iterations := its |}.

(** The globals of dblstm.py and an instance with its placeholders
    set. *)
Definition HIDDEN_SIZE_main : list Z := [32; 32; 32].
Definition TARGET_SIZE_main : Z := 60.

Definition self_main : gmap string Dblstm.attr :=
  <["seqlens" := Dblstm.Tensor (Dblstm.Placeholder "seqlens")]>
    (<["X" := Dblstm.Tensor (Dblstm.Placeholder "X")]> ∅).

(** Variables as [outputs_settings_persist] receives them, with integer
    values. *)
Definition vars_main : list (string * Z) :=
  [("lr", 5); ("tmp", 0); ("BATCH_SIZE", 250); ("N_EPOCHS", 100); ("i", 3)].

(** Turns of the validation loop on batches of [rows] propositions. *)
Definition validation_of (rows : Z) (f : score) : validation :=
  {| v_should_stop := Ok false; v_stream := Ok rows; v_predict := Ok tt;
     v_decoder_fn := Ok tt; v_f1 := Ok f |}.

(** TensorFlow and [utils.info] answering as on a sound installation,
    with a validation set of 500 propositions. *)
Definition sound_env : generator_env :=
  {| ge_coordinator := Ok tt; ge_queue_runners := Ok tt; ge_validator := Ok tt;
     ge_db_bounds := Ok (0, 500); ge_request_stop := Ok tt; ge_join := Ok tt |}.

(** [type.__new__] on the classes used below: CPython refuses [bool] as
    a base (it is a final type) and builds the other classes. *)
Definition type_new_cpython (name : string) (base : list string)
    (body : gmap string unit) : result (class unit) :=
  if bool_decide ("bool" ∈ base) then
    Raise (Exn TypeError "type 'bool' is not an acceptable base type")
  else Ok (Class name base body).

End Inputs.

(** * Properties *)

(** ** Exceptions and control flow *)

Module PyTheory.

Lemma raises_Ok {A} (c : exn_class) (a : A) : ¬ raises c (Ok a).
Proof. intros [msg H]. discriminate H. Qed.

Lemma raises_Raise {A} (c : exn_class) (e : exn) :
  raises (A := A) c (Raise e) ↔ exn_cls e = c.
Proof.
  split.
  - intros [msg H]. injection H as ->. reflexivity.
  - destruct e as [c' msg]. simpl. intros ->. by exists msg.
Qed.

Lemma raises_Raise_any {A B} (c : exn_class) (e : exn) :
  raises (A := A) c (Raise e) → raises (A := B) c (Raise e).
Proof. rewrite !raises_Raise. done. Qed.

Lemma comprehension_Ok_length {A B} (f : A → result B) l ys :
  comprehension f l = Ok ys → length ys = length l.
Proof.
  revert ys. induction l as [|x l IH]; intros ys; simpl.
  - by intros [= <-].
  - destruct (f x) as [y|e]; simpl; [|done].
    destruct (comprehension f l) as [ys'|e]; simpl; [|done].
    intros [= <-]. simpl. f_equal. by apply IH.
Qed.

Lemma comprehension_Raise {A B} (f : A → result B) l e :
  comprehension f l = Raise e → ∃ x, x ∈ l ∧ f x = Raise e.
Proof.
  induction l as [|x l IH]; simpl; [done|].
  destruct (f x) as [y|e'] eqn:Hx; simpl.
  - destruct (comprehension f l) as [ys'|e'']; simpl; [done|].
    intros [= ->]. destruct IH as (x' & ? & ?); [done|].
    exists x'. split; [by right|done].
  - intros [= ->]. exists x. split; [by left|done].
Qed.

(** *** The division of ints *)

Lemma round_half_even_cases n d :
  0 ≤ n → 0 < d →
  (round_half_even n d = n `div` d)
  ∨ (round_half_even n d = n `div` d + 1 ∧ d ≤ 2 * (n `mod` d)).
Proof.
  intros Hn Hd. unfold round_half_even.
  destruct (Z.ltb_spec (2 * (n `mod` d)) d); [by left|].
  destruct (Z.ltb_spec d (2 * (n `mod` d))); [right; split; [done|lia]|].
  destruct (Z.even _); [by left|right; split; [done|lia]].
Qed.

Lemma pow2_pos k : 0 < 2 ^ k ∨ (k < 0 ∧ 2 ^ k = 0).
Proof.
  destruct (Z.le_gt_cases 0 k); [left; by apply Z.pow_pos_nonneg|].
  right. split; [done|]. by apply Z.pow_neg_r.
Qed.

Lemma scaled_pos a b e :
  0 < a → 0 < b → 0 < (scaled a b e).1 ∧ 0 < (scaled a b e).2.
Proof.
  intros Ha Hb. unfold scaled. simpl.
  assert (0 < 2 ^ Z.max 0 (- e)) by (apply Z.pow_pos_nonneg; lia).
  assert (0 < 2 ^ Z.max 0 e) by (apply Z.pow_pos_nonneg; lia). nia.
Qed.

Lemma scaled_bounds a b :
  0 < a → 0 < b →
  let e0 := Z.log2 a - Z.log2 b - 53 in
  2 ^ 52 * (scaled a b e0).2 ≤ (scaled a b e0).1 < 2 ^ 54 * (scaled a b e0).2.
Proof.
  intros Ha Hb e0.
  destruct (Z.log2_spec a Ha) as [Ha1 Ha2]. destruct (Z.log2_spec b Hb) as [Hb1 Hb2].
  pose proof (Z.log2_nonneg a) as Hla. pose proof (Z.log2_nonneg b) as Hlb.
  set (la := Z.log2 a) in *. set (lb := Z.log2 b) in *.
  rewrite Z.pow_succ_r in Ha2, Hb2 by done.
  assert (0 < 2 ^ la) as HA by (by apply Z.pow_pos_nonneg).
  assert (0 < 2 ^ lb) as HB by (by apply Z.pow_pos_nonneg).
  unfold scaled. cbn [fst snd].
  destruct (Z.le_gt_cases 0 e0) as [He|He].
  - rewrite (Z.max_l 0 (- e0)), (Z.max_r 0 e0) by lia. rewrite Z.pow_0_r, Z.mul_1_r.
    assert (2 ^ la = 2 ^ 53 * 2 ^ lb * 2 ^ e0) as Hla'.
    { rewrite <- !Z.pow_add_r by lia. f_equal. unfold e0. lia. }
    assert (0 < 2 ^ e0) by (by apply Z.pow_pos_nonneg).
    set (E := 2 ^ e0) in *. set (P := 2 ^ lb) in *. set (L := 2 ^ la) in *.
    assert (b * E < 2 * P * E) by nia. assert (P * E ≤ b * E) by nia.
    change (2 ^ 52) with 4503599627370496. change (2 ^ 54) with 18014398509481984.
    change (2 ^ 53) with 9007199254740992 in Hla'. lia.
  - rewrite (Z.max_r 0 (- e0)), (Z.max_l 0 e0) by lia. rewrite Z.pow_0_r, Z.mul_1_r.
    assert (2 ^ la * 2 ^ (- e0) = 2 ^ 53 * 2 ^ lb) as Hla'.
    { rewrite <- !Z.pow_add_r by lia. f_equal. unfold e0. lia. }
    assert (0 < 2 ^ (- e0)) by (apply Z.pow_pos_nonneg; lia).
    set (E := 2 ^ (- e0)) in *. set (P := 2 ^ lb) in *. set (L := 2 ^ la) in *.
    assert (L * E ≤ a * E) by nia. assert (a * E < 2 * L * E) by nia.
    change (2 ^ 52) with 4503599627370496. change (2 ^ 54) with 18014398509481984.
    change (2 ^ 53) with 9007199254740992 in Hla'. lia.
Qed.

Lemma scaled_succ a b e :
  (scaled a b (e + 1)).1 * (2 * (scaled a b e).2)
  = (scaled a b e).1 * (scaled a b (e + 1)).2.
Proof.
  unfold scaled. cbn [fst snd].
  destruct (Z.le_gt_cases 0 e) as [He|He].
  - rewrite (Z.max_l 0 (- (e + 1))), (Z.max_l 0 (- e)), !(Z.max_r 0) by lia.
    replace (e + 1) with (Z.succ e) by lia.
    rewrite Z.pow_0_r, (Z.pow_succ_r 2 e) by done. ring.
  - rewrite (Z.max_r 0 (- (e + 1))), (Z.max_r 0 (- e)), !(Z.max_l 0) by lia.
    replace (- e) with (Z.succ (- (e + 1))) by lia.
    rewrite Z.pow_0_r, Z.pow_succ_r by lia. ring.
Qed.

(** With the exponent of a normal number the quotient has 53 bits. *)
Lemma normal_exponent_bounds a b :
  0 < a → 0 < b →
  let e := normal_exponent a b in
  2 ^ 52 * (scaled a b e).2 ≤ (scaled a b e).1 < 2 ^ 53 * (scaled a b e).2.
Proof.
  intros Ha Hb. unfold normal_exponent.
  pose proof (scaled_bounds a b Ha Hb) as Hbounds. cbv zeta in Hbounds.
  set (e0 := Z.log2 a - Z.log2 b - 53) in *.
  pose proof (scaled_pos a b e0 Ha Hb) as [Hn Hd].
  pose proof (scaled_pos a b (e0 + 1) Ha Hb) as [Hn' Hd'].
  pose proof (scaled_succ a b e0) as Hsucc.
  destruct (scaled a b e0) as [n d] eqn:Hscaled. cbn [fst snd] in *.
  destruct (Z.ltb_spec (n `div` d) (2 ^ 53)) as [Hlt|Hge]; cbv zeta.
  - rewrite Hscaled. cbn [fst snd]. split; [lia|].
    pose proof (Z.mul_succ_div_gt n d Hd) as Hgt.
    assert (d * Z.succ (n `div` d) ≤ d * 2 ^ 53) by (apply Z.mul_le_mono_nonneg_l; lia).
    lia.
  - destruct (scaled a b (e0 + 1)) as [n' d']. cbn [fst snd] in *.
    assert (2 ^ 53 * d ≤ n) as Hn53.
    { pose proof (Z.mul_div_le n d Hd). nia. }
    change (2 ^ 52) with 4503599627370496 in *. change (2 ^ 54) with 18014398509481984 in *.
    change (2 ^ 53) with 9007199254740992 in *.
    split.
    + assert (4503599627370496 * d' * (2 * d) ≤ n' * (2 * d)) as H by nia. nia.
    + assert (n' * (2 * d) < 9007199254740992 * d' * (2 * d)) as H by nia. nia.
Qed.

Lemma div_succ_same m K :
  0 ≤ m → 0 < K → (m + 1) `mod` K ≠ 0 → (m + 1) `div` K = m `div` K.
Proof.
  intros Hm HK Hmod.
  pose proof (Z.div_mod m K ltac:(lia)) as Hdm.
  pose proof (Z.mod_pos_bound m K HK) as Hr.
  assert (m `mod` K + 1 < K) as Hlt.
  { destruct (Z.eq_dec (m `mod` K + 1) K) as [Heq|]; [|lia].
    exfalso. apply Hmod. replace (m + 1) with (K * (m `div` K + 1)) by lia.
    rewrite Z.mul_comm. by apply Z.mod_mul; lia. }
  symmetry. apply (Z.div_unique (m + 1) K (m `div` K) (m `mod` K + 1)); lia.
Qed.

Lemma true_div_pos_exact a b :
  0 < a < 2 ^ 53 → 0 < b →
  let x := true_div_pos a b in
  0 ≤ f_mant x ∧ Z.log2 (f_mant x) + f_exp x < 1024 ∧ float_int x = a `div` b.
Proof.
  intros [Ha Ha53] Hb. unfold true_div_pos.
  pose proof (normal_exponent_bounds a b Ha Hb) as Hnormal. cbv zeta in Hnormal.
  set (e1 := normal_exponent a b) in *.
  destruct (Z.le_gt_cases 0 e1) as [He1|He1].
  - (* the quotient is an integer of 53 bits: [b = 1] *)
    rewrite Z.max_l by lia. unfold scaled in *. cbn [fst snd] in Hnormal.
    rewrite (Z.max_l 0 (- e1)), (Z.max_r 0 e1) in * by lia.
    rewrite Z.pow_0_r, Z.mul_1_r in *.
    assert (0 < 2 ^ e1) as Hpow by (by apply Z.pow_pos_nonneg).
    assert (b * 2 ^ e1 = 1) as Hone.
    { assert (1 ≤ b * 2 ^ e1) by nia.
      change (2 ^ 52) with 4503599627370496 in *.
      change (2 ^ 53) with 9007199254740992 in *. lia. }
    assert (b = 1 ∧ 2 ^ e1 = 1) as [-> Hpow1] by nia.
    assert (e1 = 0) as ->.
    { destruct (Z.eq_dec e1 0) as [|Hne]; [done|].
      pose proof (Z.pow_le_mono_r 2 1 e1 ltac:(lia) ltac:(lia)) as Hle.
      change (2 ^ 1) with 2 in Hle. lia. }
    cbv zeta. change (1 * 2 ^ 0) with 1.
    assert (round_half_even a 1 = a) as ->.
    { unfold round_half_even. by rewrite Z.mod_1_r, Z.div_1_r. }
    unfold float_int. cbn [f_mant f_exp]. change (0 <=? 0) with true. cbv iota.
    rewrite Z.pow_0_r, Z.mul_1_r, Z.div_1_r.
    split_and!; [lia| |done].
    assert (Z.log2 a < 53) by (by apply Z.log2_lt_pow2). lia.
  - set (e := Z.max e1 (- 1074)). assert (- 1074 ≤ e < 0) as He by lia.
    assert (e1 ≤ e) as Hee by lia.
    assert (e = e1 ∨ e = - 1074) as Hclamp by lia.
    unfold scaled in Hnormal. cbn [fst snd] in Hnormal.
    rewrite (Z.max_r 0 (- e1)), (Z.max_l 0 e1), Z.pow_0_r, Z.mul_1_r in Hnormal by lia.
    unfold scaled. rewrite (Z.max_r 0 (- e)), (Z.max_l 0 e) by lia.
    rewrite Z.pow_0_r, Z.mul_1_r. cbv zeta.
    assert (2 ^ (- e) ≤ 2 ^ (- e1)) as HKK by (apply Z.pow_le_mono_r; lia).
    clearbody e. set (K := 2 ^ (- e)) in *.
    assert (2 ≤ K) as HK.
    { pose proof (Z.pow_le_mono_r 2 1 (- e) ltac:(lia) ltac:(lia)) as Hle.
      by change (2 ^ 1) with 2 in Hle. }
    assert (a * K < 2 ^ 53 * b) as Hupper by nia.
    set (m0 := (a * K) `div` b).
    assert (0 ≤ m0) as Hm0 by (apply Z.div_pos; nia).
    assert (m0 `div` K = a `div` b) as Hfloor.
    { unfold m0. rewrite Z.div_div by lia. by rewrite Z.div_mul_cancel_r by lia. }
    assert (m0 < 2 ^ 53) as Hm53 by (apply Z.div_lt_upper_bound; lia).
    assert (∀ m, 0 ≤ m ≤ 2 ^ 53 → Z.log2 m + e < 1024) as Hlog.
    { intros m Hm. pose proof (Z.log2_le_mono m (2 ^ 53) ltac:(lia)) as Hle.
      rewrite Z.log2_pow2 in Hle by done. lia. }
    unfold float_int. cbn [f_mant f_exp].
    destruct (Z.leb_spec 0 e) as [|_]; [lia|]. fold K.
    destruct (round_half_even_cases (a * K) b ltac:(nia) Hb) as [->|[-> Hhalf]];
      fold m0.
    + split_and!; [done|apply Hlog; lia|by rewrite Z.quot_div_nonneg by lia].
    + split_and!; [lia|apply Hlog; lia|].
      rewrite Z.quot_div_nonneg by lia. rewrite <- Hfloor.
      apply div_succ_same; [done|lia|]. intros Hmod.
      apply Z.mod_divide in Hmod as [t Ht]; [|lia].
      pose proof (Z.div_mod (a * K) b ltac:(lia)) as Hdm. fold m0 in Hdm.
      pose proof (Z.mod_pos_bound (a * K) b Hb) as Hr.
      set (r := (a * K) `mod` b) in *.
      destruct Hclamp as [->| ->].
      * (* normal: [K] divides [b - r], so [2 * K ≤ b] and [2 ^ 53 ≤ a] *)
        assert (b - r = K * (t * b - a)) as Hdiv by nia.
        assert (0 < t * b - a) as Hpos by nia.
        assert (K ≤ b - r) as HKb by nia.
        assert (2 ^ 52 * (2 * K) ≤ a * K) as Hlow by nia.
        change (2 ^ 52) with 4503599627370496 in *.
        change (2 ^ 53) with 9007199254740992 in *. nia.
      * (* subnormal: the mantissa is below [2 ^ 1074] *)
        assert (2 ^ 53 < K) as Hbig by (by apply Z.pow_lt_mono_r).
        assert (0 < t) by nia. nia.
Qed.

Lemma round_half_even_nonneg n d : 0 ≤ n → 0 < d → 0 ≤ round_half_even n d.
Proof.
  intros Hn Hd. pose proof (Z.div_pos n d Hn Hd).
  destruct (round_half_even_cases n d Hn Hd) as [->|[-> _]]; lia.
Qed.

Lemma true_div_pos_mant a b : 0 < a → 0 < b → 0 ≤ f_mant (true_div_pos a b).
Proof.
  intros Ha Hb. unfold true_div_pos.
  pose proof (scaled_pos a b (Z.max (normal_exponent a b) (- 1074)) Ha Hb) as [Hn Hd].
  destruct (scaled a b _) as [n d]. cbn [fst snd f_mant] in *.
  apply round_half_even_nonneg; lia.
Qed.

Lemma float_int_opp m e : float_int (Float (- m) e) = - float_int (Float m e).
Proof.
  unfold float_int. cbn [f_mant f_exp]. destruct (Z.leb_spec 0 e); [lia|].
  apply Z.quot_opp_l. apply Z.pow_nonzero; lia.
Qed.

Lemma float_int_pos m e : 1 ≤ float_int (Float m e) → 0 < m.
Proof.
  unfold float_int. cbn [f_mant f_exp]. destruct (Z.leb_spec 0 e) as [He|He].
  - pose proof (Z.pow_pos_nonneg 2 e ltac:(lia) He). nia.
  - intros Hq. destruct (Z.le_gt_cases m 0) as [Hm|]; [|done].
    assert (0 < 2 ^ (- e)) as HK by (apply Z.pow_pos_nonneg; lia).
    pose proof (Z.quot_opp_l m (2 ^ (- e)) ltac:(lia)) as Hopp.
    pose proof (Z.quot_pos (- m) (2 ^ (- e)) ltac:(lia) HK). lia.
Qed.

(** The division of ints is exact, up to the truncation of [int], as
    long as the dividend has at most 53 bits. *)
Lemma true_div_small a b :
  Z.abs a < 2 ^ 53 → b ≠ 0 →
  ∃ x, true_div a b = Ok x ∧ float_int x = a `quot` b.
Proof.
  intros Ha Hb. unfold true_div.
  destruct (Z.eqb_spec b 0) as [|_]; [done|].
  destruct (Z.eqb_spec a 0) as [->|Ha0].
  { eexists. split; [done|]. by rewrite Z.quot_0_l. }
  destruct (true_div_pos_exact (Z.abs a) (Z.abs b) ltac:(lia) ltac:(lia))
    as (Hmant & Hlog & Hint).
  destruct (Z.leb_spec 1024 (Z.log2 (f_mant (true_div_pos (Z.abs a) (Z.abs b)))
                             + f_exp (true_div_pos (Z.abs a) (Z.abs b)))) as [|_]; [lia|].
  eexists. split; [done|].
  destruct (true_div_pos (Z.abs a) (Z.abs b)) as [m e]. cbn [f_mant f_exp] in *.
  rewrite <- Z.quot_div_nonneg in Hint by lia.
  destruct (Z.lt_total a 0) as [Hsa|[?|Hsa]]; [|done|];
    destruct (Z.lt_total b 0) as [Hsb|[?|Hsb]]; try done.
  - rewrite (Z.sgn_neg a), (Z.sgn_neg b), (Z.abs_neq a), (Z.abs_neq b) in * by lia.
    replace (-1 * -1 * m) with m by lia.
    rewrite Z.quot_opp_opp in Hint by lia. done.
  - rewrite (Z.sgn_neg a), (Z.sgn_pos b), (Z.abs_neq a), (Z.abs_eq b) in * by lia.
    replace (-1 * 1 * m) with (- m) by lia. rewrite float_int_opp, Hint.
    rewrite Z.quot_opp_l by lia. lia.
  - rewrite (Z.sgn_pos a), (Z.sgn_neg b), (Z.abs_eq a), (Z.abs_neq b) in * by lia.
    replace (1 * -1 * m) with (- m) by lia. rewrite float_int_opp, Hint.
    rewrite Z.quot_opp_r by lia. lia.
  - rewrite (Z.sgn_pos a), (Z.sgn_pos b), (Z.abs_eq a), (Z.abs_eq b) in * by lia.
    by replace (1 * 1 * m) with m by lia.
Qed.

(** A quotient that [int] sees as at least [1] is at least [1], as long
    as the divisor has at most 53 bits. *)
Lemma true_div_at_least_one a b x :
  true_div a b = Ok x → 1 ≤ float_int x → Z.abs b < 2 ^ 53 → 1 ≤ a `quot` b.
Proof.
  intros Hdiv Hint Hb.
  assert (b ≠ 0) as Hb0.
  { intros ->. revert Hdiv. unfold true_div. done. }
  destruct (Z.lt_ge_cases (Z.abs a) (2 ^ 53)) as [Ha|Ha].
  { destruct (true_div_small a b Ha Hb0) as (x' & Hx' & <-). congruence. }
  revert Hdiv. unfold true_div.
  destruct (Z.eqb_spec b 0) as [|_]; [done|].
  destruct (Z.eqb_spec a 0) as [->|Ha0]; [done|].
  pose proof (true_div_pos_mant (Z.abs a) (Z.abs b) ltac:(lia) ltac:(lia)) as Hmant.
  destruct (true_div_pos (Z.abs a) (Z.abs b)) as [m e]. cbn [f_mant f_exp] in *.
  destruct (1024 <=? Z.log2 m + e); [done|]. intros [= <-].
  apply float_int_pos in Hint.
  assert (Z.sgn a * Z.sgn b = 1) as Hsgn.
  { destruct (Z.sgn_spec a) as [[? ->]|[[? ->]|[? ->]]];
      destruct (Z.sgn_spec b) as [[? ->]|[[? ->]|[? ->]]]; lia. }
  assert (a `quot` b = Z.abs a `quot` Z.abs b) as ->.
  { destruct (Z.sgn_spec a) as [[? Ha1]|[[? Ha1]|[? Ha1]]];
      destruct (Z.sgn_spec b) as [[? Hb1]|[[? Hb1]|[? Hb1]]];
      rewrite Ha1, Hb1 in Hsgn; try lia.
    - by rewrite !Z.abs_eq by lia.
    - rewrite !Z.abs_neq by lia. by rewrite Z.quot_opp_opp by lia. }
  rewrite Z.quot_div_nonneg by lia.
  apply Z.div_le_lower_bound; lia.
Qed.

(** The quotients [1 / 3] (0x1.5555555555555p-2), [-7 / 2] and
    [18014398509481983 / 2], which is halfway between two floats and goes
    to the even one, [2 ^ 53]; a quotient below the smallest float is
    [0.0]; and the two ways in which the division raises. *)
Example true_div_examples :
  true_div 1 3 = Ok (Float 6004799503160661 (- 54))
  ∧ true_div (- 7) 2 = Ok (Float (- 7881299347898368) (- 51))
  ∧ float_int (Float (- 7881299347898368) (- 51)) = - 3
  ∧ true_div 18014398509481983 2 = Ok (Float (2 ^ 53) 0)
  ∧ true_div 1 (10 ^ 400) = Ok (Float 0 (- 1074))
  ∧ true_div 1 0 = Raise (Exn ZeroDivisionError "division by zero")
  ∧ true_div (10 ^ 400) 1
    = Raise (Exn OverflowError "integer division result too large for a float").
Proof. vm_compute. split_and!; reflexivity. Qed.

End PyTheory.

(** ** The DBLSTM graph *)

Module DblstmTheory.
Import Dblstm PyTheory Inputs.

Lemma bind_Ok {A B} (m : method A) (k : A → method B) self a self' :
  m self = (Ok a, self') → (m ≫= k) self = k a self'.
Proof. unfold mbind, method_bind. by intros ->. Qed.

Lemma bind_Raise {A B} (m : method A) (k : A → method B) self e self' :
  m self = (Raise e, self') → (m ≫= k) self = (Raise e, self').
Proof. unfold mbind, method_bind. by intros ->. Qed.

Lemma same_but_cells_refl self : same_but_cells self self.
Proof. by intros name. Qed.

Lemma same_but_cells_trans s1 s2 s3 :
  same_but_cells s1 s2 → same_but_cells s2 s3 → same_but_cells s1 s3.
Proof. intros H12 H23 name ??. by rewrite H23, H12. Qed.

Lemma same_but_cells_fw self c : same_but_cells self (<["cell_fw" := c]> self).
Proof. intros name ??. by rewrite lookup_insert_ne. Qed.

Lemma same_but_cells_bw self c : same_but_cells self (<["cell_bw" := c]> self).
Proof. intros name ??. by rewrite lookup_insert_ne. Qed.

Lemma gettensor_Some name t self :
  self !! name = Some (Tensor t) → gettensor name self = (Ok t, self).
Proof. unfold gettensor, getattr, mbind, method_bind. by intros ->. Qed.

(** [lazy_property]: the function runs when the cache attribute is
    missing, and its value is stored; otherwise the stored value is
    returned and nothing changes. *)
Lemma lazy_property_fresh name function self v self' :
  self !! ("_cache_" +:+ name) = None →
  function self = (Ok v, self') →
  lazy_property name function self = (Ok v, <["_cache_" +:+ name := v]> self').
Proof.
  intros Hnone Hf. unfold lazy_property, hasattr, setattr, getattr, mbind, method_bind.
  rewrite Hnone. rewrite bool_decide_false by (by intros [??]). simpl.
  rewrite Hf. by rewrite lookup_insert_eq.
Qed.

Lemma lazy_property_raise name function self e self' :
  self !! ("_cache_" +:+ name) = None →
  function self = (Raise e, self') →
  lazy_property name function self = (Raise e, self').
Proof.
  intros Hnone Hf. unfold lazy_property, hasattr, setattr, getattr, mbind, method_bind.
  rewrite Hnone. rewrite bool_decide_false by (by intros [??]). simpl.
  by rewrite Hf.
Qed.

Lemma lazy_property_cached name function self v :
  self !! ("_cache_" +:+ name) = Some v →
  lazy_property name function self = (Ok v, self).
Proof.
  intros Hsome. unfold lazy_property, hasattr, setattr, getattr, mbind, method_bind.
  rewrite Hsome. rewrite bool_decide_true by eauto. simpl. by rewrite Hsome.
Qed.

Section Architecture.
Variable HIDDEN_SIZE : list Z.
Variable TARGET_SIZE : Z.
Variable id_self : Z.
Variables X seqlens : tensor.

Local Abbreviation bilstm_layer := (bilstm_layer HIDDEN_SIZE id_self X seqlens).
Local Abbreviation layers := (layers id_self seqlens).

Lemma enumerate_from_layers k l self :
  drop (S k) HIDDEN_SIZE = l →
  ∃ self',
    layers (enumerate_from (Z.of_nat k) l) (bilstm_layer k) self
      = (Ok (bilstm_layer (k + length l)), self')
    ∧ same_but_cells self self'.
Proof.
  revert k self. induction l as [|sz l IH]; intros k self Hdrop.
  - exists self. split; [|apply same_but_cells_refl].
    simpl. by rewrite Nat.add_0_r.
  - assert (HIDDEN_SIZE !! S k = Some sz) as Hsz.
    { rewrite <- (Nat.add_0_r (S k)), <- lookup_drop. by rewrite Hdrop. }
    assert (drop (S (S k)) HIDDEN_SIZE = l) as Hdrop'.
    { replace (S (S k)) with (S k + 1)%nat by lia.
      by rewrite <- drop_drop, Hdrop. }
    cbn [enumerate_from Dblstm.layers].
    set (self1 := <["cell_bw" := Cell (get_unit sz)]>
                    (<["cell_fw" := Cell (get_unit sz)]> self)).
    destruct (IH (S k) self1 Hdrop') as (self' & Hrun & Hsame).
    exists self'. split.
    + cbn [Dblstm.bilstm_layer] in Hrun.
      rewrite (list_lookup_total_correct _ _ _ Hsz) in Hrun.
      replace (k + length (sz :: l))%nat with (S k + length l)%nat by (simpl; lia).
      destruct (bilstm_layer k) as [h h_1] eqn:Hk.
      unfold layer, mbind, method_bind, setattr, mret, method_ret.
      fold self1.
      replace (Z.of_nat k + 1) with (Z.of_nat (S k)) by lia.
      replace (id_self + Z.of_nat k + 1) with (id_self + Z.of_nat (S k)) by lia.
      exact Hrun.
    + eapply same_but_cells_trans; [|exact Hsame].
      eapply same_but_cells_trans; [apply same_but_cells_fw|apply same_but_cells_bw].
Qed.
Lemma last_item_total l : l ≠ [] → last_item l = Ok (l !!! (length l - 1)%nat) .
Proof.
  intros Hl. unfold last_item. rewrite last_lookup.
  destruct (l !! pred (length l)) as [y|] eqn:Hy.
  - f_equal. symmetry. apply list_lookup_total_correct.
    by replace (length l - 1)%nat with (pred (length l)) by lia.
  - apply lookup_ge_None in Hy. destruct l; [done|simpl in Hy; lia].
Qed.

Lemma prediction_function_architecture self :
  HIDDEN_SIZE ≠ [] →
  self !! "X" = Some (Tensor X) →
  self !! "seqlens" = Some (Tensor seqlens) →
  ∃ self',
    prediction_function HIDDEN_SIZE TARGET_SIZE id_self self
      = (Ok (Tensor (architecture HIDDEN_SIZE TARGET_SIZE id_self X seqlens)), self')
    ∧ same_but_cells self self'.
Proof.
  intros Hne HX HL.
  destruct HIDDEN_SIZE as [|sz0 rest] eqn:HHS; [done|]. rewrite <- HHS.
  set (self1 := <["cell_fw" := Cell (get_unit sz0)]> self).
  set (self2 := <["cell_bw" := Cell (get_unit sz0)]> self1).
  destruct (enumerate_from_layers 0 (drop 1 HIDDEN_SIZE) self2 eq_refl)
    as (self' & Hrun & Hsame).
  exists self'. split.
  - assert (first_item HIDDEN_SIZE = Ok sz0) as Hfirst by (by rewrite HHS).
    assert (HIDDEN_SIZE !!! 0%nat = sz0) as Hsz0 by (by rewrite HHS).
    cbn [Dblstm.bilstm_layer] in Hrun. rewrite Hsz0 in Hrun.
    change (Z.of_nat 0) with 0 in Hrun. rewrite Z.add_0_r in Hrun.
    unfold backward_lstm, forward_lstm in Hrun.
    unfold prediction_function.
    erewrite bind_Ok; [|unfold lift; by rewrite Hfirst].
    erewrite bind_Ok; [|reflexivity]. fold self1.
    erewrite bind_Ok; [|apply gettensor_Some; unfold self1; by rewrite lookup_insert_ne].
    erewrite bind_Ok; [|apply gettensor_Some; unfold self1; by rewrite lookup_insert_ne].
    erewrite bind_Ok; [|unfold lift; by rewrite Hfirst].
    erewrite bind_Ok; [|reflexivity]. fold self2.
    erewrite bind_Ok; [|exact Hrun].
    unfold architecture.
    replace (length HIDDEN_SIZE - 1)%nat with (0 + length (drop 1 HIDDEN_SIZE))%nat
      by (rewrite length_drop; lia).
    destruct (bilstm_layer (0 + length (drop 1 HIDDEN_SIZE))) as [h h_1].
    erewrite bind_Ok; [|unfold lift; rewrite last_item_total by (by rewrite HHS); reflexivity].
    reflexivity.
  - eapply same_but_cells_trans; [|exact Hsame].
    eapply same_but_cells_trans; [apply same_but_cells_fw|apply same_but_cells_bw].
Qed.

Variable T : tensor.

Local Abbreviation prediction := (prediction HIDDEN_SIZE TARGET_SIZE id_self).
Local Abbreviation cost := (cost HIDDEN_SIZE TARGET_SIZE id_self).
Local Abbreviation architecture := (architecture HIDDEN_SIZE TARGET_SIZE id_self X seqlens).


Lemma prediction_fresh self :
  HIDDEN_SIZE ≠ [] →
  self !! "X" = Some (Tensor X) →
  self !! "seqlens" = Some (Tensor seqlens) →
  self !! "_cache_prediction" = None →
  ∃ self1,
    prediction self
      = (Ok (Tensor architecture), <["_cache_prediction" := Tensor architecture]> self1)
    ∧ same_but_cells self self1.
Proof.
  intros Hne HX HL Hnone.
  destruct (prediction_function_architecture self Hne HX HL) as (self1 & Hrun & Hsame).
  exists self1. split; [|done].
  by apply (lazy_property_fresh "prediction").
Qed.

Lemma init_run :
  HIDDEN_SIZE ≠ [] →
  ∃ self, DBLSTM__init__ HIDDEN_SIZE TARGET_SIZE id_self X T seqlens ∅ = (Ok tt, self)
    ∧ self !! "_cache_prediction" = Some (Tensor architecture)
    ∧ self !! "_cache_cost"
      = Some (Tensor (ReduceMean (Neg (CrfLogLikelihood architecture
                                         (Cast (ArgMax T 2) int32) seqlens))))
    ∧ self !! "Tflat" = Some (Tensor (Cast (ArgMax T 2) int32)).
Proof.
  intros Hne. unfold DBLSTM__init__.
  set (s0 := <["seqlens" := Tensor seqlens]>
               (<["Tflat" := Tensor (Cast (ArgMax T 2) int32)]>
                  (<["T" := Tensor T]> (<["X" := Tensor X]> (∅ : object))))).
  destruct (prediction_fresh s0 Hne) as (s1 & Hpred & Hsame); [done..|].
  set (s2 := <["_cache_prediction" := Tensor architecture]> s1) in *.
  assert (∀ name v, name ≠ "cell_fw" → name ≠ "cell_bw" → name ≠ "_cache_prediction" →
            s0 !! name = v → s2 !! name = v) as Hs2.
  { intros name v ??? <-. unfold s2. rewrite lookup_insert_ne by done. by apply Hsame. }
  assert (s0 !! "Tflat" = Some (Tensor (Cast (ArgMax T 2) int32))) as HTflat by done.
  assert (s0 !! "seqlens" = Some (Tensor seqlens)) as Hseqlens by done.
  assert (s0 !! "T" = Some (Tensor T)) as HT by done.
  assert (s0 !! "_cache_cost" = None) as Hcost0 by done.
  assert (s0 !! "_cache_optimize" = None) as Hopt0 by done.
  assert (s0 !! "_cache_error" = None) as Herr0 by done.
  set (C := Tensor (ReduceMean (Neg (CrfLogLikelihood architecture
                                       (Cast (ArgMax T 2) int32) seqlens)))).
  assert (prediction s2 = (Ok (Tensor architecture), s2)) as Hpred2.
  { apply (lazy_property_cached "prediction"). apply lookup_insert_eq. }
  assert (cost s2 = (Ok C, <["_cache_cost" := C]> s2)) as Hcost.
  { apply (lazy_property_fresh "cost"); [by apply Hs2|].
    unfold cost_function.
    erewrite bind_Ok; [|erewrite bind_Ok; [|exact Hpred2]; reflexivity].
    erewrite bind_Ok; [|apply gettensor_Some; by apply Hs2].
    erewrite bind_Ok; [|apply gettensor_Some; by apply Hs2].
    reflexivity. }
  set (s3 := <["_cache_cost" := C]> s2) in *.
  set (O := Tensor (AdamMinimize "optimize" (Q2Qc (5 # 1000))
                      (ReduceMean (Neg (CrfLogLikelihood architecture
                                          (Cast (ArgMax T 2) int32) seqlens))))).
  assert (optimize HIDDEN_SIZE TARGET_SIZE id_self s2
          = (Ok O, <["_cache_optimize" := O]> s3)) as Hopt.
  { apply (lazy_property_fresh "optimize"); [by apply Hs2|].
    unfold optimize_function.
    erewrite bind_Ok; [|erewrite bind_Ok; [|exact Hcost]; reflexivity].
    reflexivity. }
  set (s4 := <["_cache_optimize" := O]> s3) in *.
  assert (∀ name v, name ≠ "cell_fw" → name ≠ "cell_bw" →
            name ≠ "_cache_prediction" → name ≠ "_cache_cost" →
            name ≠ "_cache_optimize" →
            s0 !! name = v → s4 !! name = v) as Hs4.
  { intros name v ????? Hv. unfold s4, s3.
    rewrite !lookup_insert_ne by done. by apply Hs2. }
  assert (s4 !! "_cache_prediction" = Some (Tensor architecture)) as Hp4.
  { unfold s4, s3, s2. rewrite !lookup_insert_ne by done. apply lookup_insert_eq. }
  destruct (error HIDDEN_SIZE TARGET_SIZE id_self s4) as [r s5] eqn:Herr.
  assert (∃ E, r = Ok E ∧ s5 = <["_cache_error" := E]> s4) as (E & -> & ->).
  { eexists. apply pair_eq. rewrite <- Herr.
    apply (lazy_property_fresh "error"); [by apply Hs4|].
    unfold error_function.
    erewrite bind_Ok;
      [|erewrite bind_Ok; [|by apply (lazy_property_cached "prediction")]; reflexivity].
    erewrite bind_Ok; [|apply gettensor_Some; by apply Hs4].
    erewrite bind_Ok; [|apply gettensor_Some; by apply Hs4].
    erewrite bind_Ok; [|apply gettensor_Some; by apply Hs4].
    reflexivity. }
  exists (<["_cache_error" := E]> s4). split_and!.
  - do 4 (erewrite bind_Ok; [|reflexivity]). fold s0.
    erewrite bind_Ok; [|exact Hpred].
    erewrite bind_Ok; [|exact Hopt].
    erewrite bind_Ok; [|exact Herr].
    reflexivity.
  - by rewrite lookup_insert_ne.
  - unfold s4, s3. rewrite !lookup_insert_ne by done. apply lookup_insert_eq.
  - rewrite lookup_insert_ne by done. by apply Hs4.
Qed.
End Architecture.

(** The two equations of [bilstm_layer]: the first layer reads [X]; each
    later layer reads the backward and forward outputs of the layer
    below, and its backward LSTM also reads its own forward outputs. *)
Lemma bilstm_layer_first HIDDEN_SIZE id_self X seqlens :
  bilstm_layer HIDDEN_SIZE id_self X seqlens 0
  = let sz := HIDDEN_SIZE !!! 0%nat in
    let fw := DynamicRnn (scope_fw id_self) (get_unit sz) X seqlens in
    (ReverseSequence
       (DynamicRnn (scope_bw id_self) (get_unit sz)
          (ReverseSequence fw seqlens) seqlens) seqlens,
     fw).
Proof. cbn [bilstm_layer]. unfold backward_lstm, forward_lstm. by rewrite Z.add_0_r. Qed.

Lemma bilstm_layer_next HIDDEN_SIZE id_self X seqlens i :
  bilstm_layer HIDDEN_SIZE id_self X seqlens (S i)
  = let sz := HIDDEN_SIZE !!! S i in
    let n := id_self + Z.of_nat (S i) in
    let '(bw', fw') := bilstm_layer HIDDEN_SIZE id_self X seqlens i in
    let fw := DynamicRnn (scope_fw n) (get_unit sz) (Concat bw' fw' 2) seqlens in
    (ReverseSequence
       (DynamicRnn (scope_bw n) (get_unit sz)
          (ReverseSequence (Concat fw bw' 2) seqlens) seqlens) seqlens,
     fw).
Proof. reflexivity. Qed.

(** C3.  With a non-empty [HIDDEN_SIZE], the first evaluation of
    [prediction] builds [architecture]: one bidirectional layer per entry
    of [HIDDEN_SIZE] ([bilstm_layer], whose two equations are above),
    followed by the affine map with [Wo] and [bo] of the concatenated
    backward and forward outputs of the last layer into [TARGET_SIZE]
    classes.  The node is cached: evaluating [prediction] again returns
    it and leaves the object unchanged. *)
Theorem prediction_is_stacked_bilstm (HIDDEN_SIZE : list Z) (TARGET_SIZE id_self : Z)
    (X seqlens : tensor) (self : object) :
  HIDDEN_SIZE ≠ [] →
  self !! "X" = Some (Tensor X) →
  self !! "seqlens" = Some (Tensor seqlens) →
  self !! "_cache_prediction" = None →
  ∃ self' bw fw,
    bilstm_layer HIDDEN_SIZE id_self X seqlens (length HIDDEN_SIZE - 1) = (bw, fw)
    ∧ architecture HIDDEN_SIZE TARGET_SIZE id_self X seqlens
      = affine (Wo HIDDEN_SIZE TARGET_SIZE) (bo TARGET_SIZE) (Concat bw fw 2)
    ∧ prediction HIDDEN_SIZE TARGET_SIZE id_self self
      = (Ok (Tensor (architecture HIDDEN_SIZE TARGET_SIZE id_self X seqlens)), self')
    ∧ prediction HIDDEN_SIZE TARGET_SIZE id_self self'
      = (Ok (Tensor (architecture HIDDEN_SIZE TARGET_SIZE id_self X seqlens)), self').
Proof.
  intros Hne HX HL Hnone.
  destruct (prediction_fresh HIDDEN_SIZE TARGET_SIZE id_self X seqlens self
              Hne HX HL Hnone) as (self1 & Hrun & _).
  destruct (bilstm_layer HIDDEN_SIZE id_self X seqlens (length HIDDEN_SIZE - 1))
    as [bw fw] eqn:Hlast.
  eexists _, bw, fw. split_and!; [done| |exact Hrun|].
  - unfold architecture. by rewrite Hlast.
  - apply (lazy_property_cached "prediction"). apply lookup_insert_eq.
Qed.

Lemma prediction_is_stacked_bilstm_witness :
  ∃ self', prediction HIDDEN_SIZE_main TARGET_SIZE_main 140 self_main
           = (Ok (Tensor (architecture HIDDEN_SIZE_main TARGET_SIZE_main 140
                            (Placeholder "X") (Placeholder "seqlens"))), self').
Proof.
  destruct (prediction_is_stacked_bilstm HIDDEN_SIZE_main TARGET_SIZE_main 140
              (Placeholder "X") (Placeholder "seqlens") self_main)
    as (self' & bw & fw & _ & _ & Hrun & _); [done|reflexivity..|].
  by exists self'.
Defined.

(** C2.  After [DBLSTM.__init__], [cost] is the node
    [reduce_mean(-log_likelihood)], where [log_likelihood] is the CRF
    log-likelihood of [Tflat = cast(argmax(T, 2), int32)] given the
    scores of [prediction] and the sequence lengths.  [__init__] succeeds
    whenever [HIDDEN_SIZE] is not empty. *)
Theorem cost_is_mean_negative_log_likelihood (HIDDEN_SIZE : list Z)
    (TARGET_SIZE id_self : Z) (X T seqlens : tensor) :
  (HIDDEN_SIZE ≠ [] →
   ∃ self, DBLSTM__init__ HIDDEN_SIZE TARGET_SIZE id_self X T seqlens ∅ = (Ok tt, self))
  ∧ ∀ self,
      DBLSTM__init__ HIDDEN_SIZE TARGET_SIZE id_self X T seqlens ∅ = (Ok tt, self) →
      ∃ p,
        prediction HIDDEN_SIZE TARGET_SIZE id_self self = (Ok (Tensor p), self)
        ∧ self !! "Tflat" = Some (Tensor (Cast (ArgMax T 2) int32))
        ∧ cost HIDDEN_SIZE TARGET_SIZE id_self self
          = (Ok (Tensor (ReduceMean (Neg (CrfLogLikelihood p
                                           (Cast (ArgMax T 2) int32) seqlens)))),
             self).
Proof.
  split.
  - intros Hne.
    destruct (init_run HIDDEN_SIZE TARGET_SIZE id_self X seqlens T Hne)
      as (self & Hinit & _). eauto.
  - intros self Hself.
    destruct HIDDEN_SIZE as [|sz0 rest] eqn:HHS.
    { vm_compute in Hself. discriminate Hself. }
    rewrite <- HHS in *.
    destruct (init_run HIDDEN_SIZE TARGET_SIZE id_self X seqlens T)
      as (self0 & Hinit & Hp & Hc & HTflat); [by rewrite HHS|].
    rewrite Hinit in Hself. injection Hself as <-.
    eexists. split_and!.
    + by apply (lazy_property_cached "prediction").
    + done.
    + by apply (lazy_property_cached "cost").
Qed.

Lemma cost_is_mean_negative_log_likelihood_witness :
  ∃ self p,
    DBLSTM__init__ HIDDEN_SIZE_main TARGET_SIZE_main 140
      (Placeholder "X") (Placeholder "T") (Placeholder "seqlens") ∅ = (Ok tt, self)
    ∧ cost HIDDEN_SIZE_main TARGET_SIZE_main 140 self
      = (Ok (Tensor (ReduceMean (Neg (CrfLogLikelihood p
                 (Cast (ArgMax (Placeholder "T") 2) int32) (Placeholder "seqlens"))))),
         self).
Proof.
  destruct (cost_is_mean_negative_log_likelihood HIDDEN_SIZE_main TARGET_SIZE_main 140
              (Placeholder "X") (Placeholder "T") (Placeholder "seqlens"))
    as [Hrun Hcost].
  destruct Hrun as (self & Hinit); [done|].
  destruct (Hcost self Hinit) as (p & _ & _ & Hc).
  by exists self, p.
Defined.

End DblstmTheory.

(** ** Output directories and settings *)

Module DataOutputsTheory.
Import DataOutputs PyTheory Inputs.

Lemma append_assoc (s1 s2 s3 : string) : (s1 +:+ s2) +:+ s3 = s1 +:+ (s2 +:+ s3).
Proof.
  induction s1 as [|c s1 IH]; [done|].
  change (String c ((s1 +:+ s2) +:+ s3) = String c (s1 +:+ (s2 +:+ s3))).
  by rewrite IH.
Qed.

Lemma append_empty_r (s : string) : s +:+ "" = s.
Proof.
  induction s as [|c s IH]; [done|].
  change (String c (s +:+ "") = String c s). by rewrite IH.
Qed.

Section SettingsTheory.
Context {value : Type}.
Variable format_value : value → string.
Variable open_error : string → option exn.

Lemma dict_set_fresh k (v : value) d :
  k ∉ d.*1 → dict_set value k v d = d ++ [(k, v)].
Proof.
  induction d as [|[k' v'] d IH]; simpl; [done|].
  intros Hk. apply not_elem_of_cons in Hk as [Hne Hk].
  rewrite bool_decide_false by done. by rewrite IH.
Qed.

Lemma settings_comprehension_acc (to_persist : list string) (d acc : dict value) :
  NoDup (acc.*1 ++ d.*1) →
  foldl (λ d '(var_name, var_value),
           if bool_decide (var_name ∈ to_persist)
           then dict_set value var_name var_value d else d) acc d
  = acc ++ filter (λ item, item.1 ∈ to_persist) d.
Proof.
  revert acc. induction d as [|[k v] d IH]; intros acc Hnd; simpl.
  - symmetry. apply app_nil_r.
  - apply NoDup_app in Hnd as (Hacc & Hdisj & Hd).
    apply NoDup_cons in Hd as [Hk Hd].
    rewrite filter_cons. simpl. case_bool_decide as Hin.
    + rewrite decide_True by done.
      rewrite dict_set_fresh by (intros ?; eapply Hdisj; [done|by left]).
      rewrite IH.
      * by rewrite <- app_assoc.
      * rewrite fmap_app. simpl. apply NoDup_app. split_and!; [| |done].
        2:{ intros x [Hx| ->%list_elem_of_singleton]%elem_of_app Hxd; [|done].
            eapply Hdisj; [done|by right]. }
        apply NoDup_app. split_and!; [done| |apply NoDup_singleton].
        intros x Hx ->%list_elem_of_singleton. eapply Hdisj; [done|by left].
    + rewrite decide_False by done. apply IH.
      apply NoDup_app. split_and!; [done| |done].
      intros x Hx Hx'. eapply Hdisj; [done|by right].
Qed.

(** On the items of a dict the comprehension is a filter. *)
Lemma settings_comprehension_filter (to_persist : list string)
    (vars_dict : dict value) :
  NoDup vars_dict.*1 →
  settings_comprehension value vars_dict to_persist
  = filter (λ item, item.1 ∈ to_persist) vars_dict.
Proof.
  intros Hnd. unfold settings_comprehension.
  by rewrite settings_comprehension_acc.
Qed.

Lemma write_lines path (items : dict value) (fs : gmap string string) text0 :
  fs !! path = Some text0 →
  let fs' := foldl (λ fs item, write path (settings_line value format_value item) fs)
               fs items in
  fs' !! path = Some (text0 +:+ file_text (settings_line value format_value <$> items))
  ∧ ∀ p, p ≠ path → fs' !! p = fs !! p.
Proof.
  revert fs text0. induction items as [|item items IH]; intros fs text0 Hpath; simpl.
  - by rewrite append_empty_r.
  - destruct (IH (write path (settings_line value format_value item) fs)
                (text0 +:+ settings_line value format_value item)) as [Htext Hother].
    { unfold write. by rewrite lookup_insert_eq, Hpath. }
    split.
    + by rewrite Htext, append_assoc.
    + intros p Hp. rewrite Hother by done. unfold write. by rewrite lookup_insert_ne.
Qed.

(** C6.  When the settings file can be opened,
    [outputs_settings_persist] returns the items of [vars_dict] whose
    key occurs in [to_persist], in their order, and leaves in
    [output_dir + 'settings.txt'] the lines [name: value] of exactly
    these items, one after the other; no other file changes.  The
    function only reads [vars_dict].  [NoDup] states that [vars_dict]
    is a dict: its keys are distinct. *)
Theorem outputs_settings_persist_kept (output_dir : string)
    (vars_dict : dict value) (to_persist : list string) (fs : gmap string string) :
  NoDup vars_dict.*1 →
  open_error (output_dir +:+ "settings.txt") = None →
  let kept := filter (λ item, item.1 ∈ to_persist) vars_dict in
  let out := outputs_settings_persist value format_value open_error
               output_dir vars_dict to_persist fs in
  out.1 = Ok kept
  ∧ (∀ k v, (k, v) ∈ kept ↔ (k, v) ∈ vars_dict ∧ k ∈ to_persist)
  ∧ out.2 !! (output_dir +:+ "settings.txt")
    = Some (file_text ((λ item, item.1 +:+ ": " +:+ format_value item.2 +:+ newline)
                         <$> kept))
  ∧ (∀ p, p ≠ output_dir +:+ "settings.txt" → out.2 !! p = fs !! p).
Proof.
  intros Hnd Hopen kept out. subst out. unfold outputs_settings_persist.
  rewrite Hopen, settings_comprehension_filter by done. fold kept. simpl.
  destruct (write_lines (output_dir +:+ "settings.txt") kept
              (<[output_dir +:+ "settings.txt" := ""]> fs) "") as [Htext Hother].
  { apply lookup_insert_eq. }
  split_and!.
  - done.
  - intros k v. unfold kept. rewrite list_elem_of_filter. simpl. tauto.
  - exact Htext.
  - intros p Hp. rewrite Hother by done. by rewrite lookup_insert_ne.
Qed.
End SettingsTheory.

Lemma outputs_settings_persist_witness :
  (outputs_settings_persist Z pretty (λ _, None) "outputs/00/" vars_main SETTINGS ∅).1
  = Ok [("lr", 5); ("BATCH_SIZE", 250); ("N_EPOCHS", 100)].
Proof.
  apply (outputs_settings_persist_kept pretty (λ _, None) "outputs/00/" vars_main
           SETTINGS ∅); [|reflexivity].
  apply (bool_decide_unpack _). vm_compute. exact I.
Defined.

(** *** Strings as lists of characters *)

Lemma chars_app (a b : string) : chars (a +:+ b) = chars a ++ chars b.
Proof.
  induction a as [|c a IH]; [done|].
  change (c :: chars (a +:+ b) = c :: (chars a ++ chars b)). by rewrite IH.
Qed.

Lemma text_chars (s : string) : text (chars s) = s.
Proof. apply String.string_of_list_ascii_of_string. Qed.

Lemma length_chars (s : string) : length (chars s) = String.length s.
Proof. induction s as [|c s IH]; [done|]. simpl. by rewrite <- IH. Qed.

(** *** The pattern of a literal path matches the path and nothing
    without a slash *)

Lemma atom_of_matches c a : atom_of c = Some a → atom_matches a c = true.
Proof.
  unfold atom_of. case_bool_decide as Hdot.
  - intros [= <-]. by subst c.
  - destruct (_ || _); [done|]. intros [= <-]. simpl. by apply bool_decide_eq_true.
Qed.

Lemma atom_of_slash : atom_of "/"%char = Some (Lit "/"%char).
Proof. reflexivity. Qed.

Lemma parse_literal p :
  Forall (λ c, is_Some (atom_of c)) p →
  ∃ its, parse p = Some its
    ∧ Forall2 (λ c it, atom_of c = Some (it_atom it) ∧ it_plus it = false) p its.
Proof.
  induction 1 as [|c p [a Ha] Hp (its & Hparse & Hits)].
  - by exists [].
  - cbn [parse]. rewrite Ha. cbn [mbind option_bind].
    destruct p as [|c' p''].
    + exists [Item a false]. split; [done|]. by repeat constructor.
    + rewrite bool_decide_false.
      2:{ intros ->. apply Forall_cons in Hp as [[a' Ha'] _]. discriminate Ha'. }
      rewrite Hparse. exists (Item a false :: its). split; [done|].
      by constructor.
Qed.

Lemma match_here_literal p its rest :
  Forall2 (λ c it, atom_of c = Some (it_atom it) ∧ it_plus it = false) p its →
  match_here its (p ++ rest) = Some rest.
Proof.
  induction 1 as [|c it p its [Ha Hplus] _ IH]; [done|].
  cbn [match_here]. rewrite Hplus. simpl. by rewrite (atom_of_matches _ _ Ha).
Qed.

Lemma match_here_needs_slash its s :
  Forall (λ it, it_plus it = false) its →
  Exists (λ it, it_atom it = Lit "/"%char) its →
  "/"%char ∉ s →
  match_here its s = None.
Proof.
  intros Hplus. revert s. induction Hplus as [|it its Hit _ IH]; intros s Hex Hs.
  - by apply Exists_nil in Hex.
  - cbn [match_here]. rewrite Hit. destruct s as [|c s]; [done|].
    apply not_elem_of_cons in Hs as [Hc Hs].
    apply Exists_cons in Hex as [Hslash|Hex].
    + rewrite Hslash. simpl. by rewrite bool_decide_false.
    + destruct (atom_matches (it_atom it) c); [|done]. by apply IH.
Qed.

Lemma sub_empty_no_match fuel its s :
  (∀ s', s' `suffix_of` s → match_here its s' = None) →
  sub_empty fuel its s = s.
Proof.
  revert fuel. induction s as [|c s IH]; intros fuel Hnone.
  - by destruct fuel.
  - destruct fuel as [|fuel]; [done|]. cbn [sub_empty].
    rewrite Hnone by done. f_equal. apply IH.
    intros s' Hs'. apply Hnone. by apply suffix_cons_r.
Qed.

Lemma is_digit_not_slash c : is_digit c = true → c ≠ "/"%char.
Proof. by intros H ->. Qed.

Lemma numeral_no_slash name : numeral name → "/"%char ∉ chars name.
Proof.
  intros [_ Hd] Hin. rewrite Forall_forall in Hd.
  by apply Hd, Is_true_true, is_digit_not_slash in Hin.
Qed.

Lemma sub_empty_literal p its name :
  Forall2 (λ c it, atom_of c = Some (it_atom it) ∧ it_plus it = false) p its →
  "/"%char ∈ p → "/"%char ∉ name →
  sub_empty (length (p ++ name)) its (p ++ name) = name.
Proof.
  intros Hits Hp Hname.
  assert (Forall (λ it, it_plus it = false) its) as Hplus.
  { clear -Hits. induction Hits as [|???? [_ ?]]; by constructor. }
  assert (Exists (λ it, it_atom it = Lit "/"%char) its) as Hslash.
  { clear -Hits Hp. induction Hits as [|c it p its [Ha _] _ IH].
    - by apply elem_of_nil in Hp.
    - apply elem_of_cons in Hp as [<-|Hp].
      + rewrite atom_of_slash in Ha. apply Exists_cons_hd. congruence.
      + apply Exists_cons_tl. by apply IH. }
  pose proof (match_here_literal _ _ name Hits) as Hmatch.
  destruct p as [|c p]; [by apply elem_of_nil in Hp|].
  cbn [app length sub_empty] in *. rewrite Hmatch.
  rewrite bool_decide_true by (rewrite length_app; lia).
  apply sub_empty_no_match. intros s' Hs'.
  apply match_here_needs_slash; [done..|].
  intros Hin. apply Hname. destruct Hs' as [k ->]. apply elem_of_app. by right.
Qed.

(** [re.sub] with a literal directory name strips it from the path of an
    entry whose name has no slash. *)
Lemma re_sub_empty_literal (dir name : string) :
  literal_path dir →
  "/"%char ∈ chars dir →
  "/"%char ∉ chars name →
  re_sub_empty dir (dir +:+ name) = Some name.
Proof.
  intros Hlit Hdir Hname. unfold re_sub_empty.
  destruct (parse_literal _ Hlit) as (its & -> & Hits). cbn [mbind option_bind].
  by rewrite chars_app, sub_empty_literal, text_chars.
Qed.

(** *** [int] of a numeral *)

Lemma is_digit_cases c :
  is_digit c = true →
  c ∈ ["0"; "1"; "2"; "3"; "4"; "5"; "6"; "7"; "8"; "9"]%char.
Proof. unfold is_digit, is_in. intros H. by apply bool_decide_eq_true in H. Qed.

Lemma is_digit_plain c :
  is_digit c = true →
  beyond_ascii c = false ∧ is_space c = false
  ∧ c ≠ "-"%char ∧ c ≠ "+"%char ∧ 0 ≤ digit_value c ≤ 9.
Proof.
  intros H%is_digit_cases.
  repeat (apply elem_of_cons in H as [->|H]; [by vm_compute|]).
  by apply elem_of_nil in H.
Qed.

Lemma int_digits_numeral s acc after_digit :
  Forall (λ c, is_digit c) s → (s ≠ [] ∨ after_digit = true) → 0 ≤ acc →
  ∃ n, int_digits acc after_digit s = Some n ∧ 0 ≤ n.
Proof.
  intros Hs. revert acc after_digit.
  induction Hs as [|c s Hc%Is_true_true _ IH]; intros acc after_digit Hne Hacc.
  - destruct Hne as [Hne | ->]; [done|]. by exists acc.
  - cbn [int_digits]. rewrite Hc.
    destruct (is_digit_plain c Hc) as (_ & _ & _ & _ & Hv).
    apply IH; [by right|lia].
Qed.

Lemma lstrip_digit c s : is_digit c = true → lstrip (c :: s) = c :: s.
Proof.
  intros (_ & Hsp & _)%is_digit_plain. cbn [lstrip]. by rewrite Hsp.
Qed.

Lemma strip_numeral s :
  s ≠ [] → Forall (λ c, is_digit c) s → strip s = s.
Proof.
  intros Hne Hs. unfold strip.
  destruct s as [|c s]; [done|].
  rewrite lstrip_digit by (apply Is_true_true; by apply Forall_cons in Hs as [? _]).
  assert (∃ d r, reverse (c :: s) = d :: r ∧ is_digit d = true) as (d & r & Hrev & Hd).
  { destruct (reverse (c :: s)) as [|d r] eqn:Hrev.
    - apply (f_equal length) in Hrev. by rewrite length_reverse in Hrev.
    - exists d, r. split; [done|]. apply Is_true_true.
      rewrite Forall_forall in Hs. apply Hs.
      apply elem_of_reverse. rewrite Hrev. by left. }
  rewrite Hrev, lstrip_digit by done. rewrite <- Hrev. apply reverse_involutive.
Qed.

Lemma py_int_numeral name :
  numeral name → ∃ n, py_int name = Some (Ok n) ∧ 0 ≤ n.
Proof.
  intros [Hne Hd]. unfold py_int.
  assert (existsb beyond_ascii (chars name) = false) as ->.
  { apply not_true_is_false. intros (c & Hc & Hb)%existsb_exists.
    rewrite Forall_forall in Hd. apply list_elem_of_In, Hd, Is_true_true in Hc.
    apply is_digit_plain in Hc as (Hc & _). congruence. }
  rewrite strip_numeral by done.
  destruct (chars name) as [|c s] eqn:Hname; [done|].
  destruct (int_digits_numeral (c :: s) 0 false Hd) as (n & Hn & Hpos); [by left|done|].
  exists n. split; [|done]. unfold int_signed.
  apply Forall_cons in Hd as [Hc%Is_true_true _].
  destruct (is_digit_plain c Hc) as (_ & _ & Hminus & Hplus & _).
  rewrite !bool_decide_false by done. by rewrite Hn.
Qed.

(** *** ['{:02d}'] gives at least two characters *)

Lemma append_length (a b : string) :
  String.length (a +:+ b) = (String.length a + String.length b)%nat.
Proof. by rewrite <- !length_chars, chars_app, length_app. Qed.

Lemma pretty_N_go_length x s :
  (String.length s ≤ String.length (pretty_N_go x s))%nat
  ∧ ((0 < x)%N → (S (String.length s) ≤ String.length (pretty_N_go x s))%nat).
Proof.
  revert s. induction (N.lt_wf_0 x) as [x _ IH]. intros s.
  destruct (decide (x = 0%N)) as [->|Hx].
  - rewrite pretty_N_go_0. split; [done|lia].
  - rewrite pretty_N_go_step by lia.
    destruct (IH (x `div` 10)%N (N.div_lt x 10 ltac:(lia) ltac:(lia))
                (String (pretty_N_char (x `mod` 10)) s)) as [Hle _].
    simpl in Hle. split; lia.
Qed.

Lemma pretty_N_length (x : N) :
  (1 ≤ String.length (pretty x))%nat
  ∧ ((10 ≤ x)%N → (2 ≤ String.length (pretty x))%nat).
Proof.
  unfold pretty, pretty_N. case_decide as Hx; [subst; split; [done|lia]|].
  split.
  - apply (pretty_N_go_length x ""). lia.
  - intros Hten. rewrite pretty_N_go_step by lia.
    destruct (pretty_N_go_length (x `div` 10)%N
                (String (pretty_N_char (x `mod` 10)) "")) as [_ Hlt].
    apply Hlt. apply N.div_str_pos. lia.
Qed.

Lemma format_02d_length n : (2 ≤ String.length (format_02d n))%nat.
Proof.
  unfold format_02d. case_bool_decide as Hn.
  - rewrite append_length.
    destruct n as [|p|p]; [done| |lia].
    change (pretty (Z.pos p)) with (pretty (N.pos p)).
    pose proof (proj1 (pretty_N_length (N.pos p))). simpl. lia.
  - destruct n as [|p|p]; [lia| |].
    + change (pretty (Z.pos p)) with (pretty (N.pos p)).
      apply (pretty_N_length (N.pos p)). lia.
    + change (pretty (Z.neg p)) with ("-" +:+ pretty (N.pos p)).
      rewrite append_length.
      pose proof (proj1 (pretty_N_length (N.pos p))). simpl. lia.
Qed.

(** *** [glob] and [sorted] *)

Lemma glob_magic_special c : glob_magic c = true → atom_of c = None.
Proof.
  unfold glob_magic, is_in. intros H%bool_decide_eq_true.
  repeat (apply elem_of_cons in H as [->|H]; [done|]).
  by apply elem_of_nil in H.
Qed.

Lemma glob_digits_literal dir entries :
  literal_path dir → ¬ chars "//" `suffix_of` chars dir →
  glob_digits dir entries
  = Some ((λ e, dir +:+ e.1) <$> filter (λ e, starts_with_digit e.1) entries).
Proof.
  intros Hlit Hsuffix. unfold glob_digits.
  rewrite bool_decide_false by done.
  assert (existsb glob_magic (chars dir) = false) as ->; [|done].
  apply not_true_is_false. intros (c & Hc & Hm)%existsb_exists.
  unfold literal_path in Hlit. rewrite Forall_forall in Hlit.
  destruct (Hlit c) as [a Ha]; [by apply list_elem_of_In|].
  apply glob_magic_special in Hm. congruence.
Qed.

Lemma last_sorted_elem l x : last (sorted l) = Some x → x ∈ l.
Proof.
  intros Hlast. unfold sorted in Hlast.
  rewrite <- (merge_sort_Permutation String.le l).
  rewrite last_lookup in Hlast. by eapply list_elem_of_lookup_2.
Qed.

Lemma last_sorted_None l : last (sorted l) = None → l = [].
Proof.
  intros Hlast. apply last_None in Hlast.
  apply Permutation_nil_r. rewrite <- Hlast. unfold sorted.
  symmetry. apply merge_sort_Permutation.
Qed.

(** *** _make_dir on literal directory names *)

(** X17.  Where the directory name has no character that [re.sub] or
    [glob] reads specially (and does not end in two slashes), and the entries
    that start with a digit are decimal numbers, [_make_dir] does what
    its description says: the number is [00] when no entry starts with a
    digit, and otherwise the successor of [int] of the last entry in
    sorted order, written with at least two digits; the directory
    [experiment_dir + number + '/'] is returned, and created unless it
    exists ([ensure_dir] fails only on a regular file of that name). *)
Theorem make_dir_literal (prefix hparam_string : string) (entries : listing) :
  let experiment_dir := prefix +:+ "/" +:+ hparam_string +:+ "/" in
  let experiment_ids :=
    sorted ((λ e, experiment_dir +:+ e.1)
              <$> filter (λ e, starts_with_digit e.1) entries) in
  literal_path experiment_dir →
  ¬ chars "//" `suffix_of` chars experiment_dir →
  (∀ name kind, (name, kind) ∈ entries → starts_with_digit name = true → numeral name) →
  ∃ number,
    (2 ≤ String.length number)%nat
    ∧ match last experiment_ids with
      | None => number = "00"
      | Some last_id =>
          ∃ name n, last_id = experiment_dir +:+ name ∧ numeral name
                    ∧ py_int name = Some (Ok n) ∧ number = format_02d (n + 1)
      end
    ∧ _make_dir prefix hparam_string entries
      = Some (match ensure_dir number entries with
              | (Ok _, entries') => (Ok (experiment_dir +:+ number +:+ "/"), entries')
              | (Raise e, entries') => (Raise e, entries')
              end)
    ∧ ((number, false) ∉ entries →
       (ensure_dir number entries).1 = Ok tt
       ∧ (number, true) ∈ (ensure_dir number entries).2).
Proof.
  intros experiment_dir experiment_ids Hlit Hsuffix Hentries.
  assert ("/"%char ∈ chars experiment_dir) as Hslash.
  { unfold experiment_dir. rewrite !chars_app. set_unfold. right. by left. }
  assert (∀ number, (number, false) ∉ entries →
            (ensure_dir number entries).1 = Ok tt
            ∧ (number, true) ∈ (ensure_dir number entries).2) as Hensure.
  { intros number Hfile. unfold ensure_dir. case_bool_decide as Hdir; [done|].
    rewrite bool_decide_false by done. simpl. split; [done|].
    apply elem_of_app. right. by left. }
  unfold _make_dir. fold experiment_dir.
  rewrite glob_digits_literal by done. cbn [mbind option_bind]. fold experiment_ids.
  destruct (last experiment_ids) as [last_id|] eqn:Hlast.
  - apply last_sorted_elem in Hlast.
    apply list_elem_of_fmap in Hlast as ([name kind] & -> & Hin).
    apply list_elem_of_filter in Hin as [Hdigit%Is_true_true Hin]. simpl in *.
    pose proof (Hentries name kind Hin Hdigit) as Hnum.
    destruct (py_int_numeral name Hnum) as (n & Hint & _).
    exists (format_02d (n + 1)). split_and!.
    + apply format_02d_length.
    + by exists name, n.
    + rewrite re_sub_empty_literal by (done || by apply numeral_no_slash).
      cbn [mbind option_bind]. rewrite Hint. cbn [mbind option_bind]. done.
    + apply Hensure.
  - exists "00". split_and!; [done..|apply Hensure].
Qed.

Lemma make_dir_literal_witness :
  ∃ number,
    (2 ≤ String.length number)%nat
    ∧ _make_dir "outputs/multi_bibasic_lstm" "lr5.00e-03_hs32x32x32_ctx-p0"
        [("00", true); ("01", true); ("settings.txt", false)]
      = Some (match ensure_dir number
                      [("00", true); ("01", true); ("settings.txt", false)] with
              | (Ok _, entries') =>
                  (Ok ("outputs/multi_bibasic_lstm/lr5.00e-03_hs32x32x32_ctx-p0/"
                       +:+ number +:+ "/"), entries')
              | (Raise e, entries') => (Raise e, entries')
              end).
Proof.
  destruct (make_dir_literal "outputs/multi_bibasic_lstm" "lr5.00e-03_hs32x32x32_ctx-p0"
              [("00", true); ("01", true); ("settings.txt", false)])
    as (number & Hlen & _ & Hrun & _).
  - apply (bool_decide_unpack _). vm_compute. exact I.
  - apply (bool_decide_unpack _). vm_compute. exact I.
  - intros name kind Hin Hdigit.
    repeat (apply elem_of_cons in Hin as [[= -> ->]|Hin];
            [first [discriminate Hdigit | split; [done|by repeat constructor]]|]).
    by apply elem_of_nil in Hin.
  - exists number. split; [exact Hlen|exact Hrun].
Defined.

Example make_dir_third_run :
  _make_dir "outputs/multi_bibasic_lstm" "lr5.00e-03_hs32x32x32_ctx-p0"
    [("00", true); ("01", true); ("settings.txt", false)]
  = Some (Ok "outputs/multi_bibasic_lstm/lr5.00e-03_hs32x32x32_ctx-p0/02/",
          [("00", true); ("01", true); ("settings.txt", false); ("02", true)]).
Proof. vm_compute. reflexivity. Qed.

(** *** _make_dir on a name that is not literal *)

(** C5.  [_make_dir] hands the directory name to [re.sub] as a pattern.
    With a learning rate of 1.0 the name holds [e+00], which as a
    pattern does not match itself: the first call of [dir_getoutputs]
    creates [00/], and the second one, instead of returning [.../01/],
    raises [ValueError] on [int] of the whole path and creates nothing. *)
Theorem make_dir_pattern_not_escaped :
  dir_getoutputs "1.00e+00" [32] 0 "" "m" []
    = Some (Ok "outputs/m/lr1.00e+00_hs32_ctx-p0/00/", [("00", true)])
  ∧ re_sub_empty "outputs/m/lr1.00e+00_hs32_ctx-p0/"
      "outputs/m/lr1.00e+00_hs32_ctx-p0/00"
    = Some "outputs/m/lr1.00e+00_hs32_ctx-p0/00"
  ∧ dir_getoutputs "1.00e+00" [32] 0 "" "m" [("00", true)]
    = Some (Raise (Exn ValueError
              "invalid literal for int() with base 10: 'outputs/m/lr1.00e+00_hs32_ctx-p0/00'"),
            [("00", true)]).
Proof. split_and!; vm_compute; reflexivity. Qed.

End DataOutputsTheory.

(** ** Agents *)

Module AgentsTheory.
Import Agents PyTheory Inputs.

(** *** AgentMeta *)

Lemma check_methods_Ok {member} ams (body : gmap string member) :
  check_methods ams body = Ok tt ↔ ∀ am, am ∈ ams → is_Some (body !! am).
Proof.
  induction ams as [|am ams IH]; simpl.
  - split; [|done]. intros _ am H. by apply elem_of_nil in H.
  - destruct (body !! am) as [m|] eqn:Hm.
    + rewrite IH. split.
      * intros H am' [->|?]%elem_of_cons; [by rewrite Hm|by apply H].
      * intros H am' ?. apply H. by right.
    + split; [done|]. intros H.
      destruct (H am) as [m Hm']; [by left|congruence].
Qed.

Lemma check_methods_Raise {member} ams (body : gmap string member) e :
  check_methods ams body = Raise e →
  ∃ am, am ∈ ams ∧ body !! am = None ∧ e = Exn TypeError ("Agent must implement " +:+ am).
Proof.
  induction ams as [|am ams IH]; simpl; [done|].
  destruct (body !! am) as [m|] eqn:Hm.
  - intros (am' & ? & ? & ?)%IH. exists am'. split; [by right|done].
  - intros [= <-]. exists am. split; [by left|done].
Qed.

Lemma AgentMeta_new_unfold {member}
    (type_new : string → list string → gmap string member → result (class member))
    (name : string) (base : list string) (body : gmap string member) :
  AgentMeta__new__ type_new name base body
  = match check_methods agent_methods body with
    | Ok _ => type_new name base body
    | Raise e => Raise e
    end.
Proof. done. Qed.

(** C9, as stated, fails: with [evaluate], [fit], [load] and [predict]
    all in the body, creating a class with base [bool] raises
    [TypeError], the one of [type.__new__]. *)
Lemma AgentMeta_new_bool_base :
  ¬ (raises TypeError (AgentMeta__new__ type_new_cpython "Agent" ["bool"] srl_agent_body)
     ↔ ∃ am, am ∈ ["evaluate"; "fit"; "load"; "predict"] ∧ srl_agent_body !! am = None).
Proof.
  intros [Hraises _].
  destruct Hraises as (am & Ham & Hnone); [by eexists|].
  repeat (apply elem_of_cons in Ham as [->|Ham]; [done|]).
  by apply elem_of_nil in Ham.
Qed.

(** C9, amended.  When one of [evaluate], [fit], [load], [predict] is
    missing from the class body, creating a class with metaclass
    [AgentMeta] raises [TypeError('Agent must implement ...')] for a
    missing name, whatever [type.__new__] would do (it is not called).
    When the four names are present no other name is required, and the
    outcome is that of [type.__new__(meta, name, base, body)]: the class
    it builds, or the exception it raises.  So [TypeError] is raised
    exactly when a name is missing or [type.__new__] raises it, and a
    class is created exactly when the four names are present and
    [type.__new__] creates it. *)
Theorem AgentMeta_new_requires_four_methods {member}
    (type_new : string → list string → gmap string member → result (class member))
    (name : string) (base : list string) (body : gmap string member) :
  let missing am := am ∈ ["evaluate"; "fit"; "load"; "predict"] ∧ body !! am = None in
  ((∃ am, missing am) →
     ∃ am, missing am
       ∧ ∀ type_new' base',
           AgentMeta__new__ type_new' name base' body
           = Raise (Exn TypeError ("Agent must implement " +:+ am)))
  ∧ ((¬ ∃ am, missing am) →
       AgentMeta__new__ type_new name base body = type_new name base body)
  ∧ (raises TypeError (AgentMeta__new__ type_new name base body)
     ↔ (∃ am, missing am) ∨ raises TypeError (type_new name base body))
  ∧ (∀ cls, AgentMeta__new__ type_new name base body = Ok cls
            ↔ (¬ ∃ am, missing am) ∧ type_new name base body = Ok cls).
Proof.
  intros missing. rewrite AgentMeta_new_unfold.
  destruct (check_methods agent_methods body) as [[]|e] eqn:Hc.
  - pose proof (proj1 (check_methods_Ok _ _) Hc) as Hall.
    assert (¬ ∃ am, missing am) as Hnone.
    { intros (am & Ham & Hnone). destruct (Hall am Ham) as [m Hm]. congruence. }
    split_and!; [done|done| |].
    + split; [by right|]. by intros [?|?].
    + intros cls. split; [done|]. by intros [_ ?].
  - pose proof (check_methods_Raise _ _ _ Hc) as (am & Ham & Hnone & ->).
    assert (∃ am, missing am) as Hsome by (by exists am).
    split_and!.
    + intros _. exists am. split; [done|]. intros type_new' base'.
      by rewrite AgentMeta_new_unfold, Hc.
    + done.
    + split; [by left|]. intros _. by eexists.
    + intros cls. split; [done|]. by intros [? _].
Qed.

(** The body of [SRLAgent] itself has no [evaluate_dataset] and is
    accepted: the class is the one [type.__new__] builds. *)
Lemma AgentMeta_new_witness :
  srl_agent_body !! "evaluate_dataset" = None
  ∧ AgentMeta__new__ type_new_cpython "SRLAgent" [] srl_agent_body
    = Ok (Class "SRLAgent" [] srl_agent_body).
Proof.
  split; [reflexivity|].
  rewrite (proj1 (proj2 (AgentMeta_new_requires_four_methods type_new_cpython
                           "SRLAgent" [] srl_agent_body))); [reflexivity|].
  intros (am & Ham & Hnone).
  repeat (apply elem_of_cons in Ham as [->|Ham]; [done|]).
  by apply elem_of_nil in Ham.
Defined.

(** *** get_tshape *)

Lemma cnf_size_Ok cnf_dict lbl m :
  cnf_size cnf_dict lbl = Ok m ↔ ∃ d, cnf_dict !! lbl = Some d ∧ d !! "size" = Some m.
Proof.
  unfold cnf_size. destruct (cnf_dict !! lbl) as [d|].
  - destruct (d !! "size") as [sz|] eqn:Hsz.
    + split; [intros [= ->]; eauto|]. intros (d' & [= <-] & ?). congruence.
    + split; [done|]. intros (d' & [= <-] & ?). congruence.
  - split; [done|]. by intros (d' & ? & ?).
Qed.

Lemma cnf_size_not_ValueError cnf_dict lbl :
  ¬ raises ValueError (cnf_size cnf_dict lbl).
Proof.
  unfold cnf_size. intros [msg H].
  destruct (cnf_dict !! lbl) as [d|]; [|done].
  by destruct (d !! "size").
Qed.

Lemma get_tshape_ValueError output_labels cnf_dict :
  raises ValueError (get_tshape output_labels cnf_dict)
  ↔ length output_labels ≠ 1%nat ∧ length output_labels ≠ 2%nat.
Proof.
  unfold get_tshape.
  destruct output_labels as [|l1 [|l2 [|l3 ls]]]; [simpl..|].
  - split; [done|]. intros _. by eexists.
  - split; [|by intros [? _]]. intros H. exfalso.
    destruct (cnf_size cnf_dict l1) eqn:H1; simpl in H; [by apply raises_Ok in H|].
    apply (cnf_size_not_ValueError cnf_dict l1). rewrite H1.
    by eapply raises_Raise_any.
  - split; [|by intros [_ ?]]. intros H. exfalso.
    destruct (cnf_size cnf_dict l1) eqn:H1; simpl in H.
    + destruct (cnf_size cnf_dict l2) eqn:H2; simpl in H; [by apply raises_Ok in H|].
      apply (cnf_size_not_ValueError cnf_dict l2). rewrite H2.
      by eapply raises_Raise_any.
    + apply (cnf_size_not_ValueError cnf_dict l1). rewrite H1.
    by eapply raises_Raise_any.
  - cbn [length]. split; [done|]. intros _.
    destruct (Z.eqb_spec (Z.of_nat (S (S (S (length ls))))) 1); [lia|].
    destruct (Z.eqb_spec (Z.of_nat (S (S (S (length ls))))) 2); [lia|].
    by eexists.
Qed.

Lemma SRLAgent_init_rnn target_dir restore input_labels target_labels ev
    recon_depth cnf_dict agent :
  SRLAgent__init__ target_dir restore input_labels target_labels ev recon_depth cnf_dict
    = Ok agent →
  (length target_labels = 1%nat ∧ ∃ ts, rnn agent = Some (Labeler ts))
  ∨ (length target_labels = 2%nat ∧ ∃ ts, rnn agent = Some (DualLabeler ts recon_depth)).
Proof.
  unfold SRLAgent__init__.
  destruct (get_xshape input_labels cnf_dict) as [xs|]; simpl; [|done].
  destruct (get_tshape target_labels cnf_dict) as [ts|e] eqn:Ht; simpl; [|done].
  destruct (comprehension _ target_labels) as [sizes|]; simpl; [|done].
  intros [= <-]. unfold single_task, dual_task. simpl.
  destruct target_labels as [|l1 [|l2 [|l3 ls]]]; [simpl..|].
  - done.
  - left. eauto.
  - right. eauto.
  - exfalso. revert Ht. unfold get_tshape. cbn [length].
    destruct (Z.eqb_spec (Z.of_nat (S (S (S (length ls))))) 1); [lia|].
    by destruct (Z.eqb_spec (Z.of_nat (S (S (S (length ls))))) 2); [lia|].
Qed.

(** C10.  [get_tshape] raises [ValueError] exactly when the number of
    output labels is neither 1 nor 2.  With one label of configured size
    [m] it returns [[None, None, m]]; with two labels of configured sizes
    [m1] and [m2] it returns [[None, None, max(m1, m2), 2]].  Hence when
    [SRLAgent.__init__] completes there are one or two target labels, and
    [self.rnn] is a [Labeler] in the first case and a [DualLabeler] in the
    second. *)
Theorem get_tshape_one_or_two_labels (output_labels : list string)
    (cnf_dict : gmap string (gmap string Z)) :
  (raises ValueError (get_tshape output_labels cnf_dict)
     ↔ length output_labels ≠ 1%nat ∧ length output_labels ≠ 2%nat)
  ∧ (∀ lbl d m,
       output_labels = [lbl] → cnf_dict !! lbl = Some d → d !! "size" = Some m →
       get_tshape output_labels cnf_dict = Ok [None; None; Some m])
  ∧ (∀ lbl1 lbl2 d1 d2 m1 m2,
       output_labels = [lbl1; lbl2] →
       cnf_dict !! lbl1 = Some d1 → d1 !! "size" = Some m1 →
       cnf_dict !! lbl2 = Some d2 → d2 !! "size" = Some m2 →
       get_tshape output_labels cnf_dict = Ok [None; None; Some (Z.max m1 m2); Some 2])
  ∧ (∀ target_dir restore input_labels ev recon_depth agent,
       SRLAgent__init__ target_dir restore input_labels output_labels ev
         recon_depth cnf_dict = Ok agent →
       (length output_labels = 1%nat ∧ ∃ ts, rnn agent = Some (Labeler ts))
       ∨ (length output_labels = 2%nat
          ∧ ∃ ts, rnn agent = Some (DualLabeler ts recon_depth))).
Proof.
  split_and!.
  - apply get_tshape_ValueError.
  - intros lbl d m -> Hd Hm. unfold get_tshape. simpl.
    by rewrite (proj2 (cnf_size_Ok cnf_dict lbl m) (ex_intro _ d (conj Hd Hm))).
  - intros lbl1 lbl2 d1 d2 m1 m2 -> Hd1 Hm1 Hd2 Hm2. unfold get_tshape. simpl.
    rewrite (proj2 (cnf_size_Ok cnf_dict lbl1 m1) (ex_intro _ d1 (conj Hd1 Hm1))).
    by rewrite (proj2 (cnf_size_Ok cnf_dict lbl2 m2) (ex_intro _ d2 (conj Hd2 Hm2))).
  - intros. by eapply SRLAgent_init_rnn.
Qed.

Lemma get_tshape_witness :
  get_tshape ["IOB"; "T"] cnf_dict = Ok [None; None; Some 60; Some 2].
Proof.
  apply (proj1 (proj2 (proj2 (get_tshape_one_or_two_labels ["IOB"; "T"] cnf_dict)))
           "IOB" "T" {[ "size" := 60 ]} {[ "size" := 37 ]} 60 37);
    reflexivity.
Defined.

(** *** SRLAgent.evaluate *)

Lemma try_finally_return {S R} (body : block S R) (f : S → R) s :
  (try_finally body (λ s, (Returned (f s), s)) s).1 = Returned (f (body s).2).
Proof. unfold try_finally. by destruct (body s). Qed.

Lemma evaluate_unfold self I Y L filename :
  evaluate self I Y L filename
  = Ok (ev_f1 (try_except (evaluate_try self I L filename) AttributeError
                 (evaluate_except self) {| ev_f1 := None; ev_Y := Y |}).2).
Proof. unfold evaluate, evaluate_finally. by rewrite try_finally_return. Qed.

(** C8.  [evaluate] never raises: whatever happens in its [try] block,
    the call returns the value of [f1].  When [self.evaluator] is not
    defined, the handler does raise a new [AttributeError] (shown here
    for the single task, where nothing fails before the attribute is
    read), [finally: return f1] discards it, and the call returns
    [None]. *)
Theorem evaluate_never_raises (self : SRLAgent) (I Y L : ndarray) (filename : string) :
  (∃ f1, evaluate self I Y L filename = Ok f1)
  ∧ (evaluator self = None → evaluate self I Y L filename = Ok None)
  ∧ (evaluator self = None → dual_task self = false →
       ∃ msg, (try_except (evaluate_try self I L filename) AttributeError
                 (evaluate_except self) {| ev_f1 := None; ev_Y := Y |}).1
              = Raised (Exn AttributeError msg)).
Proof.
  rewrite evaluate_unfold. split_and!.
  - eauto.
  - intros Hev. f_equal.
    unfold try_except, evaluate_try, seq, eval, evaluate_except. rewrite Hev.
    simpl.
    destruct (dual_task self); [destruct (last_item Y) as [Y'|[[] msg]]|]; done.
  - intros Hev Hdual.
    unfold try_except, evaluate_try, seq, eval, evaluate_except.
    rewrite Hev, Hdual. simpl. eauto.
Qed.

Lemma evaluate_never_raises_witness :
  evaluate (agent_of ["IOB"] None) (Seq []) (Seq []) (Seq []) "valid" = Ok None.
Proof.
  apply (proj1 (proj2 (evaluate_never_raises (agent_of ["IOB"] None)
                         (Seq []) (Seq []) (Seq []) "valid"))).
  reflexivity.
Defined.

(** C4.  On an agent whose evaluator is defined, [evaluate] returns the
    F1 that [evaluate_npyarray] computes with script version ['04'] from
    the file name, [I], [L], the last target label and the predictions,
    which are [Y[-1]] in the dual task and [Y] otherwise. *)
Theorem evaluate_returns_script_f1 (self : SRLAgent) (ev : ConllEvaluator)
    (I Y L Y' : ndarray) (filename : string) (f1 : score) :
  evaluator self = Some ev →
  (if dual_task self then last_item Y else Ok Y) = Ok Y' →
  evaluate_npyarray ev filename I Y' L (last_slice (target_labels self)) "04" = Ok f1 →
  evaluate self I Y L filename = Ok (Some f1).
Proof.
  intros Hev HY Hf1. rewrite evaluate_unfold. f_equal.
  unfold try_except, evaluate_try, seq, eval. simpl.
  rewrite HY, Hev. simpl. by rewrite Hf1.
Qed.

Lemma evaluate_returns_script_f1_witness :
  evaluate (agent_of ["T"; "IOB"] (Some (fixed_evaluator (Q2Qc (87 # 100)))))
    (Seq []) Y_dual (Seq []) "valid"
  = Ok (Some (Q2Qc (87 # 100))).
Proof.
  apply (evaluate_returns_script_f1 _ (fixed_evaluator (Q2Qc (87 # 100)))
           _ _ _ (Seq [Seq [Scalar 3; Scalar 4]]));
    reflexivity.
Defined.

(** *** int(a / b) *)

Lemma int_div_small a b :
  Z.abs a < 2 ^ 53 → b ≠ 0 → int_div a b = Ok (a `quot` b).
Proof.
  intros Ha Hb. unfold int_div.
  by destruct (true_div_small a b Ha Hb) as (x & -> & <-).
Qed.

Lemma int_div_at_least_one a b q :
  int_div a b = Ok q → 1 ≤ q → b ≠ 0 ∧ (Z.abs b < 2 ^ 53 → 1 ≤ a `quot` b).
Proof.
  unfold int_div. destruct (true_div a b) as [x|e] eqn:Hdiv; [|done].
  intros [= <-] Hq. split.
  - intros ->. by revert Hdiv.
  - by apply (true_div_at_least_one a b x).
Qed.

(** *** SRLAgent.fit: the checkpoint rule *)

Section Checkpoint.
Variable self : SRLAgent.
Variable best0 : score.

Local Abbreviation path := (session_path self).
Local Abbreviation advances := (advances path best0).
Local Abbreviation keeps_track := (keeps_track path best0).

Lemma advances_refl s : advances s s.
Proof. split; [done|]. apply Qcle_refl. Qed.

Lemma advances_trans s1 s2 s3 : advances s1 s2 → advances s2 s3 → advances s1 s3.
Proof.
  intros [H12 L12] [H23 L23]. split; [auto|]. by eapply Qcle_trans.
Qed.

Lemma advances_same s s' :
  trace s' = trace s → best_validation_rate s' = best_validation_rate s →
  advances s s'.
Proof.
  intros Ht Hb. split.
  - unfold tracked. by rewrite Ht, Hb.
  - rewrite Hb. apply Qcle_refl.
Qed.

Lemma advances_log e s :
  (∀ f, e ≠ Validated f) → (∀ p, e ≠ Save p) → advances s (log e s).
Proof.
  intros HV HS. split; [|apply Qcle_refl].
  unfold tracked, audit. simpl. rewrite foldl_app. intros ->. simpl.
  destruct e as [| |p|f|p| |]; try done; [by destruct (HV f)|by destruct (HS p)].
Qed.

Lemma keeps_track_exec f : (∀ s, advances s (f s)) → keeps_track (exec f).
Proof. intros H s c s' [= <- <-]. apply H. Qed.

Lemma keeps_track_seq b1 b2 :
  keeps_track b1 → keeps_track b2 → keeps_track (b1 ;;; b2).
Proof.
  intros H1 H2 s c s'. unfold seq.
  destruct (b1 s) as [[|v|e] s1] eqn:E1.
  - intros E2. eapply advances_trans; [by eapply H1|by eapply H2].
  - intros [= <- <-]. by eapply H1.
  - intros [= <- <-]. by eapply H1.
Qed.

Lemma keeps_track_eval {A} (r : result A) k :
  (∀ a, keeps_track (k a)) → keeps_track (eval r k).
Proof.
  intros H s c s'. unfold eval. destruct r as [a|e].
  - apply H.
  - intros [= <- <-]. apply advances_refl.
Qed.

Lemma keeps_track_validation f rest :
  keeps_track rest →
  keeps_track (exec (log (Validated f)) ;;; checkpoint self f ;;; rest).
Proof.
  intros Hrest s c s'. unfold seq at 1. unfold exec at 1. unfold seq.
  unfold checkpoint. simpl.
  fold (improves (best_validation_rate s) f).
  destruct (improves (best_validation_rate s) f) eqn:Himp; simpl; intros Hr.
  - eapply advances_trans; [|by eapply Hrest]. split.
    + unfold tracked, audit. simpl. rewrite <- !app_assoc, foldl_app.
      intros ->. simpl. rewrite Himp. simpl.
      by rewrite bool_decide_true.
    + simpl. apply andb_prop in Himp as [_ Hlt%bool_decide_eq_true].
      by apply Qclt_le_weak.
  - eapply advances_trans; [|by eapply Hrest]. split; [|apply Qcle_refl].
    unfold tracked, audit. simpl. rewrite foldl_app.
    intros ->. simpl. by rewrite Himp.
Qed.

Lemma keeps_track_print_epoch : keeps_track print_epoch.
Proof.
  intros s c s'. unfold print_epoch.
  destruct (epochs s =? 0); [|destruct (f1_train s)];
    intros [= <- <-]; apply advances_refl.
Qed.

Lemma keeps_track_fit_epoch bounds it : keeps_track (fit_epoch self bounds it).
Proof.
  destruct bounds as [lb ub]. intros s c s'. unfold fit_epoch.
  apply keeps_track_eval. intros q. destruct (epochs s <? q).
  - apply keeps_track_seq.
    + apply keeps_track_exec. intros s1. by apply advances_same.
    + apply keeps_track_eval. intros f.
      apply keeps_track_validation, keeps_track_print_epoch.
  - apply keeps_track_exec. intros s1. apply advances_refl.
Qed.

Lemma keeps_track_fit_display it : keeps_track (fit_display it).
Proof.
  intros s c s'. unfold fit_display. destruct (step s `mod` 10 =? 0).
  - apply keeps_track_eval. intros f.
    repeat apply keeps_track_seq; apply keeps_track_exec;
      intros s1; by apply advances_same.
  - intros [= <- <-]. apply advances_refl.
Qed.

Lemma keeps_track_fit_iteration bounds it :
  keeps_track (fit_iteration self bounds it).
Proof.
  unfold fit_iteration. repeat apply keeps_track_seq.
  - apply keeps_track_eval. intros rows. apply keeps_track_exec.
    intros s. by apply advances_same.
  - apply keeps_track_eval. intros [loss error].
    apply keeps_track_eval. intros _. apply keeps_track_exec.
    intros s. by apply advances_same.
  - apply keeps_track_fit_display.
  - apply keeps_track_fit_epoch.
  - apply keeps_track_exec. intros s. by apply advances_same.
Qed.

Lemma keeps_track_fit_loop bounds its : keeps_track (fit_loop self bounds its).
Proof.
  induction its as [|it its IH]; intros s c s'; simpl.
  - destruct (converged s); intros [= <- <-]; apply advances_refl.
  - destruct (should_stop it || converged s).
    + intros [= <- <-]. apply advances_refl.
    + apply keeps_track_seq; [apply keeps_track_fit_iteration|apply IH].
Qed.

Lemma keeps_track_fit_try bounds its : keeps_track (fit_try self bounds its).
Proof.
  intros s c s'. unfold fit_try, try_finally, try_except.
  destruct (fit_loop self bounds its s) as [c1 s1] eqn:Hloop.
  pose proof (keeps_track_fit_loop _ _ _ _ _ Hloop) as H1.
  assert (advances s1 (log Join (log RequestStop s1))) as H2.
  { eapply advances_trans; by apply advances_log. }
  destruct c1 as [|v|e]; [| |destruct (is_class OutOfRangeError e)];
    simpl; intros [= <- <-]; by eapply advances_trans.
Qed.
End Checkpoint.

(** *** SRLAgent.fit: the whole run *)

Lemma fit_try_unfold self bounds its s :
  fit_try self bounds its s
  = (match (fit_loop self bounds its s).1 with
     | Raised e => if is_class OutOfRangeError e then Normal else Raised e
     | c => c
     end,
     log Join (log RequestStop (fit_loop self bounds its s).2)).
Proof.
  unfold fit_try, try_finally, try_except.
  destruct (fit_loop self bounds its s) as [[|v|[cls msg]] s1]; [done..|].
  by destruct cls.
Qed.

Lemma fit_loop_prefix self bounds its1 its2 s :
  (best_validation_rate (fit_loop self bounds its1 s).2
   ≤ best_validation_rate (fit_loop self bounds (its1 ++ its2) s).2)%Qc.
Proof.
  revert s. induction its1 as [|it its1 IH]; intros s.
  - destruct (fit_loop self bounds ([] ++ its2) s) as [c s'] eqn:Hrun.
    apply (keeps_track_fit_loop self 0%Qc) in Hrun as [_ Hle].
    simpl. by destruct (converged s).
  - simpl. destruct (should_stop it || converged s); [apply Qcle_refl|].
    unfold seq. destruct (fit_iteration self bounds it s) as [[|v|e] s1];
      [apply IH|apply Qcle_refl..].
Qed.

Lemma fit_enter_tracked self restored :
  tracked (session_path self) (initial_best self restored) (fit_enter self restored).2
  ∧ best_validation_rate (fit_enter self restored).2 = initial_best self restored.
Proof.
  unfold fit_enter, initial_best.
  destruct (_restore_session self); [destruct restored|]; done.
Qed.

(** What the statements of lines 542-556 do once an epoch has completed
    and the validation has answered [f]. *)
Lemma fit_epoch_validated self lb ub it s q f :
  int_div (chunk_size s) (ub - lb) = Ok q → epochs s < q →
  f1_valid_eval it = Ok f →
  let s' := (fit_epoch self (lb, ub) it s).2 in
  trace s' = trace s ++ Validated f ::
               (if improves (best_validation_rate s) f
                then [Save (session_path self)] else [])
  ∧ best_validation_rate s'
    = (if improves (best_validation_rate s) f then f else best_validation_rate s)
  ∧ epochs s' = q ∧ chunk_size s' = chunk_size s.
Proof.
  intros Hq Hlt Hf. unfold fit_epoch, eval. rewrite Hq.
  destruct (Z.ltb_spec (epochs s) q); [|lia].
  unfold seq, exec. rewrite Hf. unfold checkpoint, seq, exec. cbn [trace log set_epochs
    best_validation_rate].
  fold (improves (best_validation_rate s) f).
  destruct (improves (best_validation_rate s) f); unfold print_epoch; cbn;
    destruct (q =? 0); try destruct (f1_train s); cbn;
    by rewrite <- ?app_assoc.
Qed.

(** Every run of lines 542-556 either leaves the trace and the best
    rate alone, or is one of the runs above. *)
Lemma fit_epoch_trace self lb ub it s :
  let s' := (fit_epoch self (lb, ub) it s).2 in
  chunk_size s' = chunk_size s
  ∧ ((trace s' = trace s ∧ best_validation_rate s' = best_validation_rate s)
     ∨ ∃ f, f1_valid_eval it = Ok f ∧ epochs s < epochs s'
            ∧ int_div (chunk_size s) (ub - lb) = Ok (epochs s')).
Proof.
  destruct (int_div (chunk_size s) (ub - lb)) as [q|e] eqn:Hq.
  - destruct (Z.lt_ge_cases (epochs s) q) as [Hlt|Hge].
    + destruct (f1_valid_eval it) as [f|e] eqn:Hf.
      * destruct (fit_epoch_validated self lb ub it s q f Hq Hlt Hf)
          as (_ & _ & He & Hc).
        cbv zeta. split; [done|]. right. exists f. by rewrite He.
      * unfold fit_epoch, eval. rewrite Hq.
        destruct (Z.ltb_spec (epochs s) q); [|lia].
        unfold seq, exec. rewrite Hf. cbn. split; [done|]. by left.
    + unfold fit_epoch, eval. rewrite Hq.
      destruct (Z.ltb_spec (epochs s) q); [lia|]. cbn. split; [done|]. by left.
  - unfold fit_epoch, eval. rewrite Hq. cbn. split; [done|]. by left.
Qed.

Lemma fit_iteration_unfold self bounds it s :
  fit_iteration self bounds it s
  = match stream it with
    | Raise e => (Raised e, s)
    | Ok rows =>
        let s1 := set_chunk_size (chunk_size s + rows) s in
        match run_ops it with
        | Raise e => (Raised e, s1)
        | Ok (loss, error) =>
            match decoder_fn it with
            | Raise e => (Raised e, s1)
            | Ok _ =>
                let s2 := set_totals (total_loss s1 + loss)%Qc
                            (total_error s1 + error)%Qc s1 in
                match fit_display it s2 with
                | (Normal, s3) =>
                    match fit_epoch self bounds it s3 with
                    | (Normal, s4) => (Normal, set_step (step s4 + 1) s4)
                    | r => r
                    end
                | r => r
                end
            end
        end
    end.
Proof.
  unfold fit_iteration, seq, eval, exec.
  destruct (stream it) as [rows|e]; [|done]. cbn.
  destruct (run_ops it) as [[loss error]|e]; [|done].
  destruct (decoder_fn it) as [[]|e]; [|done]. cbn.
  destruct (fit_display it _) as [[|v|e] s3]; [|done..].
  by destruct (fit_epoch self bounds it s3) as [[|v|e] s4].
Qed.

Lemma fit_display_frame it s :
  let s' := (fit_display it s).2 in
  trace s' = trace s ∧ best_validation_rate s' = best_validation_rate s
  ∧ epochs s' = epochs s ∧ chunk_size s' = chunk_size s.
Proof.
  unfold fit_display. destruct (step s `mod` 10 =? 0); [|done].
  unfold eval. by destruct (f1_train_eval it).
Qed.

Lemma fit_display_Normal it s :
  (step s `mod` 10 = 0 → ∃ f', f1_train_eval it = Ok f') →
  (fit_display it s).1 = Normal.
Proof.
  intros Hdue. unfold fit_display.
  destruct (Z.eqb_spec (step s `mod` 10) 0) as [Hs|]; [|done].
  by destruct (Hdue Hs) as [f' ->].
Qed.

(** A turn of the loop that fetches and decodes its batch, displays if
    it is due, completes an epoch and gets [f] from the validation. *)
Lemma fit_iteration_validated self lb ub it s rows loss error q f :
  stream it = Ok rows → run_ops it = Ok (loss, error) → decoder_fn it = Ok tt →
  (step s `mod` 10 = 0 → ∃ f', f1_train_eval it = Ok f') →
  int_div (chunk_size s + rows) (ub - lb) = Ok q → epochs s < q →
  f1_valid_eval it = Ok f →
  let s' := (fit_iteration self (lb, ub) it s).2 in
  trace s' = trace s ++ Validated f ::
               (if improves (best_validation_rate s) f
                then [Save (session_path self)] else [])
  ∧ best_validation_rate s'
    = (if improves (best_validation_rate s) f then f else best_validation_rate s)
  ∧ epochs s' = q.
Proof.
  intros Hrows Hops Hdec Hdue Hq Hlt Hf. cbv zeta.
  rewrite fit_iteration_unfold, Hrows, Hops, Hdec. cbv zeta.
  set (s2 := set_totals _ _ _).
  pose proof (fit_display_frame it s2) as (Ht & Hb & He & Hc).
  pose proof (fit_display_Normal it s2 Hdue) as Hn.
  destruct (fit_display it s2) as [c s3]. cbn [fst snd] in *. subst c.
  pose proof (fit_epoch_validated self lb ub it s3 q f) as Hepoch.
  cbv zeta in Hepoch. rewrite Hc, He, Ht, Hb in Hepoch.
  destruct (Hepoch Hq Hlt Hf) as (Ht' & Hb' & He' & _).
  destruct (fit_epoch self (lb, ub) it s3) as [[|v|e] s4]; cbn in *; done.
Qed.

(** Any turn of the loop: the trace and the best rate are as before, or
    an epoch completed, the validation answered and the turn is as
    above. *)
Lemma fit_iteration_trace self lb ub it s :
  let s' := (fit_iteration self (lb, ub) it s).2 in
  (trace s' = trace s ∧ best_validation_rate s' = best_validation_rate s)
  ∨ ∃ f, f1_valid_eval it = Ok f ∧ epochs s < epochs s'
         ∧ int_div (chunk_size s') (ub - lb) = Ok (epochs s')
         ∧ trace s' = trace s ++ Validated f ::
                        (if improves (best_validation_rate s) f
                         then [Save (session_path self)] else [])
         ∧ best_validation_rate s'
           = (if improves (best_validation_rate s) f then f
              else best_validation_rate s).
Proof.
  cbv zeta. rewrite fit_iteration_unfold.
  destruct (stream it) as [rows|e]; [|by left]. cbv zeta.
  destruct (run_ops it) as [[loss error]|e]; [|by left].
  destruct (decoder_fn it) as [[]|e]; [|by left].
  set (s2 := set_totals _ _ _).
  pose proof (fit_display_frame it s2) as (Ht & Hb & He & Hc).
  destruct (fit_display it s2) as [c s3]. cbn [fst snd] in *.
  assert (trace s3 = trace s ∧ best_validation_rate s3 = best_validation_rate s
          ∧ epochs s3 = epochs s) as (Ht3 & Hb3 & He3) by done.
  destruct c as [|v|e]; [|by left..].
  pose proof (fit_epoch_trace self lb ub it s3) as [Hc4 Hcases].
  destruct Hcases as [[Ht4 Hb4]|(f & Hf & Hlt & Hq)].
  - left. destruct (fit_epoch self (lb, ub) it s3) as [[|v|e] s4];
      cbn in *; split; congruence.
  - right. exists f.
    destruct (fit_epoch_validated self lb ub it s3 _ f Hq Hlt Hf)
      as (Ht4 & Hb4 & _ & _).
    rewrite Ht3, Hb3 in *. rewrite He3 in Hlt. rewrite <- Hc4 in Hq.
    by destruct (fit_epoch self (lb, ub) it s3) as [[|v|e] s4]; cbn in *.
Qed.

(** C1.  Along any run of [fit] the checkpoint is saved, at
    [target_dir + 'model.ckpt'], exactly after a validation whose F1 is
    truthy and above the best validation rate at that moment, and that F1
    then becomes the best validation rate: the observer [audit] accepts
    the trace and ends on the final [best_validation_rate].  The rate
    starts at [-1] for a fresh session and at the restored F1 otherwise,
    and it never decreases: it is at least its initial value, and a
    longer run never ends below a shorter one.

    The validations in the trace are those of the loop.  A turn that
    fetches and decodes its batch, displays when a display is due,
    completes an epoch and gets [f] from
    [next(self._evaluate_dataset(self.session))] records [f]; it then
    saves at [target_dir + 'model.ckpt'] and makes [f] the best rate
    when [f] is truthy and above the best rate, and it leaves the best
    rate alone and saves nothing when [f] is not.  Every other turn
    leaves the trace and the best rate as they are. *)
Theorem checkpoint_saved_on_improvement (self : SRLAgent)
    (restored : result score) (bounds : Z * Z) (its its' : list iteration) :
  let run its :=
    (fit self {| restored_f1 := restored; train_bounds := bounds;
                 iterations := its |}).2 in
  let checkpointed f s s' :=
    trace s' = trace s ++ Validated f ::
                 (if truthy f && bool_decide (best_validation_rate s < f)%Qc
                  then [Save (target_dir self +:+ "model.ckpt")] else [])
    ∧ best_validation_rate s'
      = (if truthy f && bool_decide (best_validation_rate s < f)%Qc
         then f else best_validation_rate s) in
  audit (session_path self) (initial_best self restored) (trace (run its))
    = Some (best_validation_rate (run its), false)
  ∧ (initial_best self restored ≤ best_validation_rate (run its))%Qc
  ∧ (best_validation_rate (run its) ≤ best_validation_rate (run (its ++ its')))%Qc
  ∧ (_restore_session self = false → initial_best self restored = (- 1)%Qc)
  ∧ (∀ f1, _restore_session self = true → restored = Ok f1 →
       initial_best self restored = f1)
  ∧ (∀ it s rows loss error q f,
       stream it = Ok rows → run_ops it = Ok (loss, error) → decoder_fn it = Ok tt →
       (step s `mod` 10 = 0 → ∃ f', f1_train_eval it = Ok f') →
       int_div (chunk_size s + rows) (bounds.2 - bounds.1) = Ok q → epochs s < q →
       f1_valid_eval it = Ok f →
       let s' := (fit_iteration self bounds it s).2 in
       checkpointed f s s' ∧ epochs s' = q)
  ∧ (∀ it s,
       let s' := (fit_iteration self bounds it s).2 in
       (trace s' = trace s ∧ best_validation_rate s' = best_validation_rate s)
       ∨ ∃ f, f1_valid_eval it = Ok f ∧ epochs s < epochs s'
              ∧ int_div (chunk_size s') (bounds.2 - bounds.1) = Ok (epochs s')
              ∧ checkpointed f s s').
Proof.
  intros run checkpointed. subst run checkpointed. unfold fit. simpl.
  pose proof (fit_enter_tracked self restored) as [Htr Hbest].
  destruct (fit_enter self restored) as [c s0] eqn:Henter. simpl in *.
  assert (∀ its,
    advances (session_path self) (initial_best self restored) s0
      (match c with
       | Normal => fit_try self bounds its s0
       | _ => (c, s0)
       end).2) as Hadv.
  { intros l. destruct c; [|apply advances_refl..].
    destruct (fit_try self bounds l s0) as [c1 s1] eqn:Htry.
    by eapply keeps_track_fit_try. }
  split_and!.
  - destruct c; by apply Hadv.
  - rewrite <- Hbest. destruct c; by apply Hadv.
  - destruct c; [|apply Qcle_refl..].
    rewrite !fit_try_unfold. simpl. apply fit_loop_prefix.
  - unfold initial_best. by intros ->.
  - unfold initial_best. by intros f1 -> ->.
  - destruct bounds as [lb ub]. intros it s rows loss error q f ???????.
    by destruct (fit_iteration_validated self lb ub it s rows loss error q f)
      as (? & ? & ?).
  - destruct bounds as [lb ub]. intros it s.
    by apply (fit_iteration_trace self lb ub it s).
Qed.

Lemma checkpoint_saved_on_improvement_witness :
  let self := agent_of ["IOB"] None in
  let its := replicate 19 (turn 250 (Q2Qc (3 # 5))) in
  let it := turn 250 (Q2Qc (3 # 5)) in
  let s := (fit_loop self (0, 5000) its (fit_init (- 1)%Qc [RunInit; StartQueueRunners])).2 in
  let s' := (fit_iteration self (0, 5000) it s).2 in
  initial_best self (Ok (Q2Qc (1 # 2))) = (- 1)%Qc
  ∧ audit "outputs/00/model.ckpt" (- 1)%Qc (trace (fit self (run_env (its ++ [it]))).2)
    = Some (best_validation_rate (fit self (run_env (its ++ [it]))).2, false)
  ∧ trace s' = trace s ++ [Validated (Q2Qc (3 # 5)); Save "outputs/00/model.ckpt"]
  ∧ best_validation_rate s' = Q2Qc (3 # 5)
  ∧ epochs s' = 1.
Proof.
  intros self its it s s'.
  destruct (checkpoint_saved_on_improvement self (Ok (Q2Qc (1 # 2))) (0, 5000)
              (its ++ [it]) [])
    as (Haudit & _ & _ & Hfresh & _ & Hturn & _).
  split; [apply Hfresh; reflexivity|]. split; [exact Haudit|].
  destruct (Hturn it s 250 (Q2Qc (3 # 2)) (Q2Qc (1 # 4)) 1 (Q2Qc (3 # 5)))
    as [[Htrace Hrate] Hepochs];
    [reflexivity|reflexivity|reflexivity| |vm_compute; reflexivity
    |vm_compute; reflexivity|reflexivity|].
  { intros _. by eexists. }
  assert (truthy (Q2Qc (3 # 5))
          && bool_decide (best_validation_rate s < Q2Qc (3 # 5))%Qc = true) as Himp
    by (vm_compute; reflexivity).
  rewrite Himp in Htrace, Hrate. by split_and!.
Defined.

(** C7.  Once [fit] has entered its [try] statement, it requests the
    coordinator to stop and joins the threads as its last two effects,
    however the loop ends: if the loop falls through (the coordinator
    asked to stop, or [eps < 1e-3]) or raises [OutOfRangeError], [fit]
    ends normally; any other exception of the loop is raised again after
    the two effects. *)
Theorem fit_always_stops_and_joins (self : SRLAgent) (env : fit_env) (s0 : fit_state) :
  fit_enter self (restored_f1 env) = (Normal, s0) →
  let loop := fit_loop self (train_bounds env) (iterations env) s0 in
  trace (fit self env).2 = trace loop.2 ++ [RequestStop; Join]
  ∧ (loop.1 = Normal → (fit self env).1 = Normal)
  ∧ (∀ msg, loop.1 = Raised (Exn OutOfRangeError msg) → (fit self env).1 = Normal)
  ∧ (∀ e, loop.1 = Raised e → exn_cls e ≠ OutOfRangeError →
       (fit self env).1 = Raised e).
Proof.
  intros Henter loop. subst loop. unfold fit. rewrite Henter, fit_try_unfold.
  simpl. split_and!.
  - by rewrite <- app_assoc.
  - by intros ->.
  - by intros msg ->.
  - intros [cls msg] -> Hcls. unfold is_class. simpl in *. by destruct cls.
Qed.

Lemma fit_always_stops_and_joins_witness :
  let r := fit (agent_of ["IOB"] None) (run_env (replicate 12 (turn 250 (Q2Qc (3 # 5))))) in
  r.1 = Normal ∧ ∃ tr, trace r.2 = tr ++ [RequestStop; Join].
Proof.
  pose proof (fit_always_stops_and_joins (agent_of ["IOB"] None)
                (run_env (replicate 12 (turn 250 (Q2Qc (3 # 5)))))
                (fit_init (- 1)%Qc [RunInit; StartQueueRunners]) eq_refl)
    as (Htrace & _ & Hout & _).
  split.
  - eapply Hout. vm_compute. reflexivity.
  - eexists. exact Htrace.
Defined.

(** Three runs of a fresh session on 5000 propositions, in batches of
    250.  After 22 turns the queue is exhausted: one epoch was validated
    at turn 20 and its F1, above [-1], was saved.  With batches without
    error [eps] is [0] after the tenth turn and the loop stops there.  A
    failing [session.run] is raised again, after the stop and the join. *)
Example fit_exhausted :
  let r := fit (agent_of ["IOB"] None) (run_env (replicate 22 (turn 250 (Q2Qc (3 # 5))))) in
  r.1 = Normal
  ∧ trace r.2 = [RunInit; StartQueueRunners; Validated (Q2Qc (3 # 5));
                 Save "outputs/00/model.ckpt"; RequestStop; Join]
  ∧ best_validation_rate r.2 = Q2Qc (3 # 5).
Proof. vm_compute. split_and!; reflexivity. Qed.

Example fit_converged :
  let r := fit (agent_of ["IOB"] None) (run_env (replicate 22 exact_turn)) in
  r.1 = Normal ∧ step r.2 = 11
  ∧ trace r.2 = [RunInit; StartQueueRunners; RequestStop; Join].
Proof. vm_compute. split_and!; reflexivity. Qed.

Example fit_failed :
  let r := fit (agent_of ["IOB"] None)
             (run_env [turn 250 (Q2Qc (3 # 5)); failing_turn; turn 250 (Q2Qc (3 # 5))]) in
  r.1 = Raised (Exn (OtherError "InvalidArgumentError") "shape mismatch")
  ∧ trace r.2 = [RunInit; StartQueueRunners; RequestStop; Join].
Proof. vm_compute. split_and!; reflexivity. Qed.

End AgentsTheory.


(** ** Agents: further properties *)

Module AgentsProperties.
Import Agents PyTheory Inputs AgentsTheory.

(** *** _ctx_p *)

(** X1.  [_ctx_p] is 1, 2 or 3 and depends only on which labels occur:
    it is 3 exactly when the four labels at distances 2 and 3 occur, and
    1 exactly when one of the two labels at distance 2 is missing, so the
    labels at distance 3 count for nothing without those at distance
    2. *)
Theorem ctx_p_window (input_labels : list string) :
  1 ≤ _ctx_p input_labels ≤ 3
  ∧ (_ctx_p input_labels = 3
     ↔ "FORM_CTX_P-2" ∈ input_labels ∧ "FORM_CTX_P+2" ∈ input_labels
       ∧ "FORM_CTX_P-3" ∈ input_labels ∧ "FORM_CTX_P+3" ∈ input_labels)
  ∧ (_ctx_p input_labels = 1
     ↔ ¬ ("FORM_CTX_P-2" ∈ input_labels ∧ "FORM_CTX_P+2" ∈ input_labels))
  ∧ (∀ labels', (∀ lbl, lbl ∈ labels' ↔ lbl ∈ input_labels) →
       _ctx_p labels' = _ctx_p input_labels).
Proof.
  split; [|split; [|split]].
  - unfold _ctx_p. repeat (case_bool_decide; simpl); lia.
  - unfold _ctx_p. repeat (case_bool_decide; simpl); split; (lia || tauto).
  - unfold _ctx_p. repeat (case_bool_decide; simpl); split; (lia || tauto).
  - intros labels' Hsame. unfold _ctx_p.
    by rewrite !(bool_decide_ext _ _ (Hsame _)).
Qed.

Lemma ctx_p_window_witness :
  _ctx_p ["FORM"; "FORM_CTX_P+3"; "FORM_CTX_P-3"; "FORM_CTX_P+1"] = 1.
Proof.
  apply (proj1 (proj2 (proj2 (ctx_p_window
           ["FORM"; "FORM_CTX_P+3"; "FORM_CTX_P-3"; "FORM_CTX_P+1"])))).
  intros [H _]. revert H. apply (bool_decide_unpack _). vm_compute. exact I.
Defined.

(** *** AgentMeta *)

(** X2.  The [TypeError] of [AgentMeta.__new__] names the first missing
    method in the order [evaluate], [fit], [load], [predict]. *)
Theorem AgentMeta_new_names_first_missing {member}
    (type_new : string → list string → gmap string member → result (class member))
    (name : string)
    (base : list string) (body : gmap string member) (before after : list string)
    (am : string) :
  ["evaluate"; "fit"; "load"; "predict"] = before ++ am :: after →
  (∀ am', am' ∈ before → is_Some (body !! am')) →
  body !! am = None →
  AgentMeta__new__ type_new name base body
  = Raise (Exn TypeError ("Agent must implement " +:+ am)).
Proof.
  intros Hsplit Hbefore Hnone. unfold AgentMeta__new__, agent_methods.
  rewrite Hsplit. clear Hsplit.
  induction before as [|am' before IH]; simpl.
  - by rewrite Hnone.
  - destruct (Hbefore am') as [m ->]; [by left|].
    apply IH. intros am'' Ham. apply Hbefore. by right.
Qed.

Lemma AgentMeta_new_names_first_missing_witness :
  AgentMeta__new__ type_new_cpython "Agent" []
    {[ "evaluate" := tt; "predict" := tt ]}
  = Raise (Exn TypeError "Agent must implement fit").
Proof.
  apply (AgentMeta_new_names_first_missing type_new_cpython "Agent" []
           {[ "evaluate" := tt; "predict" := tt ]} ["evaluate"] ["load"; "predict"] "fit").
  - reflexivity.
  - intros am' ->%list_elem_of_singleton. by eexists.
  - reflexivity.
Defined.

(** *** Shapes and __init__ *)

Lemma foldl_add_sum (sizes : list Z) (acc : Z) :
  foldl Z.add acc sizes = acc + foldr Z.add 0 sizes.
Proof.
  revert acc. induction sizes as [|m sizes IH]; intros acc; simpl; [lia|].
  rewrite IH. lia.
Qed.

Lemma comprehension_Forall2 {A B} (f : A → result B) (l : list A) (ys : list B) :
  comprehension f l = Ok ys ↔ Forall2 (λ x y, f x = Ok y) l ys.
Proof.
  revert ys. induction l as [|x l IH]; intros ys; simpl.
  - split; [intros [= <-]; constructor|by intros ->%Forall2_nil_inv_l].
  - destruct (f x) as [y|e] eqn:Hx; simpl.
    + destruct (comprehension f l) as [ys'|e] eqn:Hl; simpl.
      * split.
        -- intros [= <-]. constructor; [done|by apply IH].
        -- intros (y' & ys'' & Hy & Hys & ->)%Forall2_cons_inv_l.
           apply IH in Hys. congruence.
      * split; [done|].
        intros (y' & ys'' & Hy & Hys & ->)%Forall2_cons_inv_l.
        apply IH in Hys. congruence.
    + split; [done|].
      intros (y' & ys'' & Hy & Hys & ->)%Forall2_cons_inv_l. congruence.
Qed.

Lemma cnf_size_Raise cnf_dict lbl e :
  cnf_size cnf_dict lbl = Raise e → exn_cls e = KeyError.
Proof.
  unfold cnf_size. destruct (cnf_dict !! lbl) as [d|]; [|by intros [= <-]].
  destruct (d !! "size"); [done|by intros [= <-]].
Qed.

(** X3.  [get_xshape] gives [[None, None, n]] with [n] the sum of the
    configured sizes of the input labels, a label listed twice counting
    twice; it raises only [KeyError], that of the first label without a
    configured size. *)
Theorem get_xshape_sums_sizes (input_labels : list string)
    (cnf_dict : gmap string (gmap string Z)) :
  (∀ sizes,
     Forall2 (λ lbl m, cnf_size cnf_dict lbl = Ok m) input_labels sizes →
     get_xshape input_labels cnf_dict = Ok [None; None; Some (foldr Z.add 0 sizes)])
  ∧ (∀ e, get_xshape input_labels cnf_dict = Raise e →
       exn_cls e = KeyError
       ∧ ∃ before lbl after,
           input_labels = before ++ lbl :: after
           ∧ cnf_size cnf_dict lbl = Raise e
           ∧ ∀ lbl', lbl' ∈ before → ∃ m, cnf_size cnf_dict lbl' = Ok m).
Proof.
  unfold get_xshape. split.
  - intros sizes Hsizes%comprehension_Forall2. rewrite Hsizes. simpl.
    by rewrite foldl_add_sum.
  - intros e.
    destruct (comprehension (cnf_size cnf_dict) input_labels) as [sizes|e'] eqn:Hc;
      simpl; [done|]. intros [= ->].
    clear -Hc. revert Hc. induction input_labels as [|lbl labels IH]; simpl; [done|].
    destruct (cnf_size cnf_dict lbl) as [m|e'] eqn:Hlbl; simpl.
    + destruct (comprehension (cnf_size cnf_dict) labels) as [ys|e'] eqn:Hl;
        simpl; [done|]. intros [= ->].
      destruct (IH eq_refl) as (Hcls & before & lbl' & after & -> & Hraise & Hbefore).
      split; [done|]. exists (lbl :: before), lbl', after. split_and!; [done..|].
      intros lbl'' [->|?]%elem_of_cons; eauto.
    + intros [= ->]. split; [by eapply cnf_size_Raise|].
      exists [], lbl, labels. split_and!; [done..|].
      intros lbl' H. by apply elem_of_nil in H.
Qed.

Lemma get_xshape_sums_sizes_witness :
  get_xshape ["ID"; "FORM"; "FORM"] cnf_dict = Ok [None; None; Some 101].
Proof.
  apply (proj1 (get_xshape_sums_sizes ["ID"; "FORM"; "FORM"] cnf_dict) [1; 50; 50]).
  repeat constructor.
Defined.

(** X4.  The modelled part of [SRLAgent.__init__] completes exactly when
    every input label and every target label has a configured size and
    there are one or two target labels; the agent then keeps the
    directory, the labels and the evaluator it was given. *)
Theorem init_completes_iff (target_dir0 : string) (restore : bool)
    (input_labels0 target_labels0 : list string) (ev : ConllEvaluator)
    (recon_depth : Z) (cnf_dict : gmap string (gmap string Z)) :
  ((∃ agent,
      SRLAgent__init__ target_dir0 restore input_labels0 target_labels0 ev
        recon_depth cnf_dict = Ok agent)
   ↔ (∀ lbl, lbl ∈ input_labels0 ++ target_labels0 → ∃ m, cnf_size cnf_dict lbl = Ok m)
     ∧ (length target_labels0 = 1%nat ∨ length target_labels0 = 2%nat))
  ∧ (∀ agent,
       SRLAgent__init__ target_dir0 restore input_labels0 target_labels0 ev
         recon_depth cnf_dict = Ok agent →
       target_dir agent = target_dir0 ∧ _restore_session agent = restore
       ∧ input_labels agent = input_labels0 ∧ target_labels agent = target_labels0
       ∧ evaluator agent = Some ev).
Proof.
  split; [|intros agent; unfold SRLAgent__init__;
           destruct (get_xshape _ _); simpl; [|done];
           destruct (get_tshape _ _); simpl; [|done];
           destruct (comprehension _ _); simpl; [|done];
           by intros [= <-]].
  split.
  - intros [agent Hinit]. split.
    + revert Hinit. unfold SRLAgent__init__, get_xshape.
      destruct (comprehension (cnf_size cnf_dict) input_labels0) as [xs|] eqn:Hx;
        simpl; [|done].
      destruct (get_tshape target_labels0 cnf_dict) as [ts|]; simpl; [|done].
      destruct (comprehension (cnf_size cnf_dict) target_labels0) as [tsz|] eqn:Ht;
        simpl; [|done]. intros _.
      apply comprehension_Forall2 in Hx, Ht.
      intros lbl [Hin|Hin]%elem_of_app.
      * apply list_elem_of_lookup in Hin as [i Hi].
        destruct (Forall2_lookup_l _ _ _ _ _ Hx Hi) as (m & _ & Hm). eauto.
      * apply list_elem_of_lookup in Hin as [i Hi].
        destruct (Forall2_lookup_l _ _ _ _ _ Ht Hi) as (m & _ & Hm). eauto.
    + apply AgentsTheory.SRLAgent_init_rnn in Hinit as [[? _]|[? _]]; auto.
  - intros [Hconf Hlen].
    assert (∀ labels, (∀ lbl, lbl ∈ labels → ∃ m, cnf_size cnf_dict lbl = Ok m) →
              ∃ sizes, comprehension (cnf_size cnf_dict) labels = Ok sizes) as Hcomp.
    { induction labels as [|lbl labels IH]; intros Hall; [by exists []|].
      destruct (Hall lbl) as [m Hm]; [by left|].
      destruct IH as [sizes Hsizes]; [intros ??; apply Hall; by right|].
      exists (m :: sizes). simpl. by rewrite Hm, Hsizes. }
    destruct (Hcomp input_labels0) as [xs Hxs].
    { intros ??. apply Hconf, elem_of_app. by left. }
    destruct (Hcomp target_labels0) as [ts Hts].
    { intros ??. apply Hconf, elem_of_app. by right. }
    unfold SRLAgent__init__, get_xshape. rewrite Hxs. simpl.
    assert (∃ shape, get_tshape target_labels0 cnf_dict = Ok shape) as [shape ->].
    { unfold get_tshape.
      destruct target_labels0 as [|l1 [|l2 [|l3 ls]]]; simpl in *; try (destruct Hlen; done).
      - destruct (cnf_size cnf_dict l1); [eauto|done].
      - destruct (cnf_size cnf_dict l1); [|done]. simpl in *.
        destruct (cnf_size cnf_dict l2); [eauto|done]. }
    simpl. rewrite Hts. simpl. eauto.
Qed.

Lemma init_completes_iff_witness :
  ∃ agent, SRLAgent__init__ "outputs/00/" false ["ID"; "FORM"] ["T"; "IOB"]
             (fixed_evaluator 1%Qc) (-1) cnf_dict = Ok agent.
Proof.
  apply (proj1 (init_completes_iff "outputs/00/" false ["ID"; "FORM"] ["T"; "IOB"]
                  (fixed_evaluator 1%Qc) (-1) cnf_dict)).
  split; [|by right].
  intros lbl Hin.
  repeat (apply elem_of_cons in Hin as [->|Hin]; [by eexists|]).
  by apply elem_of_nil in Hin.
Defined.

(** *** SRLAgent.evaluate *)

(** X5.  [evaluate] returns a score only when the script produced it:
    the result is [f1] exactly when the evaluator is defined, the
    predictions can be selected and [evaluate_npyarray] returns [f1]; in
    every other case the result is [None]. *)
Theorem evaluate_score_iff (self : SRLAgent) (I Y L : ndarray) (filename : string) :
  (∀ f1,
     evaluate self I Y L filename = Ok (Some f1)
     ↔ ∃ ev Y',
         evaluator self = Some ev
         ∧ (if dual_task self then last_item Y else Ok Y) = Ok Y'
         ∧ evaluate_npyarray ev filename I Y' L (last_slice (target_labels self)) "04"
           = Ok f1)
  ∧ (evaluate self I Y L filename = Ok None
     ∨ ∃ f1, evaluate self I Y L filename = Ok (Some f1)).
Proof.
  rewrite AgentsTheory.evaluate_unfold.
  unfold try_except, evaluate_try, seq, eval, evaluate_except. simpl.
  destruct (if dual_task self then last_item Y else Ok Y) as [Y'|[cls msg]] eqn:HY.
  - destruct (evaluator self) as [ev|] eqn:Hev; simpl.
    + destruct (evaluate_npyarray ev filename I Y' L _ "04") as [f|[cls msg]] eqn:Hf; simpl.
      * split; [|eauto]. intros f1. split.
        -- intros [= <-]. by exists ev, Y'.
        -- intros (ev' & Y'' & [= <-] & [= <-] & Hf'). congruence.
      * assert (∀ c : completion (option score) * evaluate_locals,
                  ev_f1 {| ev_f1 := None; ev_Y := Y' |} = None) as _ by done.
        split; [|left; by destruct cls]. intros f1. split.
        -- by destruct cls.
        -- intros (ev' & Y'' & [= <-] & [= <-] & Hf'). congruence.
    + split; [|by left]. intros f1. split; [done|]. by intros (ev' & Y'' & ? & _).
  - split; [|left; by destruct cls]. intros f1. split.
    + by destruct cls.
    + by intros (ev' & Y'' & _ & ? & _).
Qed.

Lemma evaluate_score_iff_witness :
  evaluate (agent_of ["T"; "IOB"] (Some (fixed_evaluator 1%Qc)))
    (Seq []) Y_dual (Seq []) "valid" = Ok (Some 1%Qc).
Proof.
  apply (proj1 (evaluate_score_iff _ _ _ _ _)).
  exists (fixed_evaluator 1%Qc), (Seq [Seq [Scalar 3; Scalar 4]]).
  split_and!; reflexivity.
Defined.

(** *** SRLAgent._evaluate_dataset *)

Lemma validation_turn_best bounds v s r s1 :
  validation_turn bounds v s = (r, s1) →
  match r with
  | Yielded f1 =>
      (g_best_rate s ≤ g_best_rate s1)%Qc ∧ (f1 ≤ g_best_rate s1)%Qc
      ∧ (g_best_rate s1 = g_best_rate s ∨ g_best_rate s1 = f1)
      ∧ g_trace s1 = g_trace s ++ [Validated f1]
  | Finished _ => g_best_rate s1 = g_best_rate s ∧ g_trace s1 = g_trace s
  end.
Proof.
  destruct bounds as [lb ub]. unfold validation_turn.
  destruct (v_stream v) as [rows|]; [|by intros [= <- <-]].
  destruct (v_predict v); [|by intros [= <- <-]].
  destruct (v_decoder_fn v); [|by intros [= <- <-]]. simpl.
  destruct (int_div _ _) as [q|]; [|by intros [= <- <-]].
  case_bool_decide; [|by intros [= <- <-]].
  destruct (true_div _ _) as [x|]; [|by intros [= <- <-]].
  destruct (v_f1 v) as [f1|]; [|by intros [= <- <-]]. simpl.
  intros [= <- <-]. simpl. case_bool_decide as Hlt.
  - split_and!; [by apply Qclt_le_weak|apply Qcle_refl|by right|done].
  - split_and!; [apply Qcle_refl|by apply Qcnot_lt_le|by left|done].
Qed.

Lemma validation_loop_best bounds vs s r s1 rest :
  validation_loop bounds vs s = (r, s1, rest) →
  match r with
  | Yielded f1 =>
      (g_best_rate s ≤ g_best_rate s1)%Qc ∧ (f1 ≤ g_best_rate s1)%Qc
      ∧ (g_best_rate s1 = g_best_rate s ∨ g_best_rate s1 = f1)
      ∧ g_trace s1 = g_trace s ++ [Validated f1]
  | Finished _ => g_best_rate s1 = g_best_rate s ∧ g_trace s1 = g_trace s
  end.
Proof.
  revert s. induction vs as [|v vs IH]; intros s; simpl.
  - by intros [= <- <- <-].
  - destruct (v_should_stop v) as [[]|]; [by intros [= <- <- <-]| |by intros [= <- <- <-]].
    destruct (validation_turn bounds v s) as [[f1|c] s'] eqn:Hturn.
    + intros [= <- <- <-]. by apply (validation_turn_best _ _ _ _ _ Hturn).
    + apply validation_turn_best in Hturn as [Hb Ht].
      destruct c; [|by intros [= <- <- <-]..].
      intros Hloop%IH. rewrite Hb, Ht in Hloop. exact Hloop.
Qed.

(** The [finally] clause decides how the generator ends, whatever the
    [try] statement did. *)
Lemma resume_outcome env bounds vs s :
  let '(r, s1, _) := resume env bounds vs s in
  match r with
  | Yielded f1 => g_trace s1 = g_trace s ++ [Validated f1]
  | Finished c =>
      g_best_rate s1 = g_best_rate s
      ∧ match ge_request_stop env, ge_join env with
        | Ok _, Ok _ =>
            c = Returned (g_best_rate s)
            ∧ g_trace s1 = g_trace s ++ [RequestStop; Join]
        | Ok _, Raise e => c = Raised e ∧ g_trace s1 = g_trace s ++ [RequestStop]
        | Raise e, _ => c = Raised e ∧ g_trace s1 = g_trace s
        end
  end.
Proof.
  unfold resume.
  destruct (validation_loop bounds vs s) as [[[f1|c] s1] rest] eqn:Hloop;
    apply validation_loop_best in Hloop.
  - by destruct Hloop as (_ & _ & _ & ?).
  - destruct Hloop as [Hb Ht].
    assert (∀ c0 : completion score,
              try_finally (λ s, (c0, s)) (validation_finally env) s1
              = match ge_request_stop env, ge_join env with
                | Ok _, Ok _ =>
                    (Returned (g_best_rate s1), g_log Join (g_log RequestStop s1))
                | Ok _, Raise e => (Raised e, g_log RequestStop s1)
                | Raise e, _ => (Raised e, s1)
                end) as Hfinally.
    { intros c0. unfold try_finally, validation_finally, seq, eval.
      by destruct (ge_request_stop env), (ge_join env). }
    assert (∃ c0, try_except (λ s, (c, s)) OutOfRangeError (λ _ s, (Normal, s)) s1
                  = (c0, s1)) as [c0 Hexcept].
    { unfold try_except. destruct c as [|v|e]; [by eexists..|].
      destruct (is_class OutOfRangeError e); by eexists. }
    unfold try_finally in *. rewrite Hexcept. rewrite (Hfinally c0).
    destruct (ge_request_stop env), (ge_join env); cbn;
      rewrite ?Hb, ?Ht, <- ?app_assoc; done.
Qed.

(** X6.  Whatever the session, the evaluator or the division by
    [ub - lb] raise inside the [try] statement of [_evaluate_dataset],
    it does not leave the generator: the [finally] clause asks the
    coordinator to stop, joins the threads and returns [best_rate].
    What leaves the generator is raised outside the [try] statement, by
    lines 402-417 or by [coord.request_stop()] and [coord.join(threads)]
    themselves.  So [next(self._evaluate_dataset(session))] returns an
    F1, or raises [StopIteration] carrying the [best_rate] of a generator
    that never yielded, [0], or raises what those calls raised. *)
Theorem evaluate_dataset_yields_or_returns (pep479 : bool) (env : generator_env)
    (vs : list validation) :
  (∀ bounds s,
     let '(r, s1, _) := resume env bounds vs s in
     match r with
     | Yielded f1 => g_trace s1 = g_trace s ++ [Validated f1]
     | Finished c =>
         g_best_rate s1 = g_best_rate s
         ∧ match ge_request_stop env, ge_join env with
           | Ok _, Ok _ =>
               c = Returned (g_best_rate s)
               ∧ g_trace s1 = g_trace s ++ [RequestStop; Join]
           | Ok _, Raise e => c = Raised e ∧ g_trace s1 = g_trace s ++ [RequestStop]
           | Raise e, _ => c = Raised e ∧ g_trace s1 = g_trace s
           end
     end)
  ∧ match generator_prologue env with
    | Raise e => _evaluate_dataset_next pep479 env vs = Throws (leaves pep479 e)
    | Ok _ =>
        (∃ f1, _evaluate_dataset_next pep479 env vs = Value f1)
        ∨ _evaluate_dataset_next pep479 env vs
          = match ge_request_stop env, ge_join env with
            | Ok _, Ok _ => Stop (Some 0%Qc)
            | Ok _, Raise e | Raise e, _ => Throws (leaves pep479 e)
            end
    end.
Proof.
  split; [intros bounds s; apply resume_outcome|].
  unfold _evaluate_dataset_next, next.
  destruct (generator_prologue env) as [bounds|e]; [|done].
  pose proof (resume_outcome env bounds vs generator_start) as Hresume.
  destruct (resume env bounds vs generator_start) as [[[f1|c] s1] rest]; cbn.
  - left. eauto.
  - right. destruct Hresume as [_ Hresume].
    destruct (ge_request_stop env), (ge_join env); by destruct Hresume as [-> _].
Qed.

(** A validation set of 500 propositions read in batches of 250: the
    first [next] yields after the second batch.  When the session fails
    at once, [next] raises [StopIteration] with the value [0]; when
    [get_db_bounds] fails, its exception leaves the generator, as a
    [RuntimeError] if it is a [StopIteration]. *)
Example evaluate_dataset_next_runs :
  _evaluate_dataset_next true sound_env (replicate 3 (validation_of 250 (Q2Qc (7 # 10))))
  = Value (Q2Qc (7 # 10))
  ∧ _evaluate_dataset_next true sound_env
      [{| v_should_stop := Ok false;
          v_stream := Raise (Exn (OtherError "InvalidArgumentError") "shape mismatch");
          v_predict := Ok tt; v_decoder_fn := Ok tt; v_f1 := Ok 1%Qc |}]
    = Stop (Some 0%Qc)
  ∧ (∀ e pep479,
       _evaluate_dataset_next pep479
         {| ge_coordinator := Ok tt; ge_queue_runners := Ok tt; ge_validator := Ok tt;
            ge_db_bounds := Raise e; ge_request_stop := Ok tt; ge_join := Ok tt |} []
       = Throws (leaves pep479 e))
  ∧ leaves true (Exn StopIteration "") = Exn RuntimeError "generator raised StopIteration".
Proof.
  split_and!; [|done..]. unfold _evaluate_dataset_next. cbn -[Q2Qc resume].
  set (r := resume _ _ _ _).
  assert (r.1.1 = Yielded (Q2Qc (7 # 10))) as Hr by (vm_compute; reflexivity).
  by destruct r as [[[f|c] s1] rest]; cbn in *; simplify_eq.
Qed.

(** X7.  A [yield] raises [best_rate] to the F1 yielded when that is
    higher and leaves it alone otherwise: after the [yield], [best_rate]
    is at least its former value and at least the F1 yielded, and it is
    one of the two.  While [epochs] is still [0], a [yield] comes only
    once [int(props / (ub - lb))] is at least [1]; [ub - lb] is not zero
    then, and when it has at most 53 bits at least [ub - lb]
    propositions were predicted.  (Beyond 53 bits the quotient, a float,
    can round up to [1] earlier.) *)
Theorem evaluate_dataset_best_rate (env : generator_env) (bounds : Z * Z)
    (vs : list validation) (s : generator_state) (f1 : score) (s1 : generator_state)
    (rest : list validation) :
  resume env bounds vs s = (Yielded f1, s1, rest) →
  (g_best_rate s ≤ g_best_rate s1)%Qc ∧ (f1 ≤ g_best_rate s1)%Qc
  ∧ (g_best_rate s1 = g_best_rate s ∨ g_best_rate s1 = f1)
  ∧ (g_epochs s = 0%Qc →
     bounds.2 - bounds.1 ≠ 0
     ∧ (∃ q, int_div (g_props s1) (bounds.2 - bounds.1) = Ok q ∧ 1 ≤ q)
     ∧ (Z.abs (bounds.2 - bounds.1) < 2 ^ 53 →
        1 ≤ g_props s1 `quot` (bounds.2 - bounds.1))).
Proof.
  unfold resume.
  destruct (validation_loop bounds vs s) as [[[f|c] s'] rest'] eqn:Hloop;
    [|by destruct (try_finally _ _ _)].
  intros [= -> -> ->].
  pose proof (validation_loop_best _ _ _ _ _ _ Hloop) as (H1 & H2 & H3 & _).
  split_and!; [done..|].
  intros Hzero. clear H1 H2 H3.
  assert (∃ q, int_div (g_props s1) (bounds.2 - bounds.1) = Ok q ∧ 1 ≤ q)
    as (q & Hq & Hone).
  { revert s Hzero Hloop.
    induction vs as [|v vs IH]; intros s Hzero; simpl; [done|].
    destruct (v_should_stop v) as [[]|]; [done| |done].
    destruct (validation_turn bounds v s) as [[f|c] s'] eqn:Hturn.
    - intros [= -> -> ->]. revert Hturn. clear IH.
      destruct bounds as [lb ub]. unfold validation_turn. simpl.
      destruct (v_stream v) as [rows|]; [|done].
      destruct (v_predict v); [|done]. destruct (v_decoder_fn v); [|done]. simpl.
      destruct (int_div _ _) as [q|] eqn:Hq; [|done].
      case_bool_decide as Hlt; [|done].
      destruct (true_div _ _); [|done]. destruct (v_f1 v); [|done].
      intros [= _ <-]. simpl. exists q. split; [done|].
      rewrite Hzero in Hlt. unfold Qclt, Qlt in Hlt. simpl in Hlt. lia.
    - destruct c; [|done..]. intros Hloop. eapply (IH s'); [|done].
      revert Hturn. clear -Hzero. destruct bounds as [lb ub]. unfold validation_turn.
      destruct (v_stream v); [|done].
      destruct (v_predict v); [|done].
      destruct (v_decoder_fn v); [|done]. simpl.
      destruct (int_div _ _); [|done]. case_bool_decide; [|by intros [= <-]].
      destruct (true_div _ _); [|done].
      by destruct (v_f1 v). }
  destruct (int_div_at_least_one _ _ _ Hq Hone) as [Hne Hquot].
  split_and!; [done|by exists q|done].
Qed.

Lemma evaluate_dataset_best_rate_witness :
  ∃ s1 rest,
    resume sound_env (0, 500) (replicate 3 (validation_of 250 (Q2Qc (7 # 10))))
      generator_start
    = (Yielded (Q2Qc (7 # 10)), s1, rest)
    ∧ g_best_rate s1 = Q2Qc (7 # 10) ∧ 1 ≤ g_props s1 `quot` 500.
Proof.
  destruct (resume sound_env (0, 500) (replicate 3 (validation_of 250 (Q2Qc (7 # 10))))
              generator_start) as [[r s1] rest] eqn:Hrun.
  assert (r = Yielded (Q2Qc (7 # 10))) as ->.
  { apply (f_equal (λ x, x.1.1)) in Hrun. vm_compute in Hrun. by subst r. }
  destruct (evaluate_dataset_best_rate _ _ _ _ _ _ _ Hrun) as (_ & _ & Hbest & Hprops).
  exists s1, rest. split_and!; [done| |by apply Hprops].
  destruct Hbest as [Hbest|Hbest]; [|done].
  apply (f_equal (λ x, g_best_rate x.1.2)) in Hrun. vm_compute in Hrun. by subst.
Defined.

(** With a validation set of [2 ^ 54] propositions, a batch one short of
    it already counts as an epoch: the quotient rounds to [1.0]. *)
Example evaluate_dataset_rounds_up :
  let v := validation_of (2 ^ 54 - 1) (Q2Qc (7 # 10)) in
  int_div (2 ^ 54 - 1) (2 ^ 54 - 0) = Ok 1
  ∧ (resume sound_env (0, 2 ^ 54) [v] generator_start).1.1 = Yielded (Q2Qc (7 # 10)).
Proof. vm_compute. split; reflexivity. Qed.

(** *** SRLAgent.fit: relations kept by every run *)

Section Respects.
Context {S R : Type} (rel : S → S → Prop).
Hypothesis rel_refl : ∀ s, rel s s.
Hypothesis rel_trans : ∀ s1 s2 s3, rel s1 s2 → rel s2 s3 → rel s1 s3.

Lemma respects_skip (c : completion R) : respects rel (λ s, (c, s)).
Proof. intros s c' s' [= <- <-]. apply rel_refl. Qed.

Lemma respects_seq (b1 b2 : block S R) :
  respects rel b1 → respects rel b2 → respects rel (b1 ;;; b2).
Proof.
  intros H1 H2 s c s'. unfold seq.
  destruct (b1 s) as [[|v|e] s1] eqn:E1.
  - intros E2. eapply rel_trans; [by eapply H1|by eapply H2].
  - intros [= <- <-]. by eapply H1.
  - intros [= <- <-]. by eapply H1.
Qed.

Lemma respects_eval {A} (r : result A) (k : A → block S R) :
  (∀ a, r = Ok a → respects rel (k a)) → respects rel (eval r k).
Proof.
  intros H s c s'. unfold eval. destruct r as [a|e].
  - by apply H.
  - intros [= <- <-]. apply rel_refl.
Qed.

Lemma respects_try_except (body : block S R) cls handler :
  respects rel body → (∀ e, respects rel (handler e)) →
  respects rel (try_except body cls handler).
Proof.
  intros Hb Hh s c s'. unfold try_except.
  destruct (body s) as [[|v|e] s1] eqn:E1.
  - intros [= <- <-]. by eapply Hb.
  - intros [= <- <-]. by eapply Hb.
  - destruct (is_class cls e).
    + intros E2. eapply rel_trans; [by eapply Hb|by eapply Hh].
    + intros [= <- <-]. by eapply Hb.
Qed.

Lemma respects_try_finally (body fin : block S R) :
  respects rel body → respects rel fin → respects rel (try_finally body fin).
Proof.
  intros Hb Hf s c s'. unfold try_finally.
  destruct (body s) as [c1 s1] eqn:E1. destruct (fin s1) as [[|v|e] s2] eqn:E2;
    intros [= <- <-]; (eapply rel_trans; [by eapply Hb|by eapply Hf]).
Qed.
End Respects.

Section FitRespects.
Variable self : SRLAgent.
Variables lb ub : Z.
Variable allowed : iteration → Prop.
Variable rel : fit_state → fit_state → Prop.
Hypothesis rel_refl : ∀ s, rel s s.
Hypothesis rel_trans : ∀ s1 s2 s3, rel s1 s2 → rel s2 s3 → rel s1 s3.

(** What each assignment of the loop body does to the relation. *)
Hypothesis rel_fetch : ∀ it rows s,
  allowed it → stream it = Ok rows → rel s (set_chunk_size (chunk_size s + rows) s).
Hypothesis rel_totals : ∀ l e s, rel s (set_totals l e s).
Hypothesis rel_f1_train : ∀ f s, rel s (set_f1_train (Some f) s).
Hypothesis rel_eps : ∀ v s, step s `mod` 10 = 0 → rel s (set_eps v s).
Hypothesis rel_epochs : ∀ q s,
  int_div (chunk_size s) (ub - lb) = Ok q → epochs s < q → rel s (set_epochs q s).
Hypothesis rel_validated : ∀ q f s,
  int_div (chunk_size s) (ub - lb) = Ok q → epochs s < q →
  rel s (log (Validated f) (set_epochs q s))
  ∧ (improves (best_validation_rate s) f = true →
     rel s (log (Save (session_path self))
              (set_best_validation_rate f (log (Validated f) (set_epochs q s))))).
Hypothesis rel_step : ∀ s, rel s (set_step (step s + 1) s).
Hypothesis rel_stop : ∀ s, rel s (log Join (log RequestStop s)).

Lemma respects_exec f : (∀ s, rel s (f s)) → respects rel (exec f).
Proof. intros H s c s' [= <- <-]. apply H. Qed.

Lemma respects_fit_display it : respects rel (fit_display it).
Proof.
  intros s c s'. unfold fit_display.
  destruct (Z.eqb_spec (step s `mod` 10) 0) as [Hs|]; [|by intros [= <- <-]].
  unfold eval. destruct (f1_train_eval it) as [f|e]; [|by intros [= <- <-]].
  unfold seq, exec. intros [= <- <-].
  eapply rel_trans; [apply (rel_f1_train f)|].
  eapply rel_trans; [by apply rel_eps|apply rel_totals].
Qed.

Lemma respects_fit_epoch it : respects rel (fit_epoch self (lb, ub) it).
Proof.
  intros s c s'. unfold fit_epoch, eval.
  destruct (int_div (chunk_size s) (ub - lb)) as [q|e] eqn:Hq; [|by intros [= <- <-]].
  destruct (Z.ltb_spec (epochs s) q) as [Hlt|]; [|by intros [= <- <-]].
  unfold seq at 1. unfold exec at 1.
  pose proof (rel_epochs q s Hq Hlt) as Hepochs.
  destruct (f1_valid_eval it) as [f|e]; [|by intros [= <- <-]].
  destruct (rel_validated q f s Hq Hlt) as [Hval Hsave].
  unfold seq at 1. unfold exec at 1. unfold seq, checkpoint.
  fold (improves (best_validation_rate (log (Validated f) (set_epochs q s))) f).
  change (best_validation_rate (log (Validated f) (set_epochs q s)))
    with (best_validation_rate (set_epochs q s)).
  destruct (improves (best_validation_rate (set_epochs q s)) f) eqn:Himp.
  - unfold exec. unfold print_epoch.
    intros Hr. eapply rel_trans; [by apply Hsave|].
    revert Hr. simpl. destruct (q =? 0); [by intros [= <- <-]|].
    destruct (f1_train s); by intros [= <- <-].
  - unfold print_epoch. intros Hr. eapply rel_trans; [exact Hval|].
    revert Hr. simpl. destruct (q =? 0); [by intros [= <- <-]|].
    destruct (f1_train s); by intros [= <- <-].
Qed.

Lemma respects_fit_iteration it :
  allowed it → respects rel (fit_iteration self (lb, ub) it).
Proof.
  intros Hit. unfold fit_iteration. repeat (apply respects_seq; [done..| |]).
  - apply respects_eval; [done|]. intros rows Hrows. apply respects_exec.
    intros s. by eapply rel_fetch.
  - apply respects_eval; [done|]. intros [loss error] _.
    apply respects_eval; [done|]. intros _ _. by apply respects_exec.
  - apply respects_fit_display.
  - apply respects_fit_epoch.
  - by apply respects_exec.
Qed.

Lemma respects_fit_loop its :
  Forall allowed its → respects rel (fit_loop self (lb, ub) its).
Proof.
  induction 1 as [|it its Hit _ IH]; intros s c s'; simpl.
  - destruct (converged s); intros [= <- <-]; apply rel_refl.
  - destruct (should_stop it || converged s); [by intros [= <- <-]|].
    apply respects_seq; [done..| |]; [by apply respects_fit_iteration|apply IH].
Qed.

Lemma respects_fit_try its :
  Forall allowed its → respects rel (fit_try self (lb, ub) its).
Proof.
  intros Hits. unfold fit_try. apply respects_try_finally; [done| |].
  - apply respects_try_except; [done..| |].
    + by apply respects_fit_loop.
    + intros e. by apply respects_exec.
  - intros s c s'. unfold seq, exec. intros [= <- <-]. apply rel_stop.
Qed.
End FitRespects.

(** X8.  [fit] cannot stop for convergence before its tenth turn: [eps]
    keeps its initial value [100] until a step that is a multiple of ten
    has been displayed, so whenever [eps < 1e-3] holds at the end, [step]
    is at least 10. *)
Theorem fit_converges_after_ten_steps (self : SRLAgent) (env : fit_env) :
  let s := (fit self env).2 in
  1 ≤ step s
  ∧ (eps s = Qc_of_Z 100 ∨ 10 ≤ step s)
  ∧ (converged s = true → 10 ≤ step s).
Proof.
  set (inv := λ s : fit_state, 1 ≤ step s ∧ (eps s = Qc_of_Z 100 ∨ 10 ≤ step s)).
  assert (inv (fit self env).2) as [Hstep Heps].
  { unfold fit.
    assert (inv (fit_enter self (restored_f1 env)).2) as Henter.
    { unfold fit_enter. destruct (_restore_session self);
        [destruct (restored_f1 env)|]; by split; [|left]. }
    destruct (fit_enter self (restored_f1 env)) as [[|v|e] s0]; [|done..].
    destruct (train_bounds env) as [lb ub].
    destruct (fit_try self (lb, ub) (iterations env) s0) as [c s1] eqn:Htry.
    assert (respects (λ s s', inv s → inv s') (fit_try self (lb, ub) (iterations env)))
      as Hresp.
    { apply (respects_fit_try self lb ub (λ _, True)); unfold inv; simpl;
        [tauto|tauto|tauto|tauto|tauto| |tauto|tauto| |tauto|by apply Forall_true].
      2:{ intros s [? [?|?]]; (split; [lia|]); [by left|right; lia]. }
      intros v s Hmod [Hs _]. split; [done|]. right.
      pose proof (Z.div_mod (step s) 10 ltac:(lia)). lia. }
    exact (Hresp _ _ _ Htry Henter). }
  split_and!; [done..|].
  intros Hconv. destruct Heps as [Heps|]; [|done].
  unfold converged in Hconv. rewrite Heps in Hconv. done.
Qed.

(** X9.  In every run of [fit] the checkpoints saved are at most as many
    as the validations, and the validations at most as many as the epochs
    counted. *)
Theorem fit_saves_validations_epochs (self : SRLAgent) (env : fit_env) :
  let s := (fit self env).2 in
  count is_save (trace s) ≤ count is_validated (trace s)
  ∧ count is_validated (trace s) ≤ epochs s.
Proof.
  set (rel := λ s s' : fit_state,
         ∃ tr, trace s' = trace s ++ tr
               ∧ count is_save tr ≤ count is_validated tr
               ∧ count is_validated tr ≤ epochs s' - epochs s).
  assert (∀ p tr1 tr2, count p (tr1 ++ tr2) = count p tr1 + count p tr2) as Hcount.
  { intros p tr1 tr2. unfold count. rewrite filter_app, length_app. lia. }
  assert (∀ s, rel s s) as Hrefl.
  { intros s. exists []. rewrite app_nil_r. unfold count. simpl.
    split_and!; [done|lia..]. }
  assert (∀ s1 s2 s3, rel s1 s2 → rel s2 s3 → rel s1 s3) as Htrans.
  { intros s1 s2 s3 (tr1 & H1 & Ha1 & Hb1) (tr2 & H2 & Ha2 & Hb2).
    exists (tr1 ++ tr2). rewrite H2, H1, app_assoc, !Hcount. split_and!; [done|lia..]. }
  assert (∀ s s', trace s' = trace s → epochs s ≤ epochs s' → rel s s') as Hsame.
  { intros s s' Ht He. exists []. rewrite app_nil_r. unfold count. simpl.
    split_and!; [done|lia..]. }
  assert (rel (fit_init 0%Qc []) (fit self env).2) as (tr & Htr & Hsv & Hve).
  { unfold fit.
    assert (rel (fit_init 0%Qc []) (fit_enter self (restored_f1 env)).2) as Henter.
    { unfold fit_enter. destruct (_restore_session self);
        [destruct (restored_f1 env)|]; eexists; unfold count;
        (split_and!; [reflexivity|simpl; lia..]). }
    destruct (fit_enter self (restored_f1 env)) as [[|v|e] s0]; [|done..].
    destruct (train_bounds env) as [lb ub].
    destruct (fit_try self (lb, ub) (iterations env) s0) as [c s1] eqn:Htry.
    simpl in *. eapply Htrans; [exact Henter|].
    assert (respects rel (fit_try self (lb, ub) (iterations env))) as Hresp.
    { apply (respects_fit_try self lb ub (λ _, True)); [done|done|..].
      - intros. by apply Hsame.
      - intros. by apply Hsame.
      - intros. by apply Hsame.
      - intros. by apply Hsame.
      - intros q s _ Hlt. apply Hsame; simpl; [done|lia].
      - intros q f s _ Hlt. split.
        + exists [Validated f]. unfold count. simpl. split_and!; [done|lia..].
        + intros _. exists [Validated f; Save (session_path self)]. unfold count. simpl.
          split_and!; [by rewrite <- app_assoc|lia..].
      - intros. by apply Hsame.
      - intros s. exists [RequestStop; Join]. unfold count. simpl.
        split_and!; [by rewrite <- app_assoc|lia..].
      - by apply Forall_true. }
    exact (Hresp _ _ _ Htry). }
  simpl in *. rewrite Htr. simpl. lia.
Qed.

(** X10.  With a training set of positive size and batches that are not
    negative, [epochs] is never negative, and as long as fewer than
    [2 ^ 53] propositions were fetched it never exceeds the number of
    whole passes over the training set that were fetched:
    [epochs * (ub - lb) ≤ chunk_size].  (From [2 ^ 53] propositions on
    the quotient [chunk_size / (ub - lb)], a float, may be rounded
    up.) *)
Theorem fit_epochs_bounded_by_passes (self : SRLAgent) (env : fit_env) :
  (train_bounds env).1 < (train_bounds env).2 →
  Forall (λ it, ∀ rows, stream it = Ok rows → 0 ≤ rows) (iterations env) →
  let s := (fit self env).2 in
  0 ≤ epochs s
  ∧ (chunk_size s < 2 ^ 53 →
     epochs s * ((train_bounds env).2 - (train_bounds env).1) ≤ chunk_size s).
Proof.
  destruct (train_bounds env) as [lb ub] eqn:Hbounds. simpl. intros Hdb Hrows.
  set (inv := λ s : fit_state,
         0 ≤ chunk_size s ∧ 0 ≤ epochs s
         ∧ (chunk_size s < 2 ^ 53 → epochs s * (ub - lb) ≤ chunk_size s)).
  assert (∀ q s, int_div (chunk_size s) (ub - lb) = Ok q → 0 ≤ chunk_size s →
            chunk_size s < 2 ^ 53 → q * (ub - lb) ≤ chunk_size s) as Hquot.
  { intros q s Hq Hpos Hsmall.
    rewrite int_div_small in Hq by lia. injection Hq as <-.
    pose proof (Z.mul_quot_le (chunk_size s) (ub - lb)). nia. }
  assert (inv (fit self env).2) as (Hchunk & Hpos & Hle).
  { unfold fit. rewrite Hbounds.
    assert (inv (fit_enter self (restored_f1 env)).2) as Henter.
    { unfold fit_enter, inv. destruct (_restore_session self);
        [destruct (restored_f1 env)|]; simpl; lia. }
    destruct (fit_enter self (restored_f1 env)) as [[|v|e] s0]; [|done..].
    destruct (fit_try self (lb, ub) (iterations env) s0) as [c s1] eqn:Htry.
    assert (respects (λ s s', inv s → inv s') (fit_try self (lb, ub) (iterations env)))
      as Hresp.
    { apply (respects_fit_try self lb ub (λ it, ∀ rows, stream it = Ok rows → 0 ≤ rows));
        unfold inv; simpl; [tauto|tauto| |tauto|tauto|tauto| | |tauto|tauto|done].
      - intros it rows s Hit Hs (? & ? & ?). specialize (Hit rows Hs).
        split_and!; [lia..|]. intros ?. lia.
      - intros q s Hq ? (? & ? & ?). split_and!; [lia..|]. by apply Hquot.
      - intros q f s Hq ?. split; [|intros _]; intros (? & ? & ?);
          (split_and!; [lia..|]); by apply Hquot. }
    exact (Hresp _ _ _ Htry Henter). }
  done.
Qed.

Lemma fit_epochs_bounded_by_passes_witness :
  let s := (fit (agent_of ["IOB"] None) (run_env (replicate 22 (turn 250 (Q2Qc (3 # 5)))))).2 in
  0 ≤ epochs s ∧ epochs s * (5000 - 0) ≤ chunk_size s.
Proof.
  intros s.
  destruct (fit_epochs_bounded_by_passes (agent_of ["IOB"] None)
              (run_env (replicate 22 (turn 250 (Q2Qc (3 # 5))))))
    as [Hpos Hle].
  - reflexivity.
  - apply Forall_replicate. by intros rows [= <-].
  - split; [exact Hpos|]. apply Hle. vm_compute. reflexivity.
Defined.

(** A run that fetches [2 ^ 54 - 1] propositions of a training set of
    two: [int(18014398509481983 / 2)] is [9007199254740992], one more
    than the whole passes fetched. *)
Example fit_epochs_rounded_up :
  int_div 18014398509481983 2 = Ok 9007199254740992
  ∧ 18014398509481983 `quot` 2 = 9007199254740991.
Proof. vm_compute. split; reflexivity. Qed.

(** X11.  When an epoch of training completes at a step that is not a
    multiple of ten while no step has been displayed yet, the turn
    validates, saves the checkpoint if the F1 improves, and then fails:
    printing the epoch reads [f1_train] before it was ever assigned, so
    the turn raises [UnboundLocalError] and [step] is not advanced. *)
Theorem fit_epoch_before_display (self : SRLAgent) (lb ub : Z) (it : iteration)
    (s : fit_state) (rows : Z) (loss error : score) (q : Z) (f : score) :
  f1_train s = None → step s `mod` 10 ≠ 0 →
  stream it = Ok rows → run_ops it = Ok (loss, error) → decoder_fn it = Ok tt →
  int_div (chunk_size s + rows) (ub - lb) = Ok q → epochs s < q → q ≠ 0 →
  f1_valid_eval it = Ok f →
  ∃ s',
    fit_iteration self (lb, ub) it s
    = (Raised (Exn UnboundLocalError
                 "local variable 'f1_train' referenced before assignment"), s')
    ∧ step s' = step s ∧ epochs s' = q
    ∧ trace s' = trace s ++ Validated f ::
                   (if improves (best_validation_rate s) f
                    then [Save (session_path self)] else []).
Proof.
  intros Hf1 Hstep Hrows Hops Hdec Hq Hlt Hq0 Hvalid.
  unfold fit_iteration, seq, eval, exec. rewrite Hrows, Hops, Hdec.
  unfold fit_display. simpl. destruct (Z.eqb_spec (step s `mod` 10) 0); [done|].
  unfold fit_epoch, eval. simpl. rewrite Hq.
  destruct (Z.ltb_spec (epochs s) q); [|lia].
  unfold seq, exec, eval. rewrite Hvalid. unfold checkpoint, seq, exec. simpl.
  fold (improves (best_validation_rate s) f).
  destruct (improves (best_validation_rate s) f); simpl;
    unfold print_epoch; simpl; destruct (Z.eqb_spec q 0); try done;
    rewrite Hf1; eexists; (split_and!; [reflexivity|done..| ]); simpl;
    by rewrite <- ?app_assoc.
Qed.

Lemma fit_epoch_before_display_witness :
  ∃ s', fit_iteration (agent_of ["IOB"] None) (0, 200) (turn 250 (Q2Qc (3 # 5)))
          (fit_init (- 1)%Qc [RunInit; StartQueueRunners])
        = (Raised (Exn UnboundLocalError
                     "local variable 'f1_train' referenced before assignment"), s')
    ∧ trace s' = [RunInit; StartQueueRunners; Validated (Q2Qc (3 # 5));
                  Save "outputs/00/model.ckpt"].
Proof.
  destruct (fit_epoch_before_display (agent_of ["IOB"] None) 0 200
              (turn 250 (Q2Qc (3 # 5))) (fit_init (- 1)%Qc [RunInit; StartQueueRunners])
              250 (Q2Qc (3 # 2)) (Q2Qc (1 # 4)) 1 (Q2Qc (3 # 5)))
    as (s' & Hrun & _ & _ & Htrace); try reflexivity; [done..|].
  exists s'. split; [exact Hrun|exact Htrace].
Defined.


(** *** SRLAgent.fit: what [eps] measures *)

(** Linear arithmetic with quotients and remainders by constants. *)
Local Ltac div_lia := zify; Z.div_mod_to_equations; lia.

Section FitWindow.
Variable self : SRLAgent.
Variables lb ub : Z.

(** The sum of a list of scores; [eps] after [d] displays, in terms of
    the errors of the batches trained so far; and the errors of the
    batches that were trained. *)
Local Abbreviation sum_scores := (foldr Qcplus 0%Qc).
Local Abbreviation eps_after :=
  (λ (errs : list score) (d : nat),
     match d with
     | O => Qc_of_Z 100
     | S k => (sum_scores (take 10 (drop (10 * k) errs)) / Qc_of_Z 25)%Qc
     end).
Local Abbreviation trained :=
  (Forall2 (λ (it : iteration) (e : score), ∃ loss, run_ops it = Ok (loss, e))).

(** The state at the head of the loop, after the batches [done] were
    trained with the errors [errs]. *)
Local Abbreviation at_head :=
  (λ (done : list iteration) (errs : list score) (s : fit_state),
     trained done errs
     ∧ step s = Z.of_nat (length done) + 1
     ∧ total_error s = sum_scores (drop (10 * (length done / 10)) errs)
     ∧ eps s = eps_after errs (length done / 10)%nat).

(** The state in which the loop over [its] is left. *)
Local Abbreviation at_exit :=
  (λ (its : list iteration) (s : fit_state),
     ∃ (done rest : list iteration) (errs : list score) (d : nat),
       its = done ++ rest ∧ trained done errs
       ∧ (10 * d ≤ length errs)%nat ∧ eps s = eps_after errs d).

Lemma sum_scores_snoc (l : list score) (e : score) :
  sum_scores (l ++ [e]) = (sum_scores l + e)%Qc.
Proof. induction l as [|x l IH]; simpl; [ring|]. rewrite IH. ring. Qed.

Lemma eps_after_snoc (errs : list score) (e : score) (d : nat) :
  (10 * d ≤ length errs)%nat → eps_after (errs ++ [e]) d = eps_after errs d.
Proof.
  intros Hd. destruct d as [|k]; [done|].
  rewrite drop_app_le by lia. rewrite take_app_le; [done|].
  rewrite length_drop. lia.
Qed.

Lemma fit_epoch_window it s c s' :
  fit_epoch self (lb, ub) it s = (c, s') →
  eps s' = eps s ∧ total_error s' = total_error s ∧ step s' = step s.
Proof.
  apply (respects_fit_epoch self lb ub
           (λ s s', eps s' = eps s ∧ total_error s' = total_error s ∧ step s' = step s)).
  - done.
  - intros s1 s2 s3 (? & ? & ?) (? & ? & ?). split_and!; congruence.
  - done.
  - done.
Qed.

Lemma fit_iteration_window it done errs s c s' :
  at_head done errs s →
  fit_iteration self (lb, ub) it s = (c, s') →
  match c with
  | Normal => ∃ e, at_head (done ++ [it]) (errs ++ [e]) s'
  | _ =>
      ∃ done' errs' d,
        (done' = done ∨ done' = done ++ [it]) ∧ trained done' errs'
        ∧ (10 * d ≤ length errs')%nat ∧ eps s' = eps_after errs' d
  end.
Proof.
  intros (Htrained & Hstep & Htotal & Heps).
  pose proof (Forall2_length _ _ _ Htrained) as Hlen.
  assert (∀ s1, eps s1 = eps s →
            ∃ done' errs' d,
              (done' = done ∨ done' = done ++ [it]) ∧ trained done' errs'
              ∧ (10 * d ≤ length errs')%nat ∧ eps s1 = eps_after errs' d) as Hsame.
  { intros s1 Hs1. exists done, errs, (length done / 10)%nat.
    split_and!; [by left|done|div_lia|by rewrite Hs1]. }
  unfold fit_iteration, seq at 1, eval at 1.
  destruct (stream it) as [rows|e0]; [|intros [= <- <-]; by apply Hsame].
  unfold exec at 1. unfold seq at 1, eval at 1.
  destruct (run_ops it) as [[loss error]|e0] eqn:Hops;
    [|intros [= <- <-]; by apply Hsame].
  unfold eval at 1.
  destruct (decoder_fn it) as [[]|e0]; [|intros [= <- <-]; by apply Hsame].
  unfold exec at 1.
  set (s2 := set_totals _ _ _).
  assert (trained (done ++ [it]) (errs ++ [error])) as Htrained'.
  { apply Forall2_app; [done|]. constructor; [by exists loss|constructor]. }
  set (n := length done) in *.
  assert (length (done ++ [it]) = S n) as Hn' by (rewrite length_app; simpl; lia).
  assert (step s2 = Z.of_nat (S n)) as Hstep2 by (simpl; lia).
  assert (total_error s2 = sum_scores (drop (10 * (n / 10)) (errs ++ [error])))
    as Htotal2.
  { unfold s2. cbn [total_error set_totals set_chunk_size].
    rewrite drop_app_le, sum_scores_snoc, Htotal; [done|]. div_lia. }
  assert (eps s2 = eps_after errs (n / 10)%nat) as Heps2 by done.
  clearbody s2.
  assert (∃ s3 c3,
            fit_display it s2 = (c3, s3)
            ∧ match c3 with
              | Normal =>
                  step s3 = Z.of_nat (S n)
                  ∧ total_error s3
                    = sum_scores (drop (10 * (S n / 10)) (errs ++ [error]))
                  ∧ eps s3 = eps_after (errs ++ [error]) (S n / 10)%nat
              | _ => eps s3 = eps s
              end) as (s3 & c3 & Hdisplay & Hs3).
  { unfold fit_display. rewrite Hstep2.
    destruct (Z.eqb_spec (Z.of_nat (S n) `mod` 10) 0) as [Hmod|Hmod].
    - unfold eval. destruct (f1_train_eval it) as [f|e0].
      + eexists _, Normal. split; [reflexivity|]. unfold seq, exec.
        cbn [fst snd step total_error eps set_totals set_eps set_f1_train].
        assert (S n / 10 = S (n / 10))%nat as -> by div_lia.
        assert (10 * S (n / 10) = S n)%nat as Hfull by div_lia.
        split_and!; [done| |].
        * rewrite Hfull, drop_ge; [done|]. rewrite length_app, <- Hlen. cbn [length]. div_lia.
        * rewrite Htotal2. f_equal. f_equal. symmetry. apply take_ge.
          rewrite length_drop, length_app, <- Hlen. cbn [length]. div_lia.
      + eexists _, _. split; [reflexivity|]. by rewrite Heps2, Heps.
    - eexists _, Normal. split; [reflexivity|].
      assert (S n / 10 = n / 10)%nat as -> by div_lia.
      split_and!; [done..|]. rewrite Heps2. symmetry. apply eps_after_snoc. div_lia. }
  unfold seq at 1. rewrite Hdisplay.
  destruct c3 as [|v|e3]; [|intros [= <- <-]; by apply Hsame..].
  destruct Hs3 as (Hstep3 & Htotal3 & Heps3).
  unfold seq at 1.
  destruct (fit_epoch self (lb, ub) it s3) as [c4 s4] eqn:Hepoch.
  apply fit_epoch_window in Hepoch as (Heps4 & Htotal4 & Hstep4).
  assert (∃ done' errs' d,
            (done' = done ∨ done' = done ++ [it]) ∧ trained done' errs'
            ∧ (10 * d ≤ length errs')%nat ∧ eps s4 = eps_after errs' d) as Hexit.
  { exists (done ++ [it]), (errs ++ [error]), (S n / 10)%nat.
    split_and!; [by right|done| |by rewrite Heps4, Heps3].
    rewrite length_app, <- Hlen. cbn [length]. div_lia. }
  destruct c4 as [|v|e4]; [|by intros [= <- <-]..].
  unfold exec. intros [= <- <-]. exists error. rewrite Hn'.
  cbn [step total_error eps set_step].
  split_and!; [done|lia|by rewrite <- Htotal4 in Htotal3|by rewrite Heps4].
Qed.

Lemma fit_loop_window rest done errs s c s' :
  at_head done errs s →
  fit_loop self (lb, ub) rest s = (c, s') →
  at_exit (done ++ rest) s'.
Proof.
  revert done errs s. induction rest as [|it rest IH]; intros done errs s Hhead.
  - assert (at_exit (done ++ []) s) as Hexit.
    { destruct Hhead as (Htrained & _ & _ & Heps).
      exists done, [], errs, (length done / 10)%nat. split_and!; [done..| |done].
      rewrite <- (Forall2_length _ _ _ Htrained). div_lia. }
    simpl. destruct (converged s); by intros [= <- <-].
  - simpl. destruct (should_stop it || converged s).
    + intros [= <- <-]. destruct Hhead as (Htrained & _ & _ & Heps).
      exists done, (it :: rest), errs, (length done / 10)%nat.
      split_and!; [done..| |done].
      rewrite <- (Forall2_length _ _ _ Htrained). div_lia.
    + unfold seq. destruct (fit_iteration self (lb, ub) it s) as [c1 s1] eqn:Hit.
      pose proof (fit_iteration_window it done errs s c1 s1 Hhead Hit) as Hwindow.
      assert (c1 ≠ Normal →
              (∃ done' errs' d,
                 (done' = done ∨ done' = done ++ [it]) ∧ trained done' errs'
                 ∧ (10 * d ≤ length errs')%nat ∧ eps s1 = eps_after errs' d) →
              at_exit (done ++ it :: rest) s1) as Hexit.
      { intros _ (done' & errs' & d & [-> | ->] & Htrained' & Hd & Heps').
        - by exists done, (it :: rest), errs', d.
        - exists (done ++ [it]), rest, errs', d.
          split_and!; [by rewrite <- app_assoc|done..]. }
      destruct c1 as [|v|e1]; [|intros [= <- <-]; by apply Hexit..].
      destruct Hwindow as [e Hhead']. intros Hloop.
      replace (done ++ it :: rest) with ((done ++ [it]) ++ rest)
        by (by rewrite <- app_assoc).
      by eapply IH.
Qed.
End FitWindow.

(** X12.  [eps], on which [fit] decides that training has converged, is
    [100] until the first display and afterwards the sum of the errors
    of ten consecutive batches, the [k]-th block of ten of the run,
    divided by 25: the errors since the previous display, and so four
    tenths of their mean.  [fit] stops for convergence only on such a
    block.  (Scores are rationals here, so the order in which the errors
    are added does not show.) *)
Theorem fit_eps_sums_ten_batches (self : SRLAgent) (env : fit_env) :
  let s := (fit self env).2 in
  (eps s = Qc_of_Z 100 ∧ converged s = false)
  ∨ ∃ (k : nat) (errs : list score),
      Forall2 (λ it e, ∃ loss, run_ops it = Ok (loss, e))
        (take 10 (drop (10 * k) (iterations env))) errs
      ∧ length errs = 10%nat
      ∧ eps s = (foldr Qcplus 0%Qc errs / Qc_of_Z 25)%Qc.
Proof.
  cbv zeta.
  assert (∃ done rest errs d,
            iterations env = done ++ rest
            ∧ Forall2 (λ it e, ∃ loss, run_ops it = Ok (loss, e)) done errs
            ∧ (10 * d ≤ length errs)%nat
            ∧ eps (fit self env).2
              = match d with
                | O => Qc_of_Z 100
                | S k => (foldr Qcplus 0%Qc (take 10 (drop (10 * k) errs))
                          / Qc_of_Z 25)%Qc
                end) as (done & rest & errs & d & Hits & Htrained & Hd & Heps).
  { unfold fit.
    assert (eps (fit_enter self (restored_f1 env)).2 = Qc_of_Z 100
            ∧ step (fit_enter self (restored_f1 env)).2 = 1
            ∧ total_error (fit_enter self (restored_f1 env)).2 = 0%Qc)
      as (Heps0 & Hstep0 & Htotal0).
    { unfold fit_enter. by destruct (_restore_session self); [destruct (restored_f1 env)|]. }
    destruct (fit_enter self (restored_f1 env)) as [c0 s0]. simpl in *.
    assert (c0 ≠ Normal →
            ∃ done rest errs d,
              iterations env = done ++ rest
              ∧ Forall2 (λ it e, ∃ loss, run_ops it = Ok (loss, e)) done errs
              ∧ (10 * d ≤ length errs)%nat
              ∧ eps s0
                = match d with
                  | O => Qc_of_Z 100
                  | S k => (foldr Qcplus 0%Qc (take 10 (drop (10 * k) errs))
                            / Qc_of_Z 25)%Qc
                  end) as Hraised.
    { intros _. exists [], (iterations env), [], 0%nat.
      split_and!; [done|constructor|simpl; lia|done]. }
    destruct c0 as [|v|e0]; [|by apply Hraised..].
    destruct (train_bounds env) as [lb ub].
    rewrite AgentsTheory.fit_try_unfold. cbn [snd].
    destruct (fit_loop self (lb, ub) (iterations env) s0) as [c s1] eqn:Hloop.
    apply (fit_loop_window self lb ub (iterations env) [] [] s0 c s1); [|done].
    split_and!; [constructor|done..]. }
  destruct d as [|k].
  - left. split; [done|]. unfold converged. by rewrite Heps.
  - right. exists k, (take 10 (drop (10 * k) errs)).
    pose proof (Forall2_length _ _ _ Htrained) as Hlen.
    split_and!; [| |done].
    + rewrite Hits, drop_app_le by lia.
      rewrite take_app_le by (rewrite length_drop; lia).
      by apply Forall2_take, Forall2_drop.
    + rewrite length_take, length_drop. lia.
Qed.

End AgentsProperties.

(** ** Output directories and settings: further properties *)

Module DataOutputsProperties.
Import DataOutputs PyTheory Inputs DataOutputsTheory.

(** *** _make_dir: what a call does to the directory *)

Lemma py_int_raises s e : py_int s = Some (Raise e) → exn_cls e = ValueError.
Proof.
  unfold py_int. destruct (existsb beyond_ascii (chars s)); [done|].
  destruct (int_signed (strip (chars s))); [done|]. by intros [= <-].
Qed.

Lemma glob_digits_none dir entries globbed :
  Forall (λ e, starts_with_digit e.1 = false) entries →
  glob_digits dir entries = Some globbed → globbed = [].
Proof.
  intros Hnone. unfold glob_digits. destruct (_ || _); [done|]. intros [= <-].
  induction Hnone as [|e entries He _ IH]; [done|].
  rewrite filter_cons_False; [done|]. cbn. rewrite He. by intros [].
Qed.

(** X13.  On the names that the model of [_make_dir] covers (a directory
    name without glob wildcards that, read as a pattern, has literal
    characters, [.] and [+] only), a call never removes or renames an
    entry.  When it raises, the directory is as it was, and the
    exception is the [ValueError] of [int], or the [FileExistsError] of
    [os.makedirs] for a run number that names a file.  When it returns a
    path, the path is [experiment_dir + number + '/'] and [number] is a
    directory afterwards: either it was one already and nothing changed,
    or no entry of that name existed and it was added as the last one.
    When no entry starts with a digit, the call returns
    [experiment_dir + '00/'] and adds the directory [00]. *)
Theorem make_dir_keeps_entries (prefix hparam_string : string) (entries : listing)
    (r : result string) (entries' : listing) :
  let experiment_dir := prefix +:+ "/" +:+ hparam_string +:+ "/" in
  _make_dir prefix hparam_string entries = Some (r, entries') →
  match r with
  | Raise e =>
      entries' = entries
      ∧ (exn_cls e = ValueError
         ∨ (exn_cls e = FileExistsError
            ∧ ∃ number, (number, false) ∈ entries ∧ ¬ (number, true) ∈ entries))
  | Ok path =>
      ∃ number,
        path = experiment_dir +:+ number +:+ "/"
        ∧ (number, true) ∈ entries'
        ∧ (((number, true) ∈ entries ∧ entries' = entries)
           ∨ (¬ (number, true) ∈ entries ∧ ¬ (number, false) ∈ entries
              ∧ entries' = entries ++ [(number, true)]))
  end
  ∧ (Forall (λ e, starts_with_digit e.1 = false) entries →
     r = Ok (experiment_dir +:+ "00" +:+ "/") ∧ entries' = entries ++ [("00", true)]).
Proof.
  intros experiment_dir. unfold _make_dir. fold experiment_dir.
  destruct (glob_digits experiment_dir entries) as [globbed|] eqn:Hglob; [|done].
  cbn [mbind option_bind].
  set (number := match last (sorted globbed) with
                 | Some last_id => _
                 | None => _
                 end).
  assert (Forall (λ e, starts_with_digit e.1 = false) entries →
          number = Some (Ok "00")) as Hfresh.
  { intros Hnone. unfold number.
    by rewrite (glob_digits_none _ _ _ Hnone Hglob). }
  assert (∀ d, Forall (λ e, starts_with_digit e.1 = false) entries →
               ¬ ("00", d) ∈ entries) as Hfree.
  { intros d Hnone Hin. by apply (proj1 (Forall_forall _ _) Hnone) in Hin. }
  assert (∀ e, number = Some (Raise e) → exn_cls e = ValueError) as Hvalue.
  { unfold number. destruct (last (sorted globbed)) as [last_id|]; [|done].
    destruct (re_sub_empty experiment_dir last_id) as [stripped|]; [|done].
    cbn [mbind option_bind].
    destruct (py_int stripped) as [[n|e']|] eqn:Hint; [done| |done].
    intros e [= <-]. by apply (py_int_raises stripped). }
  destruct number as [[number|e]|]; [| |done]; cbn [mbind option_bind].
  - unfold ensure_dir. case_bool_decide as Hdir.
    + intros [= <- <-]. split.
      * exists number. split_and!; [done..|by left].
      * intros Hnone. specialize (Hfresh Hnone). simplify_eq.
        by destruct (Hfree true Hnone).
    + case_bool_decide as Hfile; intros [= <- <-]; split.
      * split; [done|]. right. split; [done|]. by exists number.
      * intros Hnone. specialize (Hfresh Hnone). simplify_eq.
        by destruct (Hfree false Hnone).
      * exists number. split_and!; [done| |by right].
        apply elem_of_app. right. by left.
      * intros Hnone. specialize (Hfresh Hnone). by simplify_eq.
  - intros [= <- <-]. split.
    + split; [done|]. left. by apply Hvalue.
    + intros Hnone. specialize (Hfresh Hnone). congruence.
Qed.

Lemma make_dir_keeps_entries_witness :
  ∃ number,
    "outputs/m/lr5.00e-03_hs32_ctx-p1/01/"
    = "outputs/m" +:+ "/" +:+ "lr5.00e-03_hs32_ctx-p1" +:+ "/" +:+ number +:+ "/"
    ∧ (number, true) ∈ [("00", true); ("params.json", false); ("01", true)].
Proof.
  destruct (make_dir_keeps_entries "outputs/m" "lr5.00e-03_hs32_ctx-p1"
              [("00", true); ("params.json", false)]
              (Ok "outputs/m/lr5.00e-03_hs32_ctx-p1/01/")
              [("00", true); ("params.json", false); ("01", true)])
    as [(number & Hpath & Hin & _) _].
  - vm_compute. reflexivity.
  - exists number. split; [exact Hpath|exact Hin].
Defined.

(** A name with a parenthesis is outside these names.  In a directory
    with the run [1] and a file [02], the next run is [02] and cannot be
    created. *)
Example make_dir_other_names :
  _make_dir "outputs/bi(lstm)" "lr5.00e-03_hs32_ctx-p1" [("00", true)] = None
  ∧ ∃ msg,
      _make_dir "outputs/m" "lr5.00e-03_hs32_ctx-p1" [("1", true); ("02", false)]
      = Some (Raise (Exn FileExistsError msg), [("1", true); ("02", false)]).
Proof. split; [vm_compute; reflexivity|]. eexists. vm_compute. reflexivity. Qed.

(** *** _make_dir: successive runs *)

Lemma le_append_prefix (p a b : string) : String.le a b → String.le (p +:+ a) (p +:+ b).
Proof.
  unfold String.le, String.leb. intros Hab. induction p as [|c p IH]; [done|].
  change (String c p +:+ a) with (String c (p +:+ a)).
  change (String c p +:+ b) with (String c (p +:+ b)).
  simpl. unfold Ascii.compare. by rewrite N.compare_refl.
Qed.

Lemma last_sorted_max (l : list string) (x : string) :
  x ∈ l → (∀ y, y ∈ l → String.le y x) → last (sorted l) = Some x.
Proof.
  intros Hx Hmax.
  assert (StronglySorted String.le (sorted l)) as Hsorted.
  { apply StronglySorted_merge_sort; apply _. }
  assert (x ∈ sorted l) as Hx'.
  { unfold sorted. by rewrite merge_sort_Permutation. }
  destruct (last (sorted l)) as [z|] eqn:Hlast.
  - f_equal. pose proof (last_sorted_elem _ _ Hlast) as Hz.
    apply last_Some in Hlast as [l' Hl']. rewrite Hl' in Hsorted, Hx'.
    apply elem_of_app in Hx' as [Hx'| ->%list_elem_of_singleton]; [|done].
    apply (anti_symm String.le); [by apply Hmax|].
    eapply StronglySorted_app_1_elem_of; [exact Hsorted|done|by left].
  - apply last_None in Hlast. rewrite Hlast in Hx'. by apply elem_of_nil in Hx'.
Qed.

(** The run numbers [0..100] as they are written and read back: each is
    written with digits only, [int] reads it back, and in the order of
    [sorted] the numbers below [100] come in their numeric order, while
    [100] comes before [99]. *)
Lemma run_numbers_table :
  forallb (λ i : Z,
             let name := format_02d i in
             forallb is_digit (chars name)
             && starts_with_digit name
             && match py_int name with Some (Ok n) => n =? i | _ => false end
             && forallb (λ j, String.leb (format_02d j)
                                (format_02d (if i <? 100 then i else 99)))
                  (seqZ 0 (i + 1)))
          (seqZ 0 101)
  = true.
Proof. vm_compute. reflexivity. Qed.

Lemma run_number (i : Z) :
  0 ≤ i ≤ 100 →
  numeral (format_02d i) ∧ starts_with_digit (format_02d i) = true
  ∧ py_int (format_02d i) = Some (Ok i)
  ∧ ∀ j, 0 ≤ j ≤ i →
      String.le (format_02d j) (format_02d (if i <? 100 then i else 99)).
Proof.
  intros Hi. pose proof run_numbers_table as Htable.
  rewrite forallb_forall in Htable. specialize (Htable i).
  rewrite <- list_elem_of_In, elem_of_seqZ in Htable.
  specialize (Htable ltac:(lia)). cbv zeta in Htable.
  apply andb_prop in Htable as [Htable Hle].
  apply andb_prop in Htable as [Htable Hint].
  apply andb_prop in Htable as [Hdigits Hstart].
  split_and!.
  - split.
    + intros Hnil. unfold starts_with_digit in Hstart. by rewrite Hnil in Hstart.
    + apply Forall_forall. intros c Hc. apply Is_true_true.
      rewrite forallb_forall in Hdigits. apply Hdigits. by apply list_elem_of_In.
  - done.
  - destruct (py_int (format_02d i)) as [[n|]|]; [|done..].
    apply Z.eqb_eq in Hint. by subst n.
  - intros j Hj. apply Is_true_true. rewrite forallb_forall in Hle. apply Hle.
    rewrite <- list_elem_of_In, elem_of_seqZ. lia.
Qed.

(** X14.  Runs in one directory are numbered [00], [01], ... up to [100]
    and no further.  In a directory with a literal name whose entries
    starting with a digit are exactly the run directories [00] to
    [k - 1], a call with [k ≤ 100] creates and returns run [k]; but
    once run [100] exists ([k = 101]), [sorted] puts [99] last, so every
    later call returns [100/] again and creates nothing. *)
Theorem make_dir_successive_runs (prefix hparam_string : string) (entries : listing)
    (k : Z) :
  let experiment_dir := prefix +:+ "/" +:+ hparam_string +:+ "/" in
  literal_path experiment_dir →
  ¬ chars "//" `suffix_of` chars experiment_dir →
  0 ≤ k ≤ 101 →
  (∀ name kind, (name, kind) ∈ entries → starts_with_digit name = true →
     kind = true ∧ ∃ i, 0 ≤ i < k ∧ name = format_02d i) →
  (∀ i, 0 ≤ i < k → (format_02d i, true) ∈ entries) →
  _make_dir prefix hparam_string entries
  = Some (Ok (experiment_dir +:+ format_02d (k `min` 100) +:+ "/"),
          if bool_decide (k ≤ 100) then entries ++ [(format_02d k, true)] else entries).
Proof.
  intros experiment_dir Hlit Hsuffix Hk Honly Hall.
  assert ("/"%char ∈ chars experiment_dir) as Hslash.
  { unfold experiment_dir. rewrite !chars_app. set_unfold. right. by left. }
  unfold _make_dir. fold experiment_dir.
  rewrite glob_digits_literal by done. cbn [mbind option_bind].
  set (globbed := (λ e : string * bool, experiment_dir +:+ e.1)
                    <$> filter (λ e, starts_with_digit e.1) entries).
  assert (∀ number kind, 0 ≤ number ≤ 100 → k ≤ number →
            ¬ (format_02d number, kind) ∈ entries) as Hfresh.
  { intros number kind Hnumber Hge Hin.
    destruct (run_number number Hnumber) as (_ & Hstart & Hint & _).
    destruct (Honly _ _ Hin Hstart) as (_ & i & Hi & Heq).
    destruct (run_number i ltac:(lia)) as (_ & _ & Hint' & _).
    rewrite Heq, Hint' in Hint. injection Hint as ->. lia. }
  destruct (decide (k = 0)) as [->|Hk0].
  - assert (globbed = []) as ->.
    { unfold globbed. destruct (filter _ entries) as [|[name kind] rest] eqn:Hfilter; [done|].
      assert ((name, kind) ∈ filter (λ e, starts_with_digit e.1) entries) as Hin
        by (rewrite Hfilter; by left).
      apply list_elem_of_filter in Hin as [Hstart%Is_true_true Hin].
      destruct (Honly _ _ Hin Hstart) as (_ & i & Hi & _). lia. }
    change (last (sorted [])) with (@None string). cbn [mbind option_bind].
    unfold ensure_dir. change (format_02d (0 `min` 100)) with "00".
    change (format_02d 0) with "00" in Hfresh |- *.
    rewrite !bool_decide_false by (apply (Hfresh 0); lia). done.
  - set (m := if k - 1 <? 100 then k - 1 else 99).
    assert (0 ≤ m < k ∧ m ≤ 99 ∧ m + 1 = k `min` 100) as (Hm & Hm99 & Hnext).
    { unfold m. destruct (Z.ltb_spec (k - 1) 100); lia. }
    destruct (run_number (k - 1) ltac:(lia)) as (_ & _ & _ & Hle). fold m in Hle.
    destruct (run_number m ltac:(lia)) as (Hnum & Hstart & Hint & _).
    assert (last (sorted globbed) = Some (experiment_dir +:+ format_02d m)) as ->.
    { apply last_sorted_max.
      - unfold globbed. apply list_elem_of_fmap. exists (format_02d m, true).
        split; [done|]. apply list_elem_of_filter. split; [by apply Is_true_true|].
        apply Hall. lia.
      - intros y ([name kind] & -> & Hin)%list_elem_of_fmap.
        apply list_elem_of_filter in Hin as [Hdigit%Is_true_true Hin]. simpl in *.
        destruct (Honly _ _ Hin Hdigit) as (_ & i & Hi & ->).
        apply le_append_prefix, Hle. lia. }
    rewrite re_sub_empty_literal by (done || by apply numeral_no_slash).
    cbn [mbind option_bind]. rewrite Hint. cbn [mbind option_bind result_bind].
    rewrite Hnext. unfold ensure_dir. destruct (decide (k ≤ 100)) as [Hk100|Hk100].
    + rewrite (bool_decide_true (k ≤ 100)) by done.
      replace (k `min` 100) with k by lia.
      rewrite !bool_decide_false by (apply (Hfresh k); lia). done.
    + rewrite (bool_decide_false (k ≤ 100)) by done.
      replace (k `min` 100) with 100 by lia.
      rewrite bool_decide_true by (apply Hall; lia). done.
Qed.

Lemma make_dir_successive_runs_witness :
  _make_dir "outputs/multi_bibasic_lstm" "lr5.00e-03_hs32x32x32_ctx-p0"
    [("00", true); ("settings.txt", false); ("01", true)]
  = Some (Ok "outputs/multi_bibasic_lstm/lr5.00e-03_hs32x32x32_ctx-p0/02/",
          [("00", true); ("settings.txt", false); ("01", true); ("02", true)]).
Proof.
  apply (make_dir_successive_runs "outputs/multi_bibasic_lstm"
           "lr5.00e-03_hs32x32x32_ctx-p0"
           [("00", true); ("settings.txt", false); ("01", true)] 2).
  - apply (bool_decide_unpack _). vm_compute. exact I.
  - apply (bool_decide_unpack _). vm_compute. exact I.
  - lia.
  - intros name kind Hin Hdigit.
    repeat (apply elem_of_cons in Hin as [[= -> ->]|Hin];
            [first [discriminate Hdigit
                   | split; [done|]; first [by exists 0|by exists 1]]|]).
    by apply elem_of_nil in Hin.
  - intros i Hi. assert (i = 0 ∨ i = 1) as [-> | ->] by lia.
    + by left.
    + right. right. by left.
Defined.

(** *** _make_hparam_string *)

Lemma chars_inj (a b : string) : chars a = chars b → a = b.
Proof. intros H. by rewrite <- (text_chars a), <- (text_chars b), H. Qed.

Lemma pretty_N_go_chars (P : ascii → Prop) (x : N) (s : string) :
  (∀ d, P (pretty_N_char d)) → Forall P (chars s) → Forall P (chars (pretty_N_go x s)).
Proof.
  intros Hdigit. revert s. induction (N.lt_wf_0 x) as [x _ IH]. intros s Hs.
  destruct (decide (x = 0%N)) as [->|Hx].
  - by rewrite pretty_N_go_0.
  - rewrite pretty_N_go_step by lia.
    apply IH; [apply N.div_lt; lia|]. by constructor.
Qed.

(** The characters of a number written in decimal: digits, after a
    possible minus sign. *)
Lemma pretty_Z_chars (z : Z) :
  chars (pretty z) ≠ []
  ∧ Forall (λ c, is_digit c = true ∨ c = "-"%char) (chars (pretty z)).
Proof.
  assert (∀ x : N, Forall (λ c, is_digit c = true ∨ c = "-"%char) (chars (pretty x)))
    as Hdigits.
  { intros x. unfold pretty, pretty_N. case_decide; [by repeat constructor|].
    apply pretty_N_go_chars; [|constructor].
    intros d. left. unfold pretty_N_char. by repeat case_match. }
  assert (∀ x : N, chars (pretty x) ≠ []) as Hne.
  { intros x Hnil. pose proof (proj1 (pretty_N_length x)) as Hlen.
    rewrite <- length_chars, Hnil in Hlen. simpl in Hlen. lia. }
  destruct z as [|p|p].
  - split; [done|by repeat constructor].
  - split; [apply (Hne (N.pos p))|apply (Hdigits (N.pos p))].
  - change (pretty (Z.neg p)) with ("-" +:+ pretty (N.pos p)).
    split; [done|]. constructor; [by right|apply (Hdigits (N.pos p))].
Qed.

Lemma token_chars (z : Z) (c : ascii) :
  c ∈ chars (pretty z) →
  c ≠ "["%char ∧ c ≠ "]"%char ∧ c ≠ ","%char ∧ c ≠ "x"%char.
Proof.
  intros Hc. destruct (pretty_Z_chars z) as [_ Hz].
  rewrite Forall_forall in Hz. destruct (Hz c Hc) as [Hd| ->]; [|done].
  split_and!; by intros ->.
Qed.

Lemma sub_comma_space_other (c : ascii) (s : list ascii) :
  c ≠ ","%char → sub_comma_space (c :: s) = c :: sub_comma_space s.
Proof. intros Hc. by destruct c as [[] [] [] [] [] [] [] []]. Qed.

Lemma sub_comma_space_token (ds rest : list ascii) :
  Forall (λ c, c ≠ ","%char) ds →
  sub_comma_space (ds ++ rest) = ds ++ sub_comma_space rest.
Proof.
  induction 1 as [|c ds Hc _ IH]; [done|].
  rewrite <- app_comm_cons, sub_comma_space_other by done. by rewrite IH.
Qed.

Lemma str_items_cons (x y : Z) (l : list Z) :
  str_items (x :: y :: l) = pretty x +:+ ", " +:+ str_items (y :: l).
Proof. done. Qed.

Lemma concat_cons (sep x y : string) (l : list string) :
  String.concat sep (x :: y :: l) = x +:+ sep +:+ String.concat sep (y :: l).
Proof. done. Qed.

Lemma str_items_no_brackets (l : list Z) :
  Forall (λ c, ¬ (c = "["%char ∨ c = "]"%char)) (chars (str_items l)).
Proof.
  induction l as [|x [|y l] IH].
  - constructor.
  - apply Forall_forall. intros c Hc%token_chars. tauto.
  - rewrite str_items_cons, !chars_app. apply Forall_app. split.
    + apply Forall_forall. intros c Hc%token_chars. tauto.
    + apply Forall_app. split; [|done]. repeat constructor; by intros [|].
Qed.

Lemma filter_all {A} (P : A → Prop) `{∀ x, Decision (P x)} (l : list A) :
  Forall P l → filter P l = l.
Proof.
  induction 1 as [|x l Hx _ IH]; [done|]. by rewrite filter_cons_True, IH.
Qed.

Lemma sub_brackets_str_list (l : list Z) : sub_brackets (str_list l) = str_items l.
Proof.
  unfold sub_brackets, str_list. rewrite !chars_app, !filter_app.
  rewrite (filter_all _ (chars (str_items l))) by apply str_items_no_brackets.
  change (chars "[") with ["["%char]. change (chars "]") with ["]"%char].
  rewrite (filter_singleton_False _ "["%char []) by (intros H; apply H; by left).
  rewrite (filter_singleton_False _ "]"%char []) by (intros H; apply H; by right).
  simpl. by rewrite app_nil_r, text_chars.
Qed.

Lemma sub_comma_space_str_items (l : list Z) :
  sub_comma_space (chars (str_items l)) = chars (String.concat "x" (pretty <$> l)).
Proof.
  induction l as [|x [|y l] IH].
  - done.
  - simpl. rewrite <- (app_nil_r (chars (pretty x))) at 1.
    rewrite sub_comma_space_token; [by rewrite app_nil_r|].
    apply Forall_forall. intros c Hc%token_chars. tauto.
  - rewrite str_items_cons. change (pretty <$> x :: y :: l)
      with (pretty x :: pretty y :: (pretty <$> l)).
    rewrite concat_cons, !chars_app.
    rewrite sub_comma_space_token
      by (apply Forall_forall; intros c Hc%token_chars; tauto).
    f_equal. change (chars ", " ++ chars (str_items (y :: l)))
      with (","%char :: " "%char :: chars (str_items (y :: l))).
    change (sub_comma_space (","%char :: " "%char :: chars (str_items (y :: l))))
      with ("x"%char :: sub_comma_space (chars (str_items (y :: l)))).
    by rewrite IH.
Qed.

(** Where a token ends: before an [x], or with the string. *)
Lemma token_split (a b ra rb : list ascii) :
  Forall (λ c, c ≠ "x"%char) a → Forall (λ c, c ≠ "x"%char) b →
  (ra = [] ∨ ∃ ra', ra = "x"%char :: ra') → (rb = [] ∨ ∃ rb', rb = "x"%char :: rb') →
  a ++ ra = b ++ rb → a = b ∧ ra = rb.
Proof.
  intros Ha. revert b. induction Ha as [|c a Hc Ha IH]; intros b Hb Hra Hrb Heq.
  - destruct Hb as [|d b Hd Hb]; [done|]. simpl in Heq.
    destruct Hra as [->|[ra' ->]]; [done|]. by injection Heq as <- _.
  - destruct Hb as [|d b Hd Hb].
    + simpl in Heq. destruct Hrb as [->|[rb' ->]]; [done|]. by injection Heq as -> _.
    + simpl in Heq. injection Heq as -> Heq.
      destruct (IH b Hb Hra Hrb Heq) as [-> ->]. done.
Qed.

Lemma concat_x_inj (l1 l2 : list Z) :
  String.concat "x" (pretty <$> l1) = String.concat "x" (pretty <$> l2) → l1 = l2.
Proof.
  assert (∀ z : Z, Forall (λ c, c ≠ "x"%char) (chars (pretty z))) as Htoken.
  { intros z. apply Forall_forall. intros c Hc%token_chars. tauto. }
  assert (∀ (z : Z) l, chars (String.concat "x" (pretty <$> z :: l))
                 = chars (pretty z)
                   ++ match l with
                      | [] => []
                      | _ => "x"%char :: chars (String.concat "x" (pretty <$> l))
                      end) as Hcons.
  { intros z [|y l]; [by rewrite app_nil_r|].
    change (pretty <$> z :: y :: l) with (pretty z :: pretty y :: (pretty <$> l)).
    by rewrite concat_cons, !chars_app. }
  assert (∀ (z : Z) l, String.concat "x" (pretty <$> z :: l) ≠ "") as Hne.
  { intros z l Hnil%(f_equal chars). rewrite Hcons in Hnil.
    apply app_eq_nil in Hnil as [Hnil _]. by destruct (pretty_Z_chars z). }
  revert l2. induction l1 as [|x l1 IH]; intros [|y l2] Heq.
  - done.
  - symmetry in Heq. by apply Hne in Heq.
  - by apply Hne in Heq.
  - apply (f_equal chars) in Heq. rewrite !Hcons in Heq.
    apply token_split in Heq as [Hxy Hrest]; [|done..| |].
    + apply chars_inj, (inj pretty) in Hxy as ->. f_equal.
      destruct l1 as [|x1 l1], l2 as [|y1 l2]; [done..|].
      injection Hrest as Hrest%chars_inj. by apply IH.
    + destruct l1; [by left|right; eauto].
    + destruct l2; [by left|right; eauto].
Qed.

Lemma hparam_string_shape (lr_2e : string) (hidden_sizes : list Z) (ctx_p : Z)
    (embeddings_id : string) :
  _make_hparam_string lr_2e hidden_sizes ctx_p embeddings_id
  = "lr" +:+ lr_2e +:+ "_hs" +:+ String.concat "x" (pretty <$> hidden_sizes)
    +:+ "_ctx-p" +:+ pretty ctx_p
    +:+ (if bool_decide (embeddings_id = "") then "" else "_" +:+ embeddings_id).
Proof.
  unfold _make_hparam_string.
  rewrite sub_brackets_str_list, sub_comma_space_str_items, text_chars.
  case_bool_decide as Hemb.
  - rewrite bool_decide_false by done. by rewrite !append_assoc.
  - rewrite bool_decide_true by (by destruct (decide (embeddings_id = ""))).
    by rewrite append_empty_r.
Qed.

(** X15.  The directory name made of the hyper-parameters spells the
    hidden sizes in decimal, joined by [x] ([[32, 32, 32]] gives
    [32x32x32] and the empty list gives nothing), between the learning
    rate and the context size; the embeddings' name, when given, comes
    last after an underscore.  With the other parameters the same, two
    lists of hidden sizes share a name only when they are equal. *)
Theorem make_hparam_string_joins_sizes (lr_2e : string) (hidden_sizes : list Z)
    (ctx_p : Z) (embeddings_id : string) :
  _make_hparam_string lr_2e hidden_sizes ctx_p embeddings_id
  = "lr" +:+ lr_2e +:+ "_hs" +:+ String.concat "x" (pretty <$> hidden_sizes)
    +:+ "_ctx-p" +:+ pretty ctx_p
    +:+ (if bool_decide (embeddings_id = "") then "" else "_" +:+ embeddings_id)
  ∧ ∀ hidden_sizes',
      _make_hparam_string lr_2e hidden_sizes' ctx_p embeddings_id
      = _make_hparam_string lr_2e hidden_sizes ctx_p embeddings_id →
      hidden_sizes' = hidden_sizes.
Proof.
  split; [apply hparam_string_shape|].
  intros l'. rewrite !hparam_string_shape. intros Heq%(f_equal chars).
  rewrite !chars_app in Heq. do 3 apply app_inv_head in Heq.
  apply app_inv_tail, chars_inj in Heq. by apply concat_x_inj.
Qed.

(** *** dir_getoutputs: the names it makes *)

Lemma concat_x_chars (P : ascii → Prop) (l : list Z) :
  P "x"%char → (∀ z : Z, Forall P (chars (pretty z))) →
  Forall P (chars (String.concat "x" (pretty <$> l))).
Proof.
  intros Hx Htoken. induction l as [|z [|y l] IH].
  - constructor.
  - apply Htoken.
  - change (pretty <$> z :: y :: l) with (pretty z :: pretty y :: (pretty <$> l)).
    rewrite concat_cons, !chars_app. apply Forall_app. split; [apply Htoken|].
    apply Forall_app. split; [by repeat constructor|apply IH].
Qed.

Lemma literal_plain (c : ascii) :
  is_digit c = true ∨ c ∈ chars ".e-x" → is_Some (atom_of c).
Proof.
  intros [Hc%is_digit_cases|Hc];
    repeat (apply elem_of_cons in Hc as [->|Hc]; [by eexists|]);
    by apply elem_of_nil in Hc.
Qed.

Lemma literal_token (z : Z) : Forall (λ c, is_Some (atom_of c)) (chars (pretty z)).
Proof.
  destruct (pretty_Z_chars z) as [_ Hz]. eapply Forall_impl; [exact Hz|].
  intros c [Hd| ->]; [apply literal_plain; by left|by eexists].
Qed.

Lemma no_double_slash (a t : list ascii) :
  t ≠ [] → "/"%char ∉ t → ¬ chars "//" `suffix_of` a ++ t ++ ["/"%char].
Proof.
  intros Ht Hslash [k Hk]. destruct t as [|x t _] using rev_ind; [done|].
  change (chars "//") with (["/"%char] ++ ["/"%char]) in Hk.
  rewrite !app_assoc in Hk. apply app_inj_tail in Hk as [Hk _].
  apply app_inj_tail in Hk as [_ ->]. apply Hslash, elem_of_app. right. by left.
Qed.

(** X24.  Which names [dir_getoutputs] makes are read by [re.sub] and
    [glob] as they are written.  For a learning rate in the form of
    ['{:.2e}'] and model and embeddings names without special
    characters, the directory name is literal exactly when the learning
    rate has no [+], that is when its exponent is negative; the name
    never ends in two slashes.  So what holds of [_make_dir] on
    literal names holds of [dir_getoutputs] for every learning rate
    written with a negative exponent, as in [5.00e-03], and a [+] in
    the rate is the only thing that takes a call out of that case. *)
Theorem dir_getoutputs_name_literal (lr_2e : string) (hidden_sizes : list Z)
    (ctx_p : Z) (embeddings_id model_name : string) :
  Forall (λ c, is_digit c = true ∨ c ∈ chars ".e-+") (chars lr_2e) →
  literal_path model_name →
  literal_path embeddings_id →
  "/"%char ∉ chars embeddings_id →
  let experiment_dir :=
    ("outputs/" +:+ model_name) +:+ "/"
    +:+ _make_hparam_string lr_2e hidden_sizes ctx_p embeddings_id +:+ "/" in
  (literal_path experiment_dir ↔ "+"%char ∉ chars lr_2e)
  ∧ ¬ chars "//" `suffix_of` chars experiment_dir
  ∧ ∀ entries,
      dir_getoutputs lr_2e hidden_sizes ctx_p embeddings_id model_name entries
      = _make_dir ("outputs/" +:+ model_name)
          (_make_hparam_string lr_2e hidden_sizes ctx_p embeddings_id) entries.
Proof.
  intros Hlr Hmodel Hemb Hslash experiment_dir. subst experiment_dir.
  rewrite hparam_string_shape.
  set (tail := if bool_decide (embeddings_id = "") then "" else "_" +:+ embeddings_id).
  assert (literal_path tail ∧ "/"%char ∉ chars tail) as [Htail Htail_slash].
  { unfold tail, literal_path.
    case_bool_decide; [split; [constructor|apply not_elem_of_nil]|].
    rewrite chars_app. split.
    - apply Forall_app. split; [by repeat constructor; eexists|done].
    - intros [Hin|Hin]%elem_of_app; [|done].
      apply elem_of_cons in Hin as [[=]|Hin]. by apply elem_of_nil in Hin. }
  assert (Forall (λ c, is_Some (atom_of c))
            (chars (String.concat "x" (pretty <$> hidden_sizes)))) as Hsizes.
  { apply concat_x_chars; [by eexists|apply literal_token]. }
  split_and!; [|clear Hsizes|intros entries; unfold dir_getoutputs;
                                by rewrite hparam_string_shape].
  - split.
    + intros Hlit Hplus. unfold literal_path in Hlit. rewrite Forall_forall in Hlit.
      destruct (Hlit "+"%char) as [a Ha]; [|done].
      rewrite !chars_app, !elem_of_app. tauto.
    + intros Hplus. unfold literal_path. rewrite !chars_app, !Forall_app.
      split_and!; try done; try (by repeat constructor; eexists).
      * apply Forall_forall. intros c Hc.
        rewrite Forall_forall in Hlr. destruct (Hlr c Hc) as [Hd|Hin].
        -- apply literal_plain. by left.
        -- do 3 (apply elem_of_cons in Hin as [->|Hin]; [by eexists|]).
           apply elem_of_cons in Hin as [->|Hin]; [done|].
           by apply elem_of_nil in Hin.
      * apply literal_token.
  - rewrite !chars_app.
    rewrite !app_assoc. rewrite <- (app_assoc _ (chars (pretty ctx_p)) (chars tail)).
    rewrite <- app_assoc. apply no_double_slash.
    + destruct (pretty_Z_chars ctx_p) as [Hne _]. intros [? _]%app_eq_nil. done.
    + intros [Hin|Hin]%elem_of_app; [|done].
      destruct (pretty_Z_chars ctx_p) as [_ Hdigits].
      rewrite Forall_forall in Hdigits.
      destruct (Hdigits _ Hin) as [Hd|]; [|done]. by apply is_digit_not_slash in Hd.
Qed.

Lemma dir_getoutputs_name_literal_witness :
  literal_path "outputs/multi_bibasic_lstm/lr5.00e-03_hs32x32x32_ctx-p1_wan50/"
  ∧ ¬ literal_path "outputs/multi_bibasic_lstm/lr1.00e+00_hs32x32x32_ctx-p1_wan50/".
Proof.
  split.
  - apply (proj2 (proj1 (dir_getoutputs_name_literal "5.00e-03" [32; 32; 32] 1 "wan50"
                           "multi_bibasic_lstm"
                           ltac:(apply (bool_decide_unpack _); vm_compute; exact I)
                           ltac:(apply (bool_decide_unpack _); vm_compute; exact I)
                           ltac:(apply (bool_decide_unpack _); vm_compute; exact I)
                           ltac:(apply (bool_decide_unpack _); vm_compute; exact I)))).
    apply (bool_decide_unpack _). vm_compute. exact I.
  - intros Hlit.
    apply (proj1 (proj1 (dir_getoutputs_name_literal "1.00e+00" [32; 32; 32] 1 "wan50"
                           "multi_bibasic_lstm"
                           ltac:(apply (bool_decide_unpack _); vm_compute; exact I)
                           ltac:(apply (bool_decide_unpack _); vm_compute; exact I)
                           ltac:(apply (bool_decide_unpack _); vm_compute; exact I)
                           ltac:(apply (bool_decide_unpack _); vm_compute; exact I)))
             Hlit).
    apply (bool_decide_unpack _). vm_compute. exact I.
Defined.


(** *** outputs_settings_persist: the file is written anew *)

Section SettingsRewrite.
Context {value : Type}.
Variable format_value : value → string.
Variable open_error : string → option exn.

(** X16.  [outputs_settings_persist] rewrites the settings file from
    scratch: what the file held before has no influence on the outcome,
    and persisting the dict that was returned, in the same directory and
    with the same names, changes neither the dict nor any file. *)
Theorem outputs_settings_persist_rewrites (output_dir : string)
    (vars_dict : dict value) (to_persist : list string) (fs : gmap string string) :
  NoDup vars_dict.*1 →
  open_error (output_dir +:+ "settings.txt") = None →
  let persist := outputs_settings_persist value format_value open_error output_dir in
  let out := persist vars_dict to_persist fs in
  (∀ old, persist vars_dict to_persist (<[output_dir +:+ "settings.txt" := old]> fs) = out)
  ∧ ∃ kept, out.1 = Ok kept ∧ NoDup kept.*1 ∧ persist kept to_persist out.2 = out.
Proof.
  intros Hnd Hopen persist out. subst persist out. unfold outputs_settings_persist.
  rewrite Hopen. split.
  - intros old. by rewrite insert_insert_eq.
  - rewrite !settings_comprehension_filter by done.
    set (kept := filter (λ item : string * value, item.1 ∈ to_persist) vars_dict).
    assert (NoDup kept.*1) as Hkept.
    { eapply sublist_NoDup; [exact Hnd|]. apply fmap_sublist, sublist_filter; apply _. }
    exists kept. split_and!; [done..|].
    rewrite settings_comprehension_filter by done.
    assert (filter (λ item : string * value, item.1 ∈ to_persist) kept = kept) as ->.
    { apply filter_all. apply Forall_forall. intros item Hitem.
      by apply list_elem_of_filter in Hitem as [? _]. }
    cbn [fst snd]. f_equal.
    set (path := output_dir +:+ "settings.txt").
    destruct (write_lines format_value path kept (<[path := ""]> fs) "")
      as [Htext Hother]; [apply lookup_insert_eq|].
    set (fs1 := foldl (λ fs item, write path (settings_line value format_value item) fs)
                  (<[path := ""]> fs) kept) in *.
    destruct (write_lines format_value path kept (<[path := ""]> fs1) "")
      as [Htext' Hother']; [apply lookup_insert_eq|].
    apply map_eq. intros p. destruct (decide (p = path)) as [->|Hp].
    + by rewrite Htext', Htext.
    + rewrite Hother' by done. by rewrite lookup_insert_ne.
Qed.
End SettingsRewrite.

Lemma outputs_settings_persist_rewrites_witness :
  outputs_settings_persist Z pretty (λ _, None) "outputs/00/" vars_main SETTINGS
    {[ "outputs/00/settings.txt" := "lr: 1" ]}
  = outputs_settings_persist Z pretty (λ _, None) "outputs/00/" vars_main SETTINGS ∅.
Proof.
  apply (proj1 (outputs_settings_persist_rewrites pretty (λ _, None) "outputs/00/"
                  vars_main SETTINGS ∅ ltac:(apply (bool_decide_unpack _); vm_compute; exact I)
                  eq_refl)).
Defined.

End DataOutputsProperties.

(** ** DBLSTM: further properties *)

Module DblstmProperties.
Import Dblstm PyTheory Inputs DblstmTheory.

(** Linear arithmetic with quotients and remainders by constants. *)
Local Ltac div_lia := zify; Z.div_mod_to_equations; lia.

(** *** lazy_property *)

(** X18.  A [lazy_property] runs its function at most once per object.
    When an access returns [v], [v] is stored under [_cache_ + name] and
    every later access returns [v] and leaves the object as it is,
    without consulting the function (so any function in its place gives
    the same).  When an access raises, nothing was cached before and the
    exception is the function's own: the property stores no failure,
    and only what the function itself did to the object remains. *)
Theorem lazy_property_memoizes (name : string) (function other : method attr)
    (self self' : object) (r : result attr) :
  lazy_property name function self = (r, self') →
  match r with
  | Ok v =>
      self' !! ("_cache_" +:+ name) = Some v
      ∧ lazy_property name other self' = (Ok v, self')
      ∧ (∀ v0, self !! ("_cache_" +:+ name) = Some v0 → v = v0 ∧ self' = self)
      ∧ (self !! ("_cache_" +:+ name) = None →
         ∃ self1, function self = (Ok v, self1)
                  ∧ self' = <["_cache_" +:+ name := v]> self1)
  | Raise e =>
      self !! ("_cache_" +:+ name) = None ∧ function self = (Raise e, self')
  end.
Proof.
  destruct (self !! ("_cache_" +:+ name)) as [v0|] eqn:Hcache.
  - rewrite (lazy_property_cached name function self v0 Hcache). intros [= <- <-].
    split_and!; [done|by apply lazy_property_cached| |done].
    intros v1 [= <-]. done.
  - destruct (function self) as [[v|e] self1] eqn:Hf.
    + rewrite (lazy_property_fresh name function self v self1 Hcache Hf).
      intros [= <- <-]. split_and!; [apply lookup_insert_eq| |done|].
      * apply lazy_property_cached, lookup_insert_eq.
      * intros _. by exists self1.
    + rewrite (lazy_property_raise name function self e self1 Hcache Hf).
      by intros [= <- <-].
Qed.

Lemma lazy_property_memoizes_witness :
  ∃ v self',
    prediction HIDDEN_SIZE_main TARGET_SIZE_main 140 self_main = (Ok v, self')
    ∧ self' !! "_cache_prediction" = Some v
    ∧ lazy_property "prediction" (cost HIDDEN_SIZE_main TARGET_SIZE_main 140) self'
      = (Ok v, self').
Proof.
  destruct (prediction HIDDEN_SIZE_main TARGET_SIZE_main 140 self_main)
    as [r self'] eqn:Hrun.
  assert (∃ v, r = Ok v) as [v ->].
  { apply (f_equal fst) in Hrun. vm_compute in Hrun. subst r. eauto. }
  destruct (lazy_property_memoizes "prediction"
              (prediction_function HIDDEN_SIZE_main TARGET_SIZE_main 140)
              (cost HIDDEN_SIZE_main TARGET_SIZE_main 140)
              self_main self' (Ok v) Hrun) as (Hcache & Hagain & _ & _).
  exists v, self'. split_and!; [done|exact Hcache|exact Hagain].
Defined.

(** *** What prediction reads and writes *)

Section PredictionFrame.
Variable HIDDEN_SIZE : list Z.
Variable TARGET_SIZE : Z.
Variable id_self : Z.

Local Abbreviation prediction_function :=
  (prediction_function HIDDEN_SIZE TARGET_SIZE id_self).
Local Abbreviation prediction := (prediction HIDDEN_SIZE TARGET_SIZE id_self).

(** The outcome of the function behind [prediction], case by case. *)
Lemma prediction_function_outcome (self : object) :
  same_but_cells self (prediction_function self).2
  ∧ (prediction_function self).1
    = match HIDDEN_SIZE with
      | [] => Raise (Exn IndexError "list index out of range")
      | _ :: _ =>
          X ← (gettensor "X" self).1;
          seqlens ← (gettensor "seqlens" self).1;
          Ok (Tensor (architecture HIDDEN_SIZE TARGET_SIZE id_self X seqlens))
      end.
Proof.
  destruct HIDDEN_SIZE as [|sz0 rest] eqn:HHS.
  { split; [apply same_but_cells_refl|done]. }
  rewrite <- HHS.
  destruct (self !! "X") as [[X|c]|] eqn:HX.
  - destruct (self !! "seqlens") as [[seqlens|c]|] eqn:HL.
    + destruct (prediction_function_architecture HIDDEN_SIZE TARGET_SIZE id_self
                  X seqlens self) as (self' & -> & Hsame); [by rewrite HHS|done..|].
      split; [done|]. by rewrite (gettensor_Some "X" X), (gettensor_Some "seqlens" seqlens).
    + unfold Dblstm.prediction_function, gettensor, getattr, lift, setattr,
        mbind, method_bind, mret, method_ret. rewrite HHS. cbn [first_item].
      rewrite lookup_insert_ne, HX by done. cbn.
      rewrite lookup_insert_ne, HL by done. cbn.
      split; [apply same_but_cells_fw|done].
    + unfold Dblstm.prediction_function, gettensor, getattr, lift, setattr,
        mbind, method_bind, mret, method_ret. rewrite HHS. cbn [first_item].
      rewrite lookup_insert_ne, HX by done. cbn.
      rewrite lookup_insert_ne, HL by done. cbn.
      split; [apply same_but_cells_fw|done].
  - unfold Dblstm.prediction_function, gettensor, getattr, lift, setattr,
      mbind, method_bind, mret, method_ret. rewrite HHS. cbn [first_item].
    rewrite lookup_insert_ne, HX by done. cbn.
    split; [apply same_but_cells_fw|done].
  - unfold Dblstm.prediction_function, gettensor, getattr, lift, setattr,
      mbind, method_bind, mret, method_ret. rewrite HHS. cbn [first_item].
    rewrite lookup_insert_ne, HX by done. cbn.
    split; [apply same_but_cells_fw|done].
Qed.

(** [prediction] is its cache, or the function and then the cache. *)
Lemma prediction_unfold (self : object) :
  prediction self
  = match self !! "_cache_prediction" with
    | Some v => (Ok v, self)
    | None =>
        match prediction_function self with
        | (Ok v, self') => (Ok v, <["_cache_prediction" := v]> self')
        | (Raise e, self') => (Raise e, self')
        end
    end.
Proof.
  destruct (self !! "_cache_prediction") as [v|] eqn:Hcache.
  - by apply (lazy_property_cached "prediction").
  - destruct (prediction_function self) as [[v|e] self'] eqn:Hf.
    + by apply (lazy_property_fresh "prediction").
    + by apply (lazy_property_raise "prediction").
Qed.

(** The node that [prediction] builds afresh. *)
Lemma prediction_fresh_node (self : object) (v : attr) :
  self !! "_cache_prediction" = None → (prediction self).1 = Ok v →
  ∃ X seqlens, v = Tensor (architecture HIDDEN_SIZE TARGET_SIZE id_self X seqlens).
Proof.
  intros Hcache. rewrite prediction_unfold, Hcache.
  pose proof (proj2 (prediction_function_outcome self)) as Hout.
  destruct (prediction_function self) as [[v'|e] self']; [|done].
  cbn in *. intros [= ->]. destruct HIDDEN_SIZE; [done|].
  destruct (gettensor "X" self).1 as [X|]; [|done].
  destruct (gettensor "seqlens" self).1 as [seqlens|]; [|done].
  cbn in Hout. injection Hout as ->. eauto.
Qed.
End PredictionFrame.

(** The forward outputs of every layer live in the scope named after
    [id(self)] and the rank of the layer. *)
Lemma bilstm_layer_scope HIDDEN_SIZE id_self X seqlens i :
  ∃ inputs,
    (bilstm_layer HIDDEN_SIZE id_self X seqlens i).2
    = DynamicRnn (scope_fw (id_self + Z.of_nat i)) (get_unit (HIDDEN_SIZE !!! i))
        inputs seqlens.
Proof.
  destruct i as [|i].
  - rewrite bilstm_layer_first. cbn. rewrite Z.add_0_r. eauto.
  - rewrite bilstm_layer_next. cbv zeta.
    destruct (bilstm_layer HIDDEN_SIZE id_self X seqlens i) as [bw' fw']. cbn. eauto.
Qed.

Lemma architecture_id HIDDEN_SIZE TARGET_SIZE id1 id2 X1 X2 seqlens1 seqlens2 :
  architecture HIDDEN_SIZE TARGET_SIZE id1 X1 seqlens1
  = architecture HIDDEN_SIZE TARGET_SIZE id2 X2 seqlens2 →
  id1 = id2.
Proof.
  unfold architecture.
  destruct (bilstm_layer_scope HIDDEN_SIZE id1 X1 seqlens1 (length HIDDEN_SIZE - 1))
    as [in1 H1].
  destruct (bilstm_layer_scope HIDDEN_SIZE id2 X2 seqlens2 (length HIDDEN_SIZE - 1))
    as [in2 H2].
  destruct (bilstm_layer HIDDEN_SIZE id1 X1 seqlens1 _) as [bw1 fw1].
  destruct (bilstm_layer HIDDEN_SIZE id2 X2 seqlens2 _) as [bw2 fw2].
  cbn in H1, H2. subst fw1 fw2. unfold affine. intros [= _ Hscope _ _ _ _].
  apply (inj (String.append "")) in Hscope.
  apply (inj pretty) in Hscope. lia.
Qed.

(** X19.  [prediction] reads [X], [seqlens] and its own cache, and
    nothing else of the attributes of its object: in two states of the
    object that agree on these three attributes it gives the same node
    or the same exception, whatever [T], [Tflat] or the cells hold.  The
    node belongs to the object: its variable scopes are named after
    [id(self)], so the nodes built afresh on objects with different
    [id]s differ, whatever their attributes.  [prediction] writes only
    [cell_fw], [cell_bw] and its cache: every other attribute is
    afterwards as it was, also when it raises. *)
Theorem prediction_reads_and_writes (HIDDEN_SIZE : list Z) (TARGET_SIZE id_self : Z)
    (self1 self2 : object) :
  let prediction := prediction HIDDEN_SIZE TARGET_SIZE in
  (self1 !! "X" = self2 !! "X" →
   self1 !! "seqlens" = self2 !! "seqlens" →
   self1 !! "_cache_prediction" = self2 !! "_cache_prediction" →
   (prediction id_self self1).1 = (prediction id_self self2).1)
  ∧ (∀ id_other v,
       self1 !! "_cache_prediction" = None → self2 !! "_cache_prediction" = None →
       (prediction id_self self1).1 = Ok v → (prediction id_other self2).1 = Ok v →
       id_other = id_self)
  ∧ ∀ name,
      name ≠ "cell_fw" → name ≠ "cell_bw" → name ≠ "_cache_prediction" →
      (prediction id_self self1).2 !! name = self1 !! name.
Proof.
  cbv zeta. split_and!.
  - intros HX HL Hcache. rewrite !prediction_unfold, <- Hcache.
    destruct (self1 !! "_cache_prediction"); [done|].
    pose proof (proj2 (prediction_function_outcome HIDDEN_SIZE TARGET_SIZE id_self self1))
      as H1.
    pose proof (proj2 (prediction_function_outcome HIDDEN_SIZE TARGET_SIZE id_self self2))
      as H2.
    assert ((prediction_function HIDDEN_SIZE TARGET_SIZE id_self self1).1
            = (prediction_function HIDDEN_SIZE TARGET_SIZE id_self self2).1) as Hsame.
    { rewrite H1, H2. unfold gettensor, getattr, mbind, method_bind.
      rewrite HX, HL.
      by destruct HIDDEN_SIZE, (self2 !! "X") as [[?|?]|],
        (self2 !! "seqlens") as [[?|?]|]. }
    destruct (prediction_function HIDDEN_SIZE TARGET_SIZE id_self self1) as [[v1|e1] s1],
      (prediction_function HIDDEN_SIZE TARGET_SIZE id_self self2) as [[v2|e2] s2];
      simpl in *; congruence.
  - intros id_other v Hc1 Hc2 Hv1 Hv2.
    destruct (prediction_fresh_node _ _ _ _ _ Hc1 Hv1) as (X1 & L1 & ->).
    destruct (prediction_fresh_node _ _ _ _ _ Hc2 Hv2) as (X2 & L2 & [= Heq]).
    symmetry. by eapply architecture_id.
  - intros name Hfw Hbw Hcache. rewrite prediction_unfold.
    destruct (self1 !! "_cache_prediction"); [done|].
    pose proof (proj1 (prediction_function_outcome HIDDEN_SIZE TARGET_SIZE id_self self1)
                  name Hfw Hbw) as Hsame.
    destruct (prediction_function HIDDEN_SIZE TARGET_SIZE id_self self1) as [[v|e] s1];
      simpl in *; [|done].
    by rewrite lookup_insert_ne.
Qed.

Lemma prediction_reads_and_writes_witness :
  (prediction HIDDEN_SIZE_main TARGET_SIZE_main 140
     (<["T" := Tensor (Placeholder "T")]> self_main)).1
  = (prediction HIDDEN_SIZE_main TARGET_SIZE_main 140 self_main).1.
Proof.
  apply (proj1 (prediction_reads_and_writes HIDDEN_SIZE_main TARGET_SIZE_main 140
                  (<["T" := Tensor (Placeholder "T")]> self_main) self_main));
    reflexivity.
Defined.

(** Two objects with the same attributes, at [id]s 140 and 141, get
    different nodes. *)
Example prediction_of_two_objects :
  (prediction HIDDEN_SIZE_main TARGET_SIZE_main 140 self_main).1
  ≠ (prediction HIDDEN_SIZE_main TARGET_SIZE_main 141 self_main).1.
Proof. vm_compute. discriminate. Qed.

(** *** DBLSTM.__init__ *)

Section Init.
Variable HIDDEN_SIZE : list Z.
Variable TARGET_SIZE : Z.
Variable id_self : Z.
Variables X T seqlens : tensor.

Local Abbreviation prediction := (prediction HIDDEN_SIZE TARGET_SIZE id_self).
Local Abbreviation cost := (cost HIDDEN_SIZE TARGET_SIZE id_self).
Local Abbreviation optimize := (optimize HIDDEN_SIZE TARGET_SIZE id_self).
Local Abbreviation error := (error HIDDEN_SIZE TARGET_SIZE id_self).
Local Abbreviation architecture :=
  (architecture HIDDEN_SIZE TARGET_SIZE id_self X seqlens).
Local Abbreviation DBLSTM__init__ :=
  (DBLSTM__init__ HIDDEN_SIZE TARGET_SIZE id_self X T seqlens).

(** The attributes that [__init__] assigns before it builds the graph. *)
Local Abbreviation fields :=
  (<["seqlens" := Tensor seqlens]>
     (<["Tflat" := Tensor (Cast (ArgMax T 2) int32)]>
        (<["T" := Tensor T]> (<["X" := Tensor X]> (∅ : object))))).

Local Abbreviation cost_node :=
  (ReduceMean (Neg (CrfLogLikelihood architecture (Cast (ArgMax T 2) int32) seqlens))).
Local Abbreviation optimize_node :=
  (AdamMinimize "optimize" (Q2Qc (5 # 1000)) cost_node).
Local Abbreviation error_node :=
  (ReduceMean
     (Div (ReduceSum
             (Mul (Cast (NotEqual (ArgMax architecture 2) (ArgMax T 2)) float32)
                  (Cast (Sign (ReduceMax (Abs T) 2)) float32)) 1)
          (Cast seqlens float32))).

Lemma init_run_full :
  HIDDEN_SIZE ≠ [] →
  ∃ s1,
    Dblstm.prediction_function HIDDEN_SIZE TARGET_SIZE id_self fields
    = (Ok (Tensor architecture), s1)
    ∧ same_but_cells fields s1
    ∧ DBLSTM__init__ ∅
      = (Ok tt,
         <["_cache_error" := Tensor error_node]>
           (<["_cache_optimize" := Tensor optimize_node]>
              (<["_cache_cost" := Tensor cost_node]>
                 (<["_cache_prediction" := Tensor architecture]> s1)))).
Proof.
  intros Hne. unfold Dblstm.DBLSTM__init__.
  set (s0 := fields).
  destruct (prediction_function_architecture HIDDEN_SIZE TARGET_SIZE id_self
              X seqlens s0 Hne) as (s1 & Hfun & Hsame); [done..|].
  exists s1. split_and!; [done..|].
  assert (prediction s0
          = (Ok (Tensor architecture), <["_cache_prediction" := Tensor architecture]> s1))
    as Hpred by (by apply (lazy_property_fresh "prediction")).
  set (s2 := <["_cache_prediction" := Tensor architecture]> s1) in *.
  assert (∀ name v, name ≠ "cell_fw" → name ≠ "cell_bw" → name ≠ "_cache_prediction" →
            s0 !! name = v → s2 !! name = v) as Hs2.
  { intros name v ??? <-. unfold s2. rewrite lookup_insert_ne by done. by apply Hsame. }
  assert (prediction s2 = (Ok (Tensor architecture), s2)) as Hpred2.
  { apply (lazy_property_cached "prediction"). apply lookup_insert_eq. }
  assert (cost s2 = (Ok (Tensor cost_node), <["_cache_cost" := Tensor cost_node]> s2))
    as Hcost.
  { apply (lazy_property_fresh "cost"); [by apply Hs2|].
    unfold cost_function.
    erewrite bind_Ok; [|erewrite bind_Ok; [|exact Hpred2]; reflexivity].
    erewrite bind_Ok; [|apply gettensor_Some; by apply Hs2].
    erewrite bind_Ok; [|apply gettensor_Some; by apply Hs2].
    reflexivity. }
  set (s3 := <["_cache_cost" := Tensor cost_node]> s2) in *.
  assert (optimize s2
          = (Ok (Tensor optimize_node), <["_cache_optimize" := Tensor optimize_node]> s3))
    as Hopt.
  { apply (lazy_property_fresh "optimize"); [by apply Hs2|].
    unfold optimize_function.
    erewrite bind_Ok; [|erewrite bind_Ok; [|exact Hcost]; reflexivity].
    reflexivity. }
  set (s4 := <["_cache_optimize" := Tensor optimize_node]> s3) in *.
  assert (∀ name v, name ≠ "cell_fw" → name ≠ "cell_bw" →
            name ≠ "_cache_prediction" → name ≠ "_cache_cost" →
            name ≠ "_cache_optimize" →
            s0 !! name = v → s4 !! name = v) as Hs4.
  { intros name v ????? Hv. unfold s4, s3.
    rewrite !lookup_insert_ne by done. by apply Hs2. }
  assert (s4 !! "_cache_prediction" = Some (Tensor architecture)) as Hp4.
  { unfold s4, s3, s2. rewrite !lookup_insert_ne by done. apply lookup_insert_eq. }
  assert (error s4 = (Ok (Tensor error_node), <["_cache_error" := Tensor error_node]> s4))
    as Herr.
  { apply (lazy_property_fresh "error"); [by apply Hs4|].
    unfold error_function.
    erewrite bind_Ok;
      [|erewrite bind_Ok; [|by apply (lazy_property_cached "prediction")]; reflexivity].
    erewrite bind_Ok; [|apply gettensor_Some; by apply Hs4].
    erewrite bind_Ok; [|apply gettensor_Some; by apply Hs4].
    erewrite bind_Ok; [|apply gettensor_Some; by apply Hs4].
    reflexivity. }
  do 4 (erewrite bind_Ok; [|reflexivity]). fold s0.
  erewrite bind_Ok; [|exact Hpred].
  erewrite bind_Ok; [|exact Hopt].
  erewrite bind_Ok; [|exact Herr].
  reflexivity.
Qed.

(** The four properties on an object without caches, when [HIDDEN_SIZE]
    is empty and TensorFlow accepts whatever it is given. *)
Lemma properties_without_hidden_size (self : object) :
  HIDDEN_SIZE = [] →
  (∀ name, self !! ("_cache_" +:+ name) = None) →
  let e := Exn IndexError "list index out of range" in
  prediction self = (Raise e, self) ∧ cost self = (Raise e, self)
  ∧ optimize self = (Raise e, self) ∧ error self = (Raise e, self).
Proof.
  intros HHS Hcaches e.
  assert (prediction self = (Raise e, self)) as Hprediction.
  { apply (lazy_property_raise "prediction"); [apply (Hcaches "prediction")|].
    unfold prediction_function. by rewrite HHS. }
  assert (cost self = (Raise e, self)) as Hcost.
  { apply (lazy_property_raise "cost"); [apply (Hcaches "cost")|].
    unfold cost_function. by erewrite bind_Raise; [|erewrite bind_Raise; [|exact Hprediction]]. }
  split_and!; [done..| |].
  - apply (lazy_property_raise "optimize"); [apply (Hcaches "optimize")|].
    unfold optimize_function.
    by erewrite bind_Raise; [|erewrite bind_Raise; [|exact Hcost]].
  - apply (lazy_property_raise "error"); [apply (Hcaches "error")|].
    unfold error_function.
    by erewrite bind_Raise; [|erewrite bind_Raise; [|exact Hprediction]].
Qed.

(** X20.  A non-empty [HIDDEN_SIZE] is necessary for [DBLSTM(X, T,
    seqlens)] to be constructed, and for any of [prediction], [cost],
    [optimize] and [error] to be read on an object that has no cache
    yet: [prediction] reads [HIDDEN_SIZE[0]] before it builds any cell,
    and the other three read [prediction] before they build their own
    node.  (It is not sufficient: TensorFlow may refuse the sizes or the
    inputs, which this development takes to be accepted.) *)
Theorem init_requires_hidden_size :
  ((∃ self, DBLSTM__init__ ∅ = (Ok tt, self)) → HIDDEN_SIZE ≠ [])
  ∧ ∀ (self self' : object) (v : attr),
      (∀ name, self !! ("_cache_" +:+ name) = None) →
      prediction self = (Ok v, self') ∨ cost self = (Ok v, self')
      ∨ optimize self = (Ok v, self') ∨ error self = (Ok v, self') →
      HIDDEN_SIZE ≠ [].
Proof.
  split.
  - intros [self Hinit] ->. vm_compute in Hinit. discriminate Hinit.
  - intros self self' v Hcaches Hread HHS.
    destruct (properties_without_hidden_size self HHS Hcaches) as (Hp & Hc & Ho & He).
    destruct Hread as [H|[H|[H|H]]]; congruence.
Qed.

(** X21.  After a successful construction the whole graph exists and is
    built once: [optimize] is the Adam step, with learning rate 0.005,
    that minimises the very node [cost] returns, and [error] is the mean
    over the batch of the mistakes of [prediction] against [T], masked
    where [T] is all zero, summed over time and divided by the sequence
    length.  Reading any of the four properties afterwards returns its
    node and leaves the object unchanged. *)
Theorem init_builds_graph_once (self : object) :
  DBLSTM__init__ ∅ = (Ok tt, self) →
  ∃ p c,
    prediction self = (Ok (Tensor p), self)
    ∧ cost self = (Ok (Tensor c), self)
    ∧ optimize self
      = (Ok (Tensor (AdamMinimize "optimize" (Q2Qc (5 # 1000)) c)), self)
    ∧ error self
      = (Ok (Tensor
               (ReduceMean
                  (Div (ReduceSum
                          (Mul (Cast (NotEqual (ArgMax p 2) (ArgMax T 2)) float32)
                               (Cast (Sign (ReduceMax (Abs T) 2)) float32)) 1)
                       (Cast seqlens float32)))), self).
Proof.
  intros Hself.
  destruct HIDDEN_SIZE as [|sz0 rest] eqn:HHS.
  { vm_compute in Hself. discriminate Hself. }
  rewrite <- HHS in *.
  destruct init_run_full as (s1 & _ & _ & Hinit); [by rewrite HHS|].
  rewrite Hinit in Hself. injection Hself as <-.
  exists architecture, cost_node. split_and!.
  - apply (lazy_property_cached "prediction").
    rewrite !lookup_insert_ne by done. apply lookup_insert_eq.
  - apply (lazy_property_cached "cost").
    rewrite !lookup_insert_ne by done. apply lookup_insert_eq.
  - apply (lazy_property_cached "optimize").
    rewrite !lookup_insert_ne by done. apply lookup_insert_eq.
  - apply (lazy_property_cached "error"). apply lookup_insert_eq.
Qed.
End Init.

Lemma init_requires_hidden_size_witness : HIDDEN_SIZE_main ≠ [].
Proof.
  apply (proj1 (init_requires_hidden_size HIDDEN_SIZE_main TARGET_SIZE_main 140
                  (Placeholder "X") (Placeholder "T") (Placeholder "seqlens"))).
  eexists. vm_compute. reflexivity.
Defined.

Lemma init_builds_graph_once_witness :
  ∃ self c,
    DBLSTM__init__ HIDDEN_SIZE_main TARGET_SIZE_main 140
      (Placeholder "X") (Placeholder "T") (Placeholder "seqlens") ∅ = (Ok tt, self)
    ∧ cost HIDDEN_SIZE_main TARGET_SIZE_main 140 self = (Ok (Tensor c), self)
    ∧ optimize HIDDEN_SIZE_main TARGET_SIZE_main 140 self
      = (Ok (Tensor (AdamMinimize "optimize" (Q2Qc (5 # 1000)) c)), self).
Proof.
  destruct (DBLSTM__init__ HIDDEN_SIZE_main TARGET_SIZE_main 140
              (Placeholder "X") (Placeholder "T") (Placeholder "seqlens") ∅)
    as [r self] eqn:Hrun.
  assert (r = Ok tt) as ->.
  { apply (f_equal fst) in Hrun. vm_compute in Hrun. by subst r. }
  destruct (init_builds_graph_once HIDDEN_SIZE_main TARGET_SIZE_main 140
              (Placeholder "X") (Placeholder "T") (Placeholder "seqlens") self Hrun)
    as (p & c & _ & Hcost & Hopt & _).
  by exists self, c.
Defined.

(** *** The cells an object keeps *)

Section Cells.
Variable HIDDEN_SIZE : list Z.
Variable TARGET_SIZE : Z.
Variable id_self : Z.

Lemma layers_cells (seqlens : tensor) (l : list (Z * Z)) (hs : tensor * tensor)
    (self : object) :
  let out := layers id_self seqlens l hs self in
  (∃ hs', out.1 = Ok hs')
  ∧ ∀ name, name = "cell_fw" ∨ name = "cell_bw" →
      out.2 !! name = match last l with
                      | Some i_sz => Some (Cell (get_unit i_sz.2))
                      | None => self !! name
                      end.
Proof.
  revert hs self. induction l as [|[i sz] l IH]; intros [h h_1] self; cbv zeta.
  - split; [by eexists|done].
  - cbn [layers]. unfold layer, mbind, method_bind, setattr, mret, method_ret.
    set (self1 := <["cell_bw" := Cell (get_unit sz)]>
                    (<["cell_fw" := Cell (get_unit sz)]> self)).
    match goal with |- context [layers _ _ l ?hs' self1] =>
      destruct (IH hs' self1) as [Hok Hcells] end.
    split; [exact Hok|]. intros name Hname. rewrite (Hcells name Hname).
    rewrite last_cons. destruct (last l) as [i_sz'|]; [done|]. cbn [snd].
    unfold self1. destruct Hname as [-> | ->].
    + rewrite lookup_insert_ne by done. apply lookup_insert_eq.
    + apply lookup_insert_eq.
Qed.

Lemma last_enumerate_from {A} (i : Z) (l : list A) :
  snd <$> last (enumerate_from i l) = last l.
Proof.
  revert i. induction l as [|x [|y l] IH]; intros i; [done..|].
  exact (IH (i + 1)).
Qed.

(** X22.  [prediction] assigns [cell_fw] and [cell_bw] anew in every
    layer, so once it has returned the object keeps the two cells of
    the top layer only, both of [HIDDEN_SIZE[-1]] units; the cells of
    the layers below are reachable from the graph alone. *)
Theorem prediction_keeps_top_cells (X seqlens : tensor) (self : object) (szn : Z) :
  last HIDDEN_SIZE = Some szn →
  self !! "X" = Some (Tensor X) →
  self !! "seqlens" = Some (Tensor seqlens) →
  self !! "_cache_prediction" = None →
  let self' := (prediction HIDDEN_SIZE TARGET_SIZE id_self self).2 in
  self' !! "cell_fw" = Some (Cell (get_unit szn))
  ∧ self' !! "cell_bw" = Some (Cell (get_unit szn)).
Proof.
  intros Hlast HX HL Hcache.
  destruct HIDDEN_SIZE as [|sz0 rest] eqn:HHS; [done|]. rewrite <- HHS in *.
  assert (∀ name, name = "cell_fw" ∨ name = "cell_bw" →
            (prediction_function HIDDEN_SIZE TARGET_SIZE id_self self).2 !! name
            = Some (Cell (get_unit szn))) as Hcells.
  { intros name Hname.
    set (self1 := <["cell_fw" := Cell (get_unit sz0)]> self).
    set (self2 := <["cell_bw" := Cell (get_unit sz0)]> self1).
    assert (first_item HIDDEN_SIZE = Ok sz0) as Hfirst by (by rewrite HHS).
    unfold prediction_function.
    erewrite bind_Ok; [|unfold lift; by rewrite Hfirst].
    erewrite bind_Ok; [|reflexivity]. fold self1.
    erewrite bind_Ok; [|apply gettensor_Some; unfold self1; by rewrite lookup_insert_ne].
    erewrite bind_Ok; [|apply gettensor_Some; unfold self1; by rewrite lookup_insert_ne].
    erewrite bind_Ok; [|unfold lift; by rewrite Hfirst].
    erewrite bind_Ok; [|reflexivity]. fold self2.
    match goal with |- context [layers _ _ ?l ?hs] =>
      destruct (layers_cells seqlens l hs self2) as [[[h h_1] Hok] Hstate];
      destruct (layers id_self seqlens l hs self2) as [r self3] eqn:Hrun end.
    simpl in Hok. subst r. specialize (Hstate name Hname). simpl in Hstate.
    erewrite bind_Ok; [|exact Hrun].
    unfold lift, last_item. rewrite Hlast.
    unfold mbind, method_bind, mret, method_ret. cbn [snd]. rewrite Hstate.
    pose proof (last_enumerate_from 0 (drop 1 HIDDEN_SIZE)) as Henum.
    rewrite HHS in Hlast, Henum. rewrite HHS.
    change (drop 1 (sz0 :: rest)) with rest in Henum |- *.
    destruct rest as [|sz1 rest'].
    - injection Hlast as <-. simpl. unfold self2, self1.
      destruct Hname as [-> | ->].
      + rewrite lookup_insert_ne by done. apply lookup_insert_eq.
      + apply lookup_insert_eq.
    - change (last (sz0 :: sz1 :: rest')) with (last (sz1 :: rest')) in Hlast.
      rewrite Hlast in Henum.
      destruct (last (enumerate_from 0 (sz1 :: rest'))) as [[i sz]|]; [|done].
      by injection Henum as ->. }
  cbv zeta. unfold prediction.
  destruct (prediction_function HIDDEN_SIZE TARGET_SIZE id_self self)
    as [[v|e] s1] eqn:Hf.
  - rewrite (lazy_property_fresh "prediction" _ self v s1 Hcache Hf). cbn [snd].
    rewrite !lookup_insert_ne by done. split; apply Hcells; auto.
  - rewrite (lazy_property_raise "prediction" _ self e s1 Hcache Hf). cbn [snd].
    split; apply Hcells; auto.
Qed.
End Cells.

Lemma prediction_keeps_top_cells_witness :
  let self' := (prediction [32; 64; 16] TARGET_SIZE_main 140 self_main).2 in
  self' !! "cell_fw" = Some (Cell (get_unit 16))
  ∧ self' !! "cell_bw" = Some (Cell (get_unit 16)).
Proof.
  apply (prediction_keeps_top_cells [32; 64; 16] TARGET_SIZE_main 140
           (Placeholder "X") (Placeholder "seqlens") self_main 16); reflexivity.
Defined.

(** *** main: the averages it prints *)

Section MainWindow.
(** The batches trained so far with their losses and errors; the sum of
    a list; the lines printed so far, each the means of a full block of
    five batches. *)
Local Abbreviation trained :=
  (Forall2 (λ (b : batch) (le : Qc * Qc), b_train b = Ok le)).
Local Abbreviation total := (foldr Qcplus 0%Qc).
Local Abbreviation printed_means :=
  (λ (les : list (Qc * Qc)) (tr : list event),
     ∀ n l e, Printed n l e ∈ tr →
       ∃ k : nat,
         n = 5 * (Z.of_nat k + 1) ∧ (5 * k + 5 ≤ length les)%nat
         ∧ l = (total (take 5 (drop (5 * k) les)).*1 / Qc_of_Z 5)%Qc
         ∧ e = (total (take 5 (drop (5 * k) les)).*2 / Qc_of_Z 5)%Qc).
Local Abbreviation at_head :=
  (λ (done : list batch) (les : list (Qc * Qc)) (s : main_state),
     trained done les
     ∧ m_step s = Z.of_nat (length done)
     ∧ m_total_loss s = total (drop (5 * (length done / 5)) les).*1
     ∧ m_total_error s = total (drop (5 * (length done / 5)) les).*2
     ∧ printed_means les (m_trace s)).
Local Abbreviation at_exit :=
  (λ (bs : list batch) (s : main_state),
     ∃ (done rest : list batch) (les : list (Qc * Qc)),
       bs = done ++ rest ∧ trained done les ∧ printed_means les (m_trace s)).

Lemma total_snoc (l : list Qc) (x : Qc) : total (l ++ [x]) = (total l + x)%Qc.
Proof. induction l as [|y l IH]; simpl; [ring|]. rewrite IH. ring. Qed.

Lemma printed_means_snoc les le tr :
  printed_means les tr → printed_means (les ++ [le]) tr.
Proof.
  intros Hprinted n l e Hin. destruct (Hprinted n l e Hin) as (k & Hn & Hk & Hl & He).
  exists k. rewrite length_app. split_and!; [done|lia|..].
  - rewrite Hl. rewrite drop_app_le by lia.
    rewrite (take_app_le (drop (5 * k) les)); [done|]. rewrite length_drop. lia.
  - rewrite He. rewrite drop_app_le by lia.
    rewrite (take_app_le (drop (5 * k) les)); [done|]. rewrite length_drop. lia.
Qed.

Lemma main_iteration_window b done les s c s' :
  at_head done les s →
  main_iteration b s = (c, s') →
  match c with
  | Normal => ∃ le, at_head (done ++ [b]) (les ++ [le]) s'
  | _ => printed_means les (m_trace s')
  end.
Proof.
  intros (Htrained & Hstep & Hloss & Herror & Hprinted).
  pose proof (Forall2_length _ _ _ Htrained) as Hlen.
  unfold main_iteration, eval.
  destruct (b_fetch b) as [[]|e0]; [|by intros [= <- <-]].
  destruct (b_train b) as [[loss error]|e0] eqn:Htrain; [|by intros [= <- <-]].
  unfold seq, main_accumulate, main_display, main_next_step. cbn [m_step].
  set (n := length done) in *.
  assert (trained (done ++ [b]) (les ++ [(loss, error)])) as Htrained'.
  { apply Forall2_app; [done|]. by repeat constructor. }
  assert (length (done ++ [b]) = S n) as Hn' by (rewrite length_app; cbn [length]; lia).
  assert (total (drop (5 * (n / 5)) (les ++ [(loss, error)])).*1
          = (m_total_loss s + loss)%Qc) as Hloss'.
  { rewrite drop_app_le, fmap_app by div_lia.
    change ([(loss, error)].*1) with [loss]. by rewrite total_snoc, Hloss. }
  assert (total (drop (5 * (n / 5)) (les ++ [(loss, error)])).*2
          = (m_total_error s + error)%Qc) as Herror'.
  { rewrite drop_app_le, fmap_app by div_lia.
    change ([(loss, error)].*2) with [error]. by rewrite total_snoc, Herror. }
  rewrite Hstep.
  destruct (Z.eqb_spec ((Z.of_nat n + 1) `mod` 5) 0) as [Hmod|Hmod];
    intros [= <- <-]; exists (loss, error); rewrite Hn';
    cbn [m_step m_total_loss m_total_error m_trace].
  - assert (S n / 5 = S (n / 5))%nat as Hdiv by div_lia.
    assert (5 * S (n / 5) = S n)%nat as Hfull by div_lia.
    rewrite Hdiv, Hfull, drop_ge by (rewrite length_app; cbn [length]; lia).
    split_and!; [done|lia|done..|].
    intros m l e [Hin|Hin%list_elem_of_singleton]%elem_of_app.
    + exact (printed_means_snoc _ _ _ Hprinted m l e Hin).
    + injection Hin as -> -> ->. exists (n / 5)%nat.
      rewrite length_app. cbn [length].
      split_and!; [div_lia|div_lia|..].
      * rewrite <- Hloss'. f_equal. f_equal. f_equal. symmetry. apply take_ge.
        rewrite length_drop, length_app. cbn [length]. div_lia.
      * rewrite <- Herror'. f_equal. f_equal. f_equal. symmetry. apply take_ge.
        rewrite length_drop, length_app. cbn [length]. div_lia.
  - assert (S n / 5 = n / 5)%nat as -> by div_lia.
    split_and!; [done|lia|done..|]. exact (printed_means_snoc _ _ _ Hprinted).
Qed.

Lemma main_loop_window rest done les s c s' :
  at_head done les s →
  main_loop rest s = (c, s') →
  at_exit (done ++ rest) s'.
Proof.
  revert done les s. induction rest as [|b rest IH]; intros done les s Hhead.
  - intros [= <- <-]. destruct Hhead as (Htrained & _ & _ & _ & Hprinted).
    by exists done, [], les.
  - cbn [main_loop]. destruct (b_should_stop b).
    + intros [= <- <-]. destruct Hhead as (Htrained & _ & _ & _ & Hprinted).
      by exists done, (b :: rest), les.
    + unfold seq. destruct (main_iteration b s) as [c1 s1] eqn:Hit.
      pose proof (main_iteration_window b done les s c1 s1 Hhead Hit) as Hwindow.
      destruct Hhead as (Htrained & _).
      destruct c1 as [|v|e1];
        [|intros [= <- <-]; by exists done, (b :: rest), les..].
      destruct Hwindow as [le Hhead']. intros Hloop.
      replace (done ++ b :: rest) with ((done ++ [b]) ++ rest)
        by (by rewrite <- app_assoc).
      by eapply IH.
Qed.

Lemma main_loop_no_return bs s v : (main_loop bs s).1 ≠ Returned v.
Proof.
  revert s. induction bs as [|b bs IH]; intros s; [done|].
  cbn [main_loop]. destruct (b_should_stop b); [done|].
  unfold seq at 1, main_iteration, eval.
  destruct (b_fetch b) as [[]|e0]; [|done].
  destruct (b_train b) as [[loss error]|e0]; [|done].
  unfold seq, main_accumulate, main_display, main_next_step. cbn [m_step].
  destruct (_ =? 0); apply IH.
Qed.
End MainWindow.

(** X23.  Every line [main] prints carries the means of a full block of
    five batches: the line for iteration [n] appears only for [n] a
    multiple of five, and its average cost and error are the sums of the
    losses and errors of batches [n - 5] to [n - 1], divided by five
    (losses and errors are rationals here, so the order of the additions
    does not show).  The session never ends with [OutOfRangeError], and
    in every case its last two acts are to ask the coordinator to stop
    and to join the threads. *)
Theorem main_prints_five_batch_means (bs : list batch) :
  let out := main_session bs in
  (∀ n l e, Printed n l e ∈ m_trace out.2 →
     ∃ (k : nat) (les : list (Qc * Qc)),
       n = 5 * (Z.of_nat k + 1)
       ∧ Forall2 (λ b le, b_train b = Ok le) (take 5 (drop (5 * k) bs)) les
       ∧ length les = 5%nat
       ∧ l = (foldr Qcplus 0%Qc les.*1 / Qc_of_Z 5)%Qc
       ∧ e = (foldr Qcplus 0%Qc les.*2 / Qc_of_Z 5)%Qc)
  ∧ (∃ tr, m_trace out.2 = tr ++ [StopRequested; Joined])
  ∧ (out.1 = Normal
     ∨ ∃ e, out.1 = Raised e ∧ is_class OutOfRangeError e = false).
Proof.
  cbv zeta. unfold main_session, try_finally, try_except.
  pose proof (main_loop_no_return bs main_start) as Hreturn.
  destruct (main_loop bs main_start) as [c s] eqn:Hloop.
  apply (main_loop_window bs [] [] main_start) in Hloop as Hexit.
  2:{ split_and!; [constructor|done..|].
      intros n l e Hin. repeat (apply elem_of_cons in Hin as [[=]|Hin]).
      by apply elem_of_nil in Hin. }
  destruct Hexit as (done & rest & les & Hbs & Htrained & Hprinted).
  change ([] ++ bs) with bs in Hbs.
  pose proof (Forall2_length _ _ _ Htrained) as Hlen.
  assert (∀ tr : list event,
            (∀ n l e, Printed n l e ∈ tr → Printed n l e ∈ m_trace s) →
            ∀ n l e, Printed n l e ∈ tr →
              ∃ (k : nat) (les5 : list (Qc * Qc)),
                n = 5 * (Z.of_nat k + 1)
                ∧ Forall2 (λ b le, b_train b = Ok le) (take 5 (drop (5 * k) bs)) les5
                ∧ length les5 = 5%nat
                ∧ l = (foldr Qcplus 0%Qc les5.*1 / Qc_of_Z 5)%Qc
                ∧ e = (foldr Qcplus 0%Qc les5.*2 / Qc_of_Z 5)%Qc) as Hmeans.
  { intros tr Htr n l e Hin.
    destruct (Hprinted n l e (Htr n l e Hin)) as (k & Hn & Hk & Hl & He).
    exists k, (take 5 (drop (5 * k) les)). split_and!; [done| | |..].
    - rewrite Hbs, drop_app_le by lia.
      rewrite take_app_le by (rewrite length_drop; lia).
      by apply Forall2_take, Forall2_drop.
    - rewrite length_take, length_drop. lia.
    - done.
    - done. }
  assert (∀ (tr : list event) (evs : list event) n l e,
            Forall (λ ev, ∀ n l e, ev ≠ Printed n l e) evs →
            Printed n l e ∈ tr ++ evs → Printed n l e ∈ tr) as Hother.
  { intros tr evs n l e Hevs [Hin|Hin]%elem_of_app; [done|].
    rewrite Forall_forall in Hevs. by destruct (Hevs _ Hin n l e). }
  assert (∀ n l e, Printed n l e ∈ m_trace s ++ [StopRequested; Joined] →
            Printed n l e ∈ m_trace s) as Hstop.
  { intros n l e. apply Hother. by repeat constructor. }
  assert (∀ n l e, Printed n l e ∈ m_trace s ++ [DoneTraining; StopRequested; Joined] →
            Printed n l e ∈ m_trace s) as Hdone.
  { intros n l e. apply Hother. by repeat constructor. }
  destruct c as [|v|[cls msg]].
  - unfold seq, main_log. cbn [fst snd m_trace]. rewrite <- !app_assoc. cbn [app].
    split_and!; [by apply Hmeans|by eexists|by left].
  - by destruct (Hreturn v).
  - destruct (is_class OutOfRangeError (Exn cls msg)) eqn:Hcls.
    + unfold seq, main_log. cbn [fst snd m_trace]. rewrite <- !app_assoc. cbn [app].
      split_and!; [by apply Hmeans| |by left].
      exists (m_trace s ++ [DoneTraining]). by rewrite <- app_assoc.
    + unfold seq, main_log. cbn [fst snd m_trace]. rewrite <- !app_assoc. cbn [app].
      split_and!; [by apply Hmeans|by eexists|right; by eexists].
Qed.

(** Six batches of loss 1/2 and error 1/10, the queue then exhausted:
    one line is printed, after the fifth batch. *)
Example main_six_batches :
  let b := {| b_should_stop := false; b_fetch := Ok tt;
              b_train := Ok (Q2Qc (1 # 2), Q2Qc (1 # 10)) |} in
  let out := main_session (replicate 6 b) in
  out.1 = Normal
  ∧ m_step out.2 = 6
  ∧ m_trace out.2
    = [SessionInit; QueueRunners; Printed 5 (Q2Qc (1 # 2)) (Q2Qc (1 # 10));
       DoneTraining; StopRequested; Joined].
Proof.
  vm_compute. split_and!; [reflexivity..|].
  do 2 apply f_equal. apply (f_equal2 cons); [|reflexivity].
  apply f_equal3; [reflexivity|apply Qc_is_canon; reflexivity..].
Qed.

End DblstmProperties.
